(** * framework-errors: the status-error model and its gRPC codec

    A shallow embedding of [codes.go], [errors.go] and the wrapper file
    (withStatus, Option, WithStack, WrapWithStatus, NewWithStatus), with the
    Go heap made explicit: maps, [*statusError] and [*withStatus] are
    references into a store, so aliasing and reference identity are visible. *)

From Stdlib Require Import ZArith Lia DecimalString.
From stdpp Require Import base option list gmap strings.

Local Open Scope string_scope.
Local Open Scope Z_scope.
#[local] Set Warnings "-register-all".

(** ** codes.go *)

Record CodeDefinition := {
  Message : string;
  IsAffectStability : bool
}.

Definition CodeSuccess : Z := 200.
Definition CodeInvalidParam : Z := 1001.
Definition CodeUnauthorized : Z := 1002.
Definition CodeForbidden : Z := 1003.
Definition CodeNotFound : Z := 1004.
Definition CodeAlreadyExists : Z := 1005.
Definition CodeInternalError : Z := 1006.
Definition CodeRequestTimeout : Z := 1007.
Definition CodeUserNotFound : Z := 2001.
Definition CodeUserAlreadyExist : Z := 2002.
Definition CodeRateLimitExceeded : Z := 2003.
Definition CodeTokenExpired : Z := 2004.

(** The map literal that initialises the package variable [CodeDefinitions]. *)
Definition CodeDefinitions : gmap Z CodeDefinition :=
  list_to_map [
    (CodeSuccess, {| Message := "success"; IsAffectStability := false |});
    (CodeInvalidParam, {| Message := "参数无效"; IsAffectStability := false |});
    (CodeUnauthorized, {| Message := "未授权"; IsAffectStability := false |});
    (CodeForbidden, {| Message := "禁止访问"; IsAffectStability := false |});
    (CodeNotFound, {| Message := "资源未找到"; IsAffectStability := false |});
    (CodeAlreadyExists, {| Message := "资源已存在"; IsAffectStability := false |});
    (CodeInternalError, {| Message := "内部服务器错误"; IsAffectStability := true |});
    (CodeUserNotFound, {| Message := "用户不存在"; IsAffectStability := false |});
    (CodeUserAlreadyExist, {| Message := "用户已存在"; IsAffectStability := false |});
    (CodeRateLimitExceeded, {| Message := "请求过于频繁"; IsAffectStability := false |});
    (CodeTokenExpired, {| Message := "认证令牌已过期"; IsAffectStability := false |});
    (CodeRequestTimeout, {| Message := "请求超时"; IsAffectStability := false |})
  ].

(** ** errors.go: registry lookups

    The registry is a package-level mutable map; the functions below take its
    current contents as [defs]. *)

Definition GetCodeDefinition (defs : gmap Z CodeDefinition) (code : Z) : CodeDefinition :=
  match defs !! code with
  | Some def => def
  | None => {| Message := "未知错误"; IsAffectStability := true |}
  end.

Definition GetMessage (defs : gmap Z CodeDefinition) (code : Z) (customMessage : string) : string :=
  if decide (customMessage = "") then Message (GetCodeDefinition defs code)
  else customMessage.

(** ** Go library functions the package calls *)

Definition byte_val (c : Ascii.ascii) : Z := Z.of_N (Ascii.N_of_ascii c).

Definition is_cont (b : Z) : bool := (128 <=? b) && (b <=? 191).

(** [unicode/utf8.ValidString]: the well-formed byte sequences of RFC 3629
    (no overlong forms, no surrogates, nothing above U+10FFFF). *)
Fixpoint utf8_ValidString (s : string) : bool :=
  match s with
  | EmptyString => true
  | String c0 s1 =>
    let b0 := byte_val c0 in
    if b0 <? 128 then utf8_ValidString s1 else
    match s1 with
    | EmptyString => false
    | String c1 s2 =>
      let b1 := byte_val c1 in
      if (194 <=? b0) && (b0 <=? 223) then is_cont b1 && utf8_ValidString s2 else
      match s2 with
      | EmptyString => false
      | String c2 s3 =>
        let b2 := byte_val c2 in
        if (224 <=? b0) && (b0 <=? 239) then
          (if b0 =? 224 then (160 <=? b1) && (b1 <=? 191)
           else if b0 =? 237 then (128 <=? b1) && (b1 <=? 159)
           else is_cont b1)
          && is_cont b2 && utf8_ValidString s3
        else
        match s3 with
        | EmptyString => false
        | String c3 s4 =>
          let b3 := byte_val c3 in
          if (240 <=? b0) && (b0 <=? 244) then
            (if b0 =? 240 then (144 <=? b1) && (b1 <=? 191)
             else if b0 =? 244 then (128 <=? b1) && (b1 <=? 143)
             else is_cont b1)
            && is_cont b2 && is_cont b3 && utf8_ValidString s4
          else false
        end
      end
    end
  end.

(** The scan of [strings.ReplaceAll]: leftmost matches, never overlapping.
    [skip] counts the bytes of a match that are still to be passed over. *)
Fixpoint replace_scan (old new : string) (skip : nat) (s : string) : string :=
  match s with
  | EmptyString => EmptyString
  | String c s' =>
    match skip with
    | S k => replace_scan old new k s'
    | O =>
      if String.prefix old s
      then new +:+ replace_scan old new (String.length old - 1) s'
      else String c (replace_scan old new 0 s')
    end
  end.

(** [strings.ReplaceAll] for a non-empty [old]. The package only calls it
    with a placeholder in braces, so the empty pattern (which Go matches
    between runes) is left as the identity here. *)
Definition strings_ReplaceAll (s old new : string) : string :=
  if decide (old = "") then s else replace_scan old new 0 s.

(** [fmt.Sprintf("%d", n)]. *)
Definition Sprintf_d (n : Z) : string := NilZero.string_of_int (Z.to_int n).

(** A float64 as the package meets it: a finite value [m * 2^e], an
    infinity, or a NaN. *)
Inductive float64 :=
  | F64 (m e : Z)
  | F64_inf (neg : bool)
  | F64_nan.

(** The conversion [float64(c)] of an int32: exact. *)
Definition float64_of_int32 (z : Z) : float64 := F64 z 0.

Definition in_int32 (z : Z) : bool := (- 2 ^ 31 <=? z) && (z <? 2 ^ 31).

Definition float64_trunc (m e : Z) : Z :=
  if 0 <=? e then m * 2 ^ e else Z.quot m (2 ^ (- e)).

(** The conversion [int32(f)]: the fraction is discarded; where the result
    does not fit, Go leaves the value to the implementation ([overflow]). *)
Definition int32_of_float64 (overflow : float64 -> Z) (f : float64) : Z :=
  match f with
  | F64 m e =>
    let t := float64_trunc m e in
    if in_int32 t then t else overflow f
  | _ => overflow f
  end.

(** Dynamic values ([interface{}]) of the kinds that travel through a
    [structpb.Struct]: what [NewValue] accepts from this package and what
    [AsMap] hands back. *)
Inductive any :=
  | any_nil
  | any_bool (b : bool)
  | any_int32 (z : Z)
  | any_float64 (f : float64)
  | any_string (s : string)
  | any_map (kvs : list (string * any))
  | any_slice (l : list any).

(** [structpb.NewValue], after its documented conversion table: nil becomes
    the null value, a bool stays, every number becomes a float64 (a float64
    is stored as it is, NaN and the infinities included), a string is kept
    but "must be valid UTF-8", a map or a slice is converted element by
    element (map keys "must be valid UTF-8" too); an error is returned
    otherwise. *)
Fixpoint structpb_NewValue (v : any) : option any :=
  match v with
  | any_nil => Some any_nil
  | any_bool b => Some (any_bool b)
  | any_int32 z => Some (any_float64 (float64_of_int32 z))
  | any_float64 f => Some (any_float64 f)
  | any_string s => if utf8_ValidString s then Some (any_string s) else None
  | any_map kvs =>
    any_map <$>
      (fix fields (l : list (string * any)) : option (list (string * any)) :=
         match l with
         | [] => Some []
         | (k, x) :: l' =>
           if utf8_ValidString k then
             match structpb_NewValue x, fields l' with
             | Some x', Some l'' => Some ((k, x') :: l'')
             | _, _ => None
             end
           else None
         end) kvs
  | any_slice l =>
    any_slice <$>
      (fix items (l : list any) : option (list any) :=
         match l with
         | [] => Some []
         | x :: l' =>
           match structpb_NewValue x, items l' with
           | Some x', Some l'' => Some (x' :: l'')
           | _, _ => None
           end
         end) l
  end.

(** A [structpb.Struct]: its fields by name, each value as [NewValue]
    stored it. *)
Abbreviation Struct := (gmap string any).

(** [structpb.NewStruct]: fails as soon as one key or value is rejected. *)
Definition structpb_NewStruct (v : gmap string any) : option Struct :=
  if decide (map_Forall
               (fun k x => utf8_ValidString k = true /\ is_Some (structpb_NewValue x)) v)
  then Some (omap structpb_NewValue v)
  else None.

(** The method [AsInterface] of a [*structpb.Value]: the Go value of a
    field. A number that is NaN or infinite is handed back as the string
    "NaN", "Infinity" or "-Infinity", so a float64 that comes out of it is
    finite; a struct or a list is converted element by element; the other
    kinds are handed back as they are. *)
Fixpoint structpb_AsInterface (v : any) : any :=
  match v with
  | any_float64 F64_nan => any_string "NaN"
  | any_float64 (F64_inf false) => any_string "Infinity"
  | any_float64 (F64_inf true) => any_string "-Infinity"
  | any_map kvs =>
    any_map
      ((fix fields (l : list (string * any)) : list (string * any) :=
          match l with
          | [] => []
          | (k, x) :: l' => (k, structpb_AsInterface x) :: fields l'
          end) kvs)
  | any_slice l =>
    any_slice
      ((fix items (l : list any) : list any :=
          match l with
          | [] => []
          | x :: l' => structpb_AsInterface x :: items l'
          end) l)
  | _ => v
  end.

(** The method [AsMap] of a [*structpb.Struct]. *)
Definition structpb_AsMap (s : Struct) : gmap string any := structpb_AsInterface <$> s.

(** ** The store

    Go maps and the pointers [*statusError] and [*withStatus] are references.
    Each kind of object lives in its own table; an address is an index, and
    allocation appends. A nil map or nil pointer is [None]. *)

Abbreviation loc := nat.

Record Extension := {
  ext_IsAffectStability : bool;
  ext_Extra : option loc
}.

Record statusError := {
  statusCode : Z;
  message : string;
  ext : Extension
}.

(** What the four [StatusError] methods of an implementation from another
    package return. *)
Record StatusMethods := {
  m_Code : Z;
  m_IsAffectStability : bool;
  m_Msg : string;
  m_Extra : option loc
}.

(** A value of the interface type [error] (or [StatusError]): nil, one of the
    package's two pointer types, or a value of some other type, given by its
    [Error()] text, its [StatusError] methods if it has them, and what its
    [Unwrap()] returns ([nil_error] when it has none). Both pointer types are
    unexported and only the constructors below produce their values, so a
    pointer held in an interface is never nil. *)
Inductive error :=
  | nil_error
  | Ptr_statusError (p : loc)
  | Ptr_withStatus (p : loc)
  | Foreign (text : string) (methods : option StatusMethods) (unwrap : error).

Record withStatus := {
  status : option loc;
  stack : string;
  cause : error
}.

Record State := {
  defs : gmap Z CodeDefinition;
  maps : list (gmap string string);
  statusErrors : list statusError;
  withStatuses : list withStatus
}.

Definition set_maps (f : list (gmap string string) -> list (gmap string string))
    (σ : State) : State :=
  {| defs := defs σ; maps := f (maps σ);
     statusErrors := statusErrors σ; withStatuses := withStatuses σ |}.

Definition set_statusErrors (f : list statusError -> list statusError) (σ : State) : State :=
  {| defs := defs σ; maps := maps σ;
     statusErrors := f (statusErrors σ); withStatuses := withStatuses σ |}.

Definition set_withStatuses (f : list withStatus -> list withStatus) (σ : State) : State :=
  {| defs := defs σ; maps := maps σ;
     statusErrors := statusErrors σ; withStatuses := f (withStatuses σ) |}.

(** The state in which the package starts: the registry as written in
    [codes.go], nothing allocated. *)
Definition initial : State :=
  {| defs := CodeDefinitions; maps := []; statusErrors := []; withStatuses := [] |}.

(** ** Computations: state passing, [None] for a run-time panic *)

Definition M (A : Type) : Type := State -> option (A * State).

Definition ret {A} (a : A) : M A := fun σ => Some (a, σ).

Definition bind {A B} (m : M A) (k : A -> M B) : M B :=
  fun σ => match m σ with
           | Some (a, σ') => k a σ'
           | None => None
           end.

Definition panic {A} : M A := fun _ => None.

Definition gets {A} (f : State -> A) : M A := fun σ => Some (f σ, σ).

Definition modify (f : State -> State) : M unit := fun σ => Some (tt, f σ).

Definition or_panic {A} (o : option A) : M A :=
  match o with
  | Some a => ret a
  | None => panic
  end.

Notation "'let!' x ':=' m 'in' k" := (bind m (fun x => k))
  (at level 10, x name, m at level 100, k at level 200, only parsing).
Notation "m ';;' k" := (bind m (fun _ => k))
  (at level 100, k at level 200, right associativity, only parsing).

(** [make(map[string]string)], and a copy of given contents. *)
Definition new_map (m : gmap string string) : M loc :=
  fun σ => Some (length (maps σ), set_maps (fun t => (t ++ [m])%list) σ).

(** Reading through a map reference; a nil map reads as empty. *)
Definition read_map (r : option loc) : M (gmap string string) :=
  match r with
  | None => ret ∅
  | Some l => let! t := gets maps in or_panic (t !! l)
  end.

(** [m[k] = v]; assignment to a nil map panics. *)
Definition map_assign (r : option loc) (k v : string) : M unit :=
  match r with
  | None => panic
  | Some l =>
    let! t := gets maps in
    let! m := or_panic (t !! l) in
    modify (set_maps (fun t => <[l := <[k := v]> m]> t))
  end.

(** A [range] loop that assigns every entry of [src] into the map [r]. Keys
    of a Go map are distinct, so the order of iteration has no effect. *)
Definition map_assign_all (r : option loc) (src : gmap string string) : M unit :=
  match r with
  | None => if decide (src = ∅) then ret tt else panic
  | Some l =>
    let! t := gets maps in
    let! m := or_panic (t !! l) in
    modify (set_maps (fun t => <[l := src ∪ m]> t))
  end.

Definition new_statusError (s : statusError) : M loc :=
  fun σ => Some (length (statusErrors σ), set_statusErrors (fun t => (t ++ [s])%list) σ).

(** Dereferencing a [*statusError]; nil panics. *)
Definition load_statusError (p : option loc) : M statusError :=
  match p with
  | None => panic
  | Some l => let! t := gets statusErrors in or_panic (t !! l)
  end.

Definition store_statusError (l : loc) (s : statusError) : M unit :=
  modify (set_statusErrors (fun t => <[l := s]> t)).

Definition new_withStatus (w : withStatus) : M loc :=
  fun σ => Some (length (withStatuses σ), set_withStatuses (fun t => (t ++ [w])%list) σ).

Definition load_withStatus (p : option loc) : M withStatus :=
  match p with
  | None => panic
  | Some l => let! t := gets withStatuses in or_panic (t !! l)
  end.

(** ** errors.go: the methods of [*statusError] *)

Definition statusError_Error (e : loc) : M string :=
  let! s := load_statusError (Some e) in ret (message s).

Definition statusError_Code (e : loc) : M Z :=
  let! s := load_statusError (Some e) in ret (statusCode s).

Definition statusError_IsAffectStability (e : loc) : M bool :=
  let! s := load_statusError (Some e) in ret (ext_IsAffectStability (ext s)).

Definition statusError_Msg (e : loc) : M string :=
  let! s := load_statusError (Some e) in ret (message s).

Definition statusError_Extra (e : loc) : M (option loc) :=
  let! s := load_statusError (Some e) in
  match ext_Extra (ext s) with
  | None => let! l := new_map ∅ in ret (Some l)
  | Some l => ret (Some l)
  end.

(** ** The wrapper file: the methods of [*withStatus] *)

Definition withStatus_Code (w : loc) : M Z :=
  let! ws := load_withStatus (Some w) in
  let! s := load_statusError (status ws) in
  ret (statusCode s).

Definition withStatus_IsAffectStability (w : loc) : M bool :=
  let! ws := load_withStatus (Some w) in
  let! s := load_statusError (status ws) in
  ret (ext_IsAffectStability (ext s)).

Definition withStatus_Msg (w : loc) : M string :=
  let! ws := load_withStatus (Some w) in
  let! s := load_statusError (status ws) in
  ret (message s).

Definition withStatus_Extra (w : loc) : M (option loc) :=
  let! ws := load_withStatus (Some w) in
  let! s := load_statusError (status ws) in
  match ext_Extra (ext s) with
  | None => let! l := new_map ∅ in ret (Some l)
  | Some src =>
    let! extra := new_map ∅ in
    let! kvs := read_map (Some src) in
    map_assign_all (Some extra) kvs ;;
    (if decide (stack ws = "") then ret tt
     else map_assign (Some extra) "stack" (stack ws)) ;;
    ret (Some extra)
  end.

Definition withStatus_Unwrap (w : loc) : M error :=
  let! ws := load_withStatus (Some w) in ret (cause ws).

Definition withStatus_Stack (w : loc) : M string :=
  let! ws := load_withStatus (Some w) in ret (stack ws).

Definition withStatus_Cause (w : loc) : M error :=
  let! ws := load_withStatus (Some w) in ret (cause ws).

(** ** Calls through the [StatusError] interface

    A call on the nil interface panics; a foreign value without the methods
    is not a [StatusError] and cannot reach these calls in a typed program. *)

Definition Code (err : error) : M Z :=
  match err with
  | nil_error => panic
  | Ptr_statusError p => statusError_Code p
  | Ptr_withStatus p => withStatus_Code p
  | Foreign _ (Some m) _ => ret (m_Code m)
  | Foreign _ None _ => panic
  end.

Definition IsAffectStability_of (err : error) : M bool :=
  match err with
  | nil_error => panic
  | Ptr_statusError p => statusError_IsAffectStability p
  | Ptr_withStatus p => withStatus_IsAffectStability p
  | Foreign _ (Some m) _ => ret (m_IsAffectStability m)
  | Foreign _ None _ => panic
  end.

Definition Msg (err : error) : M string :=
  match err with
  | nil_error => panic
  | Ptr_statusError p => statusError_Msg p
  | Ptr_withStatus p => withStatus_Msg p
  | Foreign _ (Some m) _ => ret (m_Msg m)
  | Foreign _ None _ => panic
  end.

Definition Extra_of (err : error) : M (option loc) :=
  match err with
  | nil_error => panic
  | Ptr_statusError p => statusError_Extra p
  | Ptr_withStatus p => withStatus_Extra p
  | Foreign _ (Some m) _ => ret (m_Extra m)
  | Foreign _ None _ => panic
  end.

(** The [data interface{}] argument of the constructors, by dynamic type:
    the nil interface, a [map[string]interface{}] (only read, so given by its
    contents), a [map[string]string] (kept by reference, possibly a nil
    map), or a value of any other type. *)
Inductive Data :=
  | data_nil
  | data_any_map (m : gmap string any)
  | data_string_map (r : option loc)
  | data_other.

(** ** The gRPC status envelope ([codes], [status], [anypb]) *)

Module codes.

Inductive Code :=
  | OK | Canceled | Unknown | InvalidArgument | DeadlineExceeded | NotFound
  | AlreadyExists | PermissionDenied | ResourceExhausted | FailedPrecondition
  | Aborted | OutOfRange | Unimplemented | Internal | Unavailable | DataLoss
  | Unauthenticated
  | Other (n : Z).

End codes.

(** A protobuf message as far as the codec tells messages apart, and an
    [anypb.Any]: either the packing of a message, or one that does not
    unpack (unknown type URL, malformed bytes). *)
Inductive proto_Message :=
  | msg_Struct (s : Struct)
  | msg_Any (a : Any)
  | msg_other (full_name : string)
with Any :=
  | Any_of (m : proto_Message)
  | Any_invalid.

Record Status := {
  st_Code : codes.Code;
  st_Message : string;
  st_Details : list Any
}.

(** An element of [Details()]: the unpacked message, or the error of
    unpacking it. *)
Inductive detail :=
  | detail_msg (m : proto_Message)
  | detail_err.

(** A [*status.Status] is [option Status]; its methods accept nil. *)
Definition status_New (c : codes.Code) (msg : string) : option Status :=
  Some {| st_Code := c; st_Message := msg; st_Details := [] |}.

Definition status_Code (st : option Status) : codes.Code :=
  match st with
  | None => codes.OK
  | Some s => st_Code s
  end.

Definition status_Message (st : option Status) : string :=
  match st with
  | None => ""
  | Some s => st_Message s
  end.

Definition anypb_New (m : proto_Message) : Any := Any_of m.

Definition anypb_UnmarshalNew (a : Any) : detail :=
  match a with
  | Any_of m => detail_msg m
  | Any_invalid => detail_err
  end.

(** [a.UnmarshalTo(&structValue)]: succeeds when [a] packs a Struct. *)
Definition anypb_UnmarshalTo_Struct (a : Any) : option Struct :=
  match a with
  | Any_of (msg_Struct s) => Some s
  | _ => None
  end.

Definition status_Details (st : option Status) : list detail :=
  match st with
  | None => []
  | Some s => anypb_UnmarshalNew <$> st_Details s
  end.

(** [WithDetails] packs the message it is given into an Any of its own and
    appends it; on a status with code OK (so also on nil) it returns nil and
    an error. The caller assigns the returned pointer either way. *)
Definition status_WithDetails (st : option Status) (d : proto_Message) : option Status :=
  match st with
  | None => None
  | Some s =>
    match st_Code s with
    | codes.OK => None
    | _ => Some {| st_Code := st_Code s; st_Message := st_Message s;
                   st_Details := (st_Details s ++ [anypb_New d])%list |}
    end
  end.

(** ** Stack capture *)

Record Frame := {
  fr_Function : string;
  fr_File : string;
  fr_Line : Z
}.

Definition newline : string := String (Ascii.ascii_of_N 10) "".
Definition tab : string := String (Ascii.ascii_of_N 9) "".

(** [runtime.Callers(skip, pcs[:])] with [pcs] of length 32, followed by
    [runtime.CallersFrames]. [stk] is the goroutine's call stack, innermost
    frame first: [runtime.Callers] itself, then [captureStack], then the
    constructor that called it, then the constructor's callers. *)
Definition runtime_Callers (stk : list Frame) (skip : nat) : list Frame :=
  take 32 (drop skip stk).

Definition frame_line (f : Frame) : string :=
  fr_Function f +:+ newline +:+ tab +:+ fr_File f +:+ ":" +:+ Sprintf_d (fr_Line f).

Definition captureStack (stk : list Frame) (skip : nat) : string :=
  let frames := runtime_Callers stk (skip + 1) in
  if decide (length frames = 0%nat) then ""
  else String.concat newline (frame_line <$> frames).

(** ** [errors.As]

    The walk along [Unwrap]: a [*withStatus] unwraps to its cause, a
    [*statusError] has no [Unwrap], a foreign value unwraps as it says.
    Foreign [As] methods are not modelled. [fuel] bounds the steps. *)
Inductive target := to_withStatus | to_statusError.

Fixpoint errors_As (fuel : nat) (σ : State) (err : error) (t : target) : option loc :=
  match fuel with
  | O => None
  | S n =>
    match err, t with
    | nil_error, _ => None
    | Ptr_withStatus p, to_withStatus => Some p
    | Ptr_statusError p, to_statusError => Some p
    | Ptr_statusError _, to_withStatus => None
    | Ptr_withStatus p, to_statusError =>
      match withStatuses σ !! p with
      | Some w => errors_As n σ (cause w) t
      | None => None
      end
    | Foreign _ _ u, _ => errors_As n σ u t
    end
  end.

Fixpoint error_size (err : error) : nat :=
  match err with
  | Foreign _ _ u => S (error_size u)
  | _ => 1
  end.

(** Every node of [err] and of every stored cause: enough steps for any
    walk that does not run in a cycle. *)
Definition As_fuel (σ : State) (err : error) : nat :=
  error_size err + foldr (fun w n => (S (error_size (cause w)) + n)%nat) 0%nat (withStatuses σ).

Definition As (err : error) (t : target) : M (option loc) :=
  fun σ => Some (errors_As (As_fuel σ err) σ err t, σ).

(** ** Options *)

Definition Option := option loc -> M unit.

Definition set_message (msg : string) (s : statusError) : statusError :=
  {| statusCode := statusCode s; message := msg; ext := ext s |}.

Definition set_Extra (r : option loc) (s : statusError) : statusError :=
  {| statusCode := statusCode s; message := message s;
     ext := {| ext_IsAffectStability := ext_IsAffectStability (ext s); ext_Extra := r |} |}.

Definition Param (k v : string) : Option := fun ws =>
  match ws with
  | None => ret tt
  | Some w =>
    let! wv := load_withStatus (Some w) in
    match status wv with
    | None => ret tt
    | Some sp =>
      let! s := load_statusError (Some sp) in
      store_statusError sp
        (set_message (strings_ReplaceAll (message s) ("{" +:+ k +:+ "}") v) s)
    end
  end.

Definition Extra (k v : string) : Option := fun ws =>
  match ws with
  | None => ret tt
  | Some w =>
    let! wv := load_withStatus (Some w) in
    match status wv with
    | None => ret tt
    | Some sp =>
      let! s := load_statusError (Some sp) in
      let! r := match ext_Extra (ext s) with
                | None =>
                  let! l := new_map ∅ in
                  store_statusError sp (set_Extra (Some l) s) ;;
                  ret (Some l)
                | Some l => ret (Some l)
                end in
      map_assign r k v
    end
  end.

Fixpoint apply_opts (opts : list Option) (ws : option loc) : M unit :=
  match opts with
  | [] => ret tt
  | opt :: rest => opt ws ;; apply_opts rest ws
  end.

(** ** Constructors and the codec

    Two things are left to the Go implementation and stay parameters:
    [fmt.Sprintf("%v", v)] on a dynamic value, and the result of converting a
    float64 that does not fit an int32. *)

Section errors.

Variable Sprintf_v : any -> string.
Variable int32_overflow : float64 -> Z.

(** *** errors.go: [NewStatusError] *)

Definition NewStatusError (code : Z) (message : string) (data : Data) : M error :=
  let! d := gets defs in
  let message := if decide (message = "") then GetMessage d code "" else message in
  let def := GetCodeDefinition d code in
  let! extra := new_map ∅ in
  let! extra :=
    match data with
    | data_nil => ret (Some extra)
    | data_any_map dataMap =>
      map_assign_all (Some extra) (Sprintf_v <$> dataMap) ;; ret (Some extra)
    | data_string_map dataMap => ret dataMap
    | data_other => ret (Some extra)
    end in
  let! p := new_statusError
    {| statusCode := code; message := message;
       ext := {| ext_IsAffectStability := IsAffectStability def; ext_Extra := extra |} |} in
  ret (Ptr_statusError p).

(** *** errors.go: [ToGRPCStatus] *)

Definition grpc_of_code (code : Z) : codes.Code :=
  if decide (code = CodeInvalidParam) then codes.InvalidArgument
  else if decide (code = CodeUnauthorized) then codes.Unauthenticated
  else if decide (code = CodeForbidden) then codes.PermissionDenied
  else if decide (code = CodeNotFound) then codes.NotFound
  else if decide (code = CodeAlreadyExists) then codes.AlreadyExists
  else codes.Internal.

(** [if structValue, err := structpb.NewStruct(m); err == nil { ... }] *)
Definition attach (st : option Status) (m : gmap string any) : option Status :=
  match structpb_NewStruct m with
  | Some structValue =>
    let anyValue := anypb_New (msg_Struct structValue) in
    status_WithDetails st (msg_Any anyValue)
  | None => st
  end.

Definition ToGRPCStatus (err : error) : M (option Status) :=
  match err with
  | nil_error => ret (status_New codes.Internal "unknown error")
  | _ =>
    let! c := Code err in
    let grpcCode := grpc_of_code c in
    let! msg := Msg err in
    let st := status_New grpcCode msg in
    let! extra := Extra_of err in
    let! kvs := read_map extra in
    let st :=
      if (0 <? size kvs)%nat
      then attach st (any_string <$> kvs)
      else st in
    let! c := Code err in
    let! msg := Msg err in
    let errorInfo : gmap string any :=
      {[ "business_code" := any_int32 c; "business_msg" := any_string msg ]} in
    ret (attach st errorInfo)
  end.

(** *** errors.go: [FromGRPCStatus] *)

Definition code_of_grpc (c : codes.Code) : Z :=
  match c with
  | codes.InvalidArgument => CodeInvalidParam
  | codes.Unauthenticated => CodeUnauthorized
  | codes.PermissionDenied => CodeForbidden
  | codes.NotFound => CodeNotFound
  | codes.AlreadyExists => CodeAlreadyExists
  | _ => CodeInternalError
  end.

(** The loop over [details], carrying [code], [message] and [extraData]. *)
Fixpoint scan_details (details : list detail) (code : Z) (message : string)
    (extraData : option loc) : M (Z * string * option loc) :=
  match details with
  | [] => ret (code, message, extraData)
  | d :: rest =>
    match d with
    | detail_msg (msg_Any anyValue) =>
      match anypb_UnmarshalTo_Struct anyValue with
      | Some structValue =>
        let structMap := structpb_AsMap structValue in
        match structMap !! "business_code" with
        | Some (any_float64 bizCode) =>
          let code := int32_of_float64 int32_overflow bizCode in
          let message :=
            match structMap !! "business_msg" with
            | Some (any_string bizMsg) => bizMsg
            | _ => message
            end in
          scan_details rest code message extraData
        | _ =>
          let! extraData :=
            match extraData with
            | None => let! l := new_map ∅ in ret (Some l)
            | Some l => ret (Some l)
            end in
          map_assign_all extraData (Sprintf_v <$> structMap) ;;
          scan_details rest code message extraData
        end
      | None => scan_details rest code message extraData
      end
    | _ => scan_details rest code message extraData
    end
  end.

Definition FromGRPCStatus (st : option Status) : M error :=
  let code := CodeInternalError in
  let message := status_Message st in
  let extraData : option loc := None in
  let details := status_Details st in
  let! r := scan_details details code message extraData in
  let '(code, message, extraData) := r in
  let code :=
    if decide (code = CodeInternalError) then code_of_grpc (status_Code st)
    else code in
  NewStatusError code message (data_string_map extraData).

(** Encoding an error and decoding the envelope again: the transport code
    of the envelope, then the code and message of the decoded error. *)
Definition round_trip (e : error) : M (codes.Code * Z * string) :=
  let! st := ToGRPCStatus e in
  let! e' := FromGRPCStatus st in
  let! c := Code e' in
  let! msg := Msg e' in
  ret (status_Code st, c, msg).

(** *** The wrapper file: [WithStack], [WrapWithStatus], [NewWithStatus] *)

Definition WithStack (stk : list Frame) (err : error) : M error :=
  match err with
  | nil_error => ret nil_error
  | _ =>
    let! ws := As err to_withStatus in
    match ws with
    | Some w => ret (Ptr_withStatus w)
    | None =>
      let stack := captureStack stk 2 in
      let! se := As err to_statusError in
      match se with
      | Some p =>
        let! w := new_withStatus {| status := Some p; stack := stack; cause := nil_error |} in
        ret (Ptr_withStatus w)
      | None =>
        let! c := Code err in
        let! msg := Msg err in
        let! a := IsAffectStability_of err in
        let! x := Extra_of err in
        let! p := new_statusError
          {| statusCode := c; message := msg;
             ext := {| ext_IsAffectStability := a; ext_Extra := x |} |} in
        let! w := new_withStatus {| status := Some p; stack := stack; cause := err |} in
        ret (Ptr_withStatus w)
      end
    end
  end.

Definition WrapWithStatus (stk : list Frame) (err : error) (code : Z) (message : string)
    (data : Data) : M error :=
  match err with
  | nil_error => ret nil_error
  | _ =>
    let! statusErr := NewStatusError code message data in
    let stack := captureStack stk 2 in
    let! ws := As statusErr to_withStatus in
    let! se :=
      match ws with
      | Some w => let! wv := load_withStatus (Some w) in ret (status wv)
      | None =>
        let! se := As statusErr to_statusError in
        match se with
        | Some p => ret (Some p)
        | None =>
          let! d := gets defs in
          let def := GetCodeDefinition d code in
          let! extra := new_map ∅ in
          let! extra :=
            match data with
            | data_nil => ret (Some extra)
            | data_any_map dataMap =>
              map_assign_all (Some extra) (Sprintf_v <$> dataMap) ;; ret (Some extra)
            | data_string_map dataMap => ret dataMap
            | data_other => ret (Some extra)
            end in
          let! msg := Msg statusErr in
          let! p := new_statusError
            {| statusCode := code; message := msg;
               ext := {| ext_IsAffectStability := IsAffectStability def;
                         ext_Extra := extra |} |} in
          ret (Some p)
        end
      end in
    let! w := new_withStatus {| status := se; stack := stack; cause := err |} in
    ret (Ptr_withStatus w)
  end.

Definition NewWithStatus (stk : list Frame) (code : Z) (message : string)
    (opts : list Option) : M error :=
  let! d := gets defs in
  let message := if decide (message = "") then GetMessage d code "" else message in
  let def := GetCodeDefinition d code in
  let! extra := new_map ∅ in
  let! se := new_statusError
    {| statusCode := code; message := message;
       ext := {| ext_IsAffectStability := IsAffectStability def; ext_Extra := Some extra |} |} in
  let! ws := new_withStatus
    {| status := Some se; stack := captureStack stk 2; cause := nil_error |} in
  apply_opts opts (Some ws) ;;
  ret (Ptr_withStatus ws).

Definition WrapWithStatusOptions (stk : list Frame) (err : error) (code : Z)
    (message : string) (opts : list Option) : M error :=
  match err with
  | nil_error => ret nil_error
  | _ =>
    let! d := gets defs in
    let message := if decide (message = "") then GetMessage d code "" else message in
    let def := GetCodeDefinition d code in
    let! extra := new_map ∅ in
    let! se := new_statusError
      {| statusCode := code; message := message;
         ext := {| ext_IsAffectStability := IsAffectStability def;
                   ext_Extra := Some extra |} |} in
    let! ws := new_withStatus
      {| status := Some se; stack := captureStack stk 2; cause := err |} in
    apply_opts opts (Some ws) ;;
    ret (Ptr_withStatus ws)
  end.

End errors.

(** ** Predicates used in the statements *)

(** A non-nil value of the interface type [StatusError]. *)
Definition is_StatusError (e : error) : Prop :=
  match e with
  | nil_error => False
  | Foreign _ None _ => False
  | _ => True
  end.

(** The first [*withStatus], and the first [*statusError], on a chain of
    foreign errors: what [errors.As] finds when the walk stays outside the
    store. *)
Fixpoint first_withStatus (e : error) : option loc :=
  match e with
  | Ptr_withStatus p => Some p
  | Foreign _ _ u => first_withStatus u
  | _ => None
  end.

Fixpoint first_statusError (e : error) : option loc :=
  match e with
  | Ptr_statusError p => Some p
  | Foreign _ _ u => first_statusError u
  | _ => None
  end.

(** An unwrap chain that holds neither a [*statusError] nor a [*withStatus]. *)
Fixpoint plain_chain (e : error) : bool :=
  match e with
  | nil_error => true
  | Foreign _ _ u => plain_chain u
  | _ => false
  end.

(** A map reference is nil or points at an allocated map. *)
Definition valid_map (σ : State) (r : option loc) : Prop :=
  match r with
  | Some l => is_Some (maps σ !! l)
  | None => True
  end.

Definition valid_data (σ : State) (d : Data) : Prop :=
  match d with
  | data_string_map r => valid_map σ r
  | _ => True
  end.

(** The message a constructor stores: the registry default for an empty one. *)
Definition resolved (defs : gmap Z CodeDefinition) (c : Z) (msg : string) : string :=
  if decide (msg = "") then GetMessage defs c "" else msg.

(** Concrete parameters and inputs for the worked examples. *)
Definition Sprintf_strings (v : any) : string :=
  match v with
  | any_string s => s
  | _ => ""
  end.

Definition overflow_min (f : float64) : Z := - 2 ^ 31.

Definition sample_stack : list Frame :=
  [ {| fr_Function := "runtime.Callers"; fr_File := "runtime/extern.go"; fr_Line := 331 |};
    {| fr_Function := "errors.captureStack"; fr_File := "errors/wrap.go"; fr_Line := 279 |};
    {| fr_Function := "errors.WithStack"; fr_File := "errors/wrap.go"; fr_Line := 130 |};
    {| fr_Function := "main.main"; fr_File := "main.go"; fr_Line := 12 |} ].

(** The two options of the package, as data, for statements about every
    list of them. *)
Inductive builtin :=
  | opt_Param (k v : string)
  | opt_Extra (k v : string).

Definition to_Option (b : builtin) : Option :=
  match b with
  | opt_Param k v => Param k v
  | opt_Extra k v => Extra k v
  end.

(** The store right after [NewWithStatus] has built its wrapper, before any option runs. *)
Definition built (stk : list Frame) (code : Z) (msg : string) (σ : State) : State :=
  {| defs := defs σ;
     maps := (maps σ ++ [∅])%list;
     statusErrors := (statusErrors σ ++
       [{| statusCode := code; message := resolved (defs σ) code msg;
           ext := {| ext_IsAffectStability := IsAffectStability (GetCodeDefinition (defs σ) code);
                     ext_Extra := Some (length (maps σ)) |} |}])%list;
     withStatuses := (withStatuses σ ++
       [{| status := Some (length (statusErrors σ)); stack := captureStack stk 2;
           cause := nil_error |}])%list |}.

(** What the options leave in place: the wrapper, its status pointer, the code. *)
Definition wrapper_ok (w sp : loc) (code : Z) (σ : State) : Prop :=
  exists wv s,
    withStatuses σ !! w = Some wv /\ status wv = Some sp /\
    statusErrors σ !! sp = Some s /\ statusCode s = code /\
    valid_map σ (ext_Extra (ext s)).

(** The metadata a wrapper stores, read without the copy that [Extra()] makes. *)
Definition stored_Extra (w : loc) : M (gmap string string) :=
  let! wv := load_withStatus (Some w) in
  let! s := load_statusError (status wv) in
  read_map (ext_Extra (ext s)).

(** A [StatusError] of another package, wrapping a plain error. *)
Definition sample_foreign : error :=
  Foreign "quota exceeded"
    (Some {| m_Code := 4290; m_IsAffectStability := false; m_Msg := "quota"; m_Extra := None |})
    (Foreign "io timeout" None nil_error).

(** Decoding an envelope that carries no metadata, wrapping the result with
    [WithStack], and reading the wrapper's stack and its [Extra()]. *)
Definition wrapped_decoded (Sprintf_v : any -> string) (ovf : float64 -> Z)
  : M (string * gmap string string) :=
  let! e := FromGRPCStatus Sprintf_v ovf (status_New codes.NotFound "gone") in
  let! w := WithStack sample_stack e in
  let! x := Extra_of w in
  let! kvs := read_map x in
  let! stk := match w with Ptr_withStatus p => withStatus_Stack p | _ => panic end in
  ret (stk, kvs).

(** An envelope with transport code not-found whose attachment names the
    business code internal-error. *)
Definition crafted_status : option Status :=
  status_WithDetails (status_New codes.NotFound "gone")
    (msg_Any (anypb_New (msg_Struct
       {[ "business_code" := any_float64 (float64_of_int32 CodeInternalError);
          "business_msg" := any_string "disk failure" ]}))).

(** ** The codec, seen from outside

    What [ToGRPCStatus] builds from a code, a message and the metadata it
    read, and what the decoding loop makes of a list of details, without the
    store. The lemmas below relate these to the functions above. *)

(** The Any that [attach] appends for a Struct: [WithDetails] packs the Any
    it is handed into another one. *)
Definition wrap (sv : Struct) : Any := anypb_New (msg_Any (anypb_New (msg_Struct sv))).

(** The details one [attach] contributes: none if [NewStruct] fails. *)
Definition attached (m : gmap string any) : list Any :=
  match structpb_NewStruct m with
  | Some sv => [wrap sv]
  | None => []
  end.

(** The map [errorInfo] of [ToGRPCStatus]. *)
Definition business_info (c : Z) (msg : string) : gmap string any :=
  {[ "business_code" := any_int32 c; "business_msg" := any_string msg ]}.

(** The envelope of an error with code [c], message [msg] and metadata [kvs]. *)
Definition encoded (c : Z) (msg : string) (kvs : gmap string string) : option Status :=
  Some {| st_Code := grpc_of_code c; st_Message := msg;
          st_Details := ((if (0 <? size kvs)%nat then attached (any_string <$> kvs) else [])
                         ++ attached (business_info c msg))%list |}.

(** The code and message the loop of [FromGRPCStatus] ends with. *)
Fixpoint scan_code_msg (overflow : float64 -> Z) (details : list detail) (code : Z)
    (msg : string) : Z * string :=
  match details with
  | [] => (code, msg)
  | d :: rest =>
    match d with
    | detail_msg (msg_Any a) =>
      match anypb_UnmarshalTo_Struct a with
      | Some sv =>
        let sm := structpb_AsMap sv in
        match sm !! "business_code" with
        | Some (any_float64 f) =>
          scan_code_msg overflow rest (int32_of_float64 overflow f)
            match sm !! "business_msg" with
            | Some (any_string m) => m
            | _ => msg
            end
        | _ => scan_code_msg overflow rest code msg
        end
      | None => scan_code_msg overflow rest code msg
      end
    | _ => scan_code_msg overflow rest code msg
    end
  end.

(** The code and message [FromGRPCStatus] hands to [NewStatusError]. *)
Definition decoded (overflow : float64 -> Z) (st : option Status) : Z * string :=
  let r := scan_code_msg overflow (status_Details st) CodeInternalError (status_Message st) in
  (if decide (r.1 = CodeInternalError) then code_of_grpc (status_Code st) else r.1, r.2).

(** The code decoded from the envelope of an error with code [c] and message [m]. *)
Definition decoded_code (ovf : float64 -> Z) (c : Z) (m : string) : Z :=
  if utf8_ValidString m
  then (if decide (int32_of_float64 ovf (float64_of_int32 c) = CodeInternalError)
        then code_of_grpc (grpc_of_code c)
        else int32_of_float64 ovf (float64_of_int32 c))
  else code_of_grpc (grpc_of_code c).

(** The five codes with a transport code of their own. *)
Definition mapped_codes : list Z :=
  [CodeInvalidParam; CodeUnauthorized; CodeForbidden; CodeNotFound; CodeAlreadyExists].

(** A Go string of one byte, 0xFF: not valid UTF-8. *)
Definition invalid_utf8 : string := String (Ascii.ascii_of_N 255) "".

(** ** More predicates and pure readings, for the further properties *)

(** Every message in the registry is non-empty. *)
Definition messages_nonempty (defs : gmap Z CodeDefinition) : Prop :=
  map_Forall (fun _ d => Message d <> "") defs.

(** The store a computation leaves (the given one if it panics). *)
Definition after {A} (m : M A) (σ : State) : State :=
  match m σ with
  | Some (_, σ') => σ'
  | None => σ
  end.


(** What one built-in option does to the message, and to the metadata. *)
Definition option_message (m : string) (b : builtin) : string :=
  match b with
  | opt_Param k v => strings_ReplaceAll m ("{" +:+ k +:+ "}") v
  | opt_Extra _ _ => m
  end.

Definition option_metadata (kvs : gmap string string) (b : builtin) : gmap string string :=
  match b with
  | opt_Param _ _ => kvs
  | opt_Extra k v => <[k := v]> kvs
  end.

(** The store right after [NewWithStatus] or [WrapWithStatusOptions] has
    built its wrapper around [err], before any option runs. *)
Definition built_around (err : error) (stk : list Frame) (code : Z) (msg : string)
    (σ : State) : State :=
  {| defs := defs σ;
     maps := (maps σ ++ [∅])%list;
     statusErrors := (statusErrors σ ++
       [{| statusCode := code; message := resolved (defs σ) code msg;
           ext := {| ext_IsAffectStability := IsAffectStability (GetCodeDefinition (defs σ) code);
                     ext_Extra := Some (length (maps σ)) |} |}])%list;
     withStatuses := (withStatuses σ ++
       [{| status := Some (length (statusErrors σ)); stack := captureStack stk 2;
           cause := err |}])%list |}.

(** A wrapper [w] with the given fields, around the status error [sp] with
    message [msg] and the metadata [kvs] stored at [l]. *)
Definition wrapper_is (w sp l : loc) (wv : withStatus) (code : Z) (a : bool) (msg : string)
    (kvs : gmap string string) (σ : State) : Prop :=
  withStatuses σ !! w = Some wv /\ status wv = Some sp /\
  statusErrors σ !! sp
  = Some {| statusCode := code; message := msg;
            ext := {| ext_IsAffectStability := a; ext_Extra := Some l |} |} /\
  maps σ !! l = Some kvs.

(** [string] occurs in [s]: some suffix of [s] starts with it. *)
Fixpoint occurs (old s : string) : bool :=
  String.prefix old s ||
  match s with
  | EmptyString => false
  | String _ s' => occurs old s'
  end.


(** ** [Error()] through the interface

    The text of an error: the message of a [*statusError], the text of a
    foreign error, and for a [*withStatus] the result of
    [fmt.Sprintf("%s: %v", w.status.message, w.cause)] when it has a cause
    ([%v] prints an error through its [Error()] method), its message
    otherwise. The recursion follows causes through the store, so it takes
    fuel; calling [Error()] on the nil interface panics. *)
Fixpoint error_text (fuel : nat) (σ : State) (err : error) : option string :=
  match fuel with
  | O => None
  | S n =>
    match err with
    | nil_error => None
    | Ptr_statusError p => message <$> statusErrors σ !! p
    | Ptr_withStatus p =>
      match withStatuses σ !! p with
      | Some w =>
        match status w with
        | Some sp =>
          match statusErrors σ !! sp with
          | Some s =>
            match cause w with
            | nil_error => Some (message s)
            | c =>
              match error_text n σ c with
              | Some t => Some (message s +:+ ": " +:+ t)
              | None => None
              end
            end
          | None => None
          end
        | None => None
        end
      | None => None
      end
    | Foreign text _ _ => Some text
    end
  end.

Definition Error_of (err : error) : M string :=
  fun σ => match error_text (As_fuel σ err) σ err with
           | Some t => Some (t, σ)
           | None => None
           end.


(** ** The decoder's metadata, seen from outside *)

(** The metadata the loop of [FromGRPCStatus] ends with: [None] while
    [extraData] is still nil; every Struct without a numeric
    [business_code] is stringified and assigned over what is there. *)
Fixpoint scan_meta (fmt : any -> string) (details : list detail)
    (acc : option (gmap string string)) : option (gmap string string) :=
  match details with
  | [] => acc
  | d :: rest =>
    match d with
    | detail_msg (msg_Any a) =>
      match anypb_UnmarshalTo_Struct a with
      | Some sv =>
        let sm := structpb_AsMap sv in
        match sm !! "business_code" with
        | Some (any_float64 _) => scan_meta fmt rest acc
        | _ => scan_meta fmt rest (Some ((fmt <$> sm) ∪ default ∅ acc))
        end
      | None => scan_meta fmt rest acc
      end
    | _ => scan_meta fmt rest acc
    end
  end.

(** The map reference [x] is nil and [acc] is [None], or [x] points at the
    contents [acc]. *)
Definition meta_at (σ : State) (x : option loc) (acc : option (gmap string string)) : Prop :=
  match x, acc with
  | None, None => True
  | Some l, Some m => maps σ !! l = Some m
  | _, _ => False
  end.

(** A detail from which the decoder reads a business code. *)
Definition carries_code (d : detail) : bool :=
  match d with
  | detail_msg (msg_Any a) =>
    match anypb_UnmarshalTo_Struct a with
    | Some sv =>
      match structpb_AsMap sv !! "business_code" with
      | Some (any_float64 _) => true
      | _ => false
      end
    | None => false
    end
  | _ => false
  end.

(** An attachment the decoder looks into: an Any that packs an Any that
    packs a Struct. *)
Definition usable (a : Any) : bool :=
  match a with
  | Any_of (msg_Any (Any_of (msg_Struct _))) => true
  | _ => false
  end.

(** Every key and value of a metadata map is valid UTF-8. *)
Definition all_utf8 (kvs : gmap string string) : Prop :=
  map_Forall (fun k v => utf8_ValidString k = true /\ utf8_ValidString v = true) kvs.


(** ** helper.go

    The error that the method [Err()] of a [*status.Status] returns is nil for
    the code OK
    (so also for a nil status) and holds the status otherwise; [None] is the
    nil error. The logger taken from the context is an outside collaborator:
    these functions return the calls they make on it, in order, next to
    their result. *)

Definition status_Err (st : option Status) : option Status :=
  match status_Code st with
  | codes.OK => None
  | _ => st
  end.

Definition ToGRPCError (err : error) : M (option Status) :=
  match err with
  | nil_error => ret None
  | _ => let! st := ToGRPCStatus err in ret (status_Err st)
  end.

Inductive Level := ErrorLevel | WarnLevel.

Inductive Field :=
  | zap_Int32 (key : string) (v : Z)
  | zap_String (key v : string)
  | zap_Bool (key : string) (v : bool)
  | zap_Any (key : string) (v : gmap string string).

Record LogCall := {
  log_level : Level;
  log_msg : string;
  log_fields : list Field
}.

Definition LogAndReturnError (err : error) : M (list LogCall * option Status) :=
  match err with
  | nil_error => ret ([], None)
  | _ =>
    let! c := Code err in
    let! msg := Msg err in
    let! a := IsAffectStability_of err in
    let fields := [zap_Int32 "error_code" c; zap_String "error_msg" msg;
                   zap_Bool "affect_stability" a] in
    let! extra := Extra_of err in
    let! kvs := read_map extra in
    let fields :=
      if (0 <? size kvs)%nat then (fields ++ [zap_Any "extra" kvs])%list else fields in
    let! a := IsAffectStability_of err in
    let call :=
      if a
      then {| log_level := ErrorLevel; log_msg := "业务错误（影响稳定性）";
              log_fields := fields |}
      else {| log_level := WarnLevel; log_msg := "业务错误"; log_fields := fields |} in
    let! r := ToGRPCError err in
    ret ([call], r)
  end.

Definition WrapAndLogError (stk : list Frame) (err : error) (code : Z) (message : string)
    (opts : list Option) : M (list LogCall * option Status) :=
  match err with
  | nil_error => ret ([], None)
  | _ =>
    let! statusErr := WrapWithStatusOptions stk err code message opts in
    LogAndReturnError statusErr
  end.

Definition NewAndLogError (stk : list Frame) (code : Z) (message : string)
    (opts : list Option) : M (list LogCall * option Status) :=
  let! statusErr := NewWithStatus stk code message opts in
  LogAndReturnError statusErr.

(** The metadata [Extra()] returns for a wrapper that stores [kvs]. *)
Definition with_stack (stk : string) (kvs : gmap string string) : gmap string string :=
  if decide (stk = "") then kvs else <["stack" := stk]> kvs.


(** * Properties *)

(** ** Worked examples *)

Example utf8_ok : utf8_ValidString "资源未找到" = true.
Proof. reflexivity. Qed.

Example utf8_bad : utf8_ValidString (String (Ascii.ascii_of_N 255) "") = false.
Proof. reflexivity. Qed.

Example replace_ex :
  strings_ReplaceAll "user {name} not found" "{name}" "zampo" = "user zampo not found".
Proof. reflexivity. Qed.

Example replace_twice :
  strings_ReplaceAll "{id}-{id}" "{id}" "7" = "7-7".
Proof. reflexivity. Qed.

Example replace_leftmost : strings_ReplaceAll "aaa" "aa" "b" = "ba".
Proof. reflexivity. Qed.

Example NewStruct_ex :
  (fun m : Struct => m !! "business_code") <$>
    structpb_NewStruct {[ "business_code" := any_int32 1004; "business_msg" := any_string "x" ]}
  = Some (Some (any_float64 (F64 1004 0))).
Proof. vm_compute. reflexivity. Qed.

Example GetMessage_default : GetMessage CodeDefinitions CodeNotFound "" = "资源未找到".
Proof. reflexivity. Qed.

Example GetMessage_custom : GetMessage CodeDefinitions CodeNotFound "自定义消息" = "自定义消息".
Proof. reflexivity. Qed.

(** Byte sequences that [utf8.ValidString] rejects: a lone continuation byte,
    an overlong form, a surrogate, a code point above U+10FFFF, a truncated
    sequence. *)
Example utf8_rejects :
  (utf8_ValidString ∘ String.string_of_list_ascii ∘ map Ascii.ascii_of_N) <$>
    [ [128%N]; [192%N; 128%N]; [224%N; 128%N; 128%N]; [237%N; 160%N; 128%N];
      [244%N; 144%N; 128%N; 128%N]; [245%N; 128%N; 128%N; 128%N]; [226%N; 130%N] ]
  = [false; false; false; false; false; false; false].
Proof. reflexivity. Qed.

Example utf8_accepts :
  (utf8_ValidString ∘ String.string_of_list_ascii ∘ map Ascii.ascii_of_N) <$>
    [ []; [65%N]; [194%N; 128%N]; [224%N; 160%N; 128%N]; [237%N; 159%N; 191%N];
      [239%N; 191%N; 189%N]; [240%N; 144%N; 128%N; 128%N]; [244%N; 143%N; 191%N; 191%N] ]
  = [true; true; true; true; true; true; true; true].
Proof. reflexivity. Qed.

Example captureStack_sample :
  captureStack sample_stack 2 = "main.main" +:+ newline +:+ tab +:+ "main.go:12".
Proof. reflexivity. Qed.

Example captureStack_no_caller : captureStack (take 3 sample_stack) 2 = "".
Proof. reflexivity. Qed.

(** The cases of [TestToGRPCStatus], [TestFromGRPCStatus] and
    [TestFromGRPCStatusWithDetails]. *)
Example test_ToGRPCStatus :
  (fun c => fst <$> (let! e := NewStatusError Sprintf_strings c "msg" data_nil in
                     let! st := ToGRPCStatus e in ret (status_Code st)) initial) <$>
    [CodeInvalidParam; CodeUnauthorized; CodeForbidden; CodeNotFound; CodeAlreadyExists;
     CodeInternalError]
  = Some <$> [codes.InvalidArgument; codes.Unauthenticated; codes.PermissionDenied;
              codes.NotFound; codes.AlreadyExists; codes.Internal].
Proof. vm_compute. reflexivity. Qed.

Example test_ToGRPCStatusWithNil :
  fst <$> ToGRPCStatus nil_error initial = Some (status_New codes.Internal "unknown error").
Proof. reflexivity. Qed.

Example test_FromGRPCStatus :
  fst <$> (let! e := FromGRPCStatus Sprintf_strings overflow_min
                       (status_New codes.NotFound "资源未找到") in
           let! c := Code e in let! m := Msg e in ret (c, m)) initial
  = Some (CodeNotFound, "资源未找到").
Proof. vm_compute. reflexivity. Qed.

Example test_FromGRPCStatusWithDetails :
  fst <$> (let! e := FromGRPCStatus Sprintf_strings overflow_min
                       (status_WithDetails (status_New codes.InvalidArgument "参数错误")
                          (msg_Any (anypb_New (msg_Struct ∅)))) in
           Code e) initial
  = Some CodeInvalidParam.
Proof. vm_compute. reflexivity. Qed.

(** [TestNewWithStatusWithOptions] and [TestWithStatusExtra]. *)
Example test_NewWithStatusWithOptions :
  fst <$> (let! e := NewWithStatus sample_stack CodeNotFound "user {name} not found"
                       [Param "name" "zampo"; Extra "key" "value"] in
           let! m := Msg e in
           let! x := Extra_of e in
           let! kvs := read_map x in
           ret (m, kvs !! "key", kvs !! "stack")) initial
  = Some ("user zampo not found", Some "value", Some (captureStack sample_stack 2)).
Proof. vm_compute. reflexivity. Qed.

(** [TestStatusErrorIsAffectStability]. *)
Example test_IsAffectStability :
  (fun c => fst <$> (let! e := NewStatusError Sprintf_strings c "" data_nil in
                     IsAffectStability_of e) initial) <$>
    [CodeSuccess; CodeInternalError; CodeInvalidParam; CodeUserNotFound]
  = Some <$> [false; true; false; false].
Proof. vm_compute. reflexivity. Qed.

(** ** The registry *)

(** C4, as the code has it: a code that is not a key of the registry resolves
    to the sentinel definition, whose message is the literal ["未知错误"] and
    whose stability flag is set. *)
Theorem GetCodeDefinition_unregistered (defs : gmap Z CodeDefinition) (c : Z) :
  defs !! c = None ->
  GetCodeDefinition defs c = {| Message := "未知错误"; IsAffectStability := true |}.
Proof. intros H. unfold GetCodeDefinition. rewrite H. reflexivity. Qed.

Lemma GetCodeDefinition_unregistered_witness :
  CodeDefinitions !! 99999 = None /\
  GetCodeDefinition CodeDefinitions 99999
  = {| Message := "未知错误"; IsAffectStability := true |}.
Proof.
  split; [reflexivity | apply (GetCodeDefinition_unregistered CodeDefinitions 99999); reflexivity].
Defined.

(** C4, as the spec words it, fails: for the unregistered code 99999 the
    message returned is not the English text ["unknown error"]. *)
Lemma GetCodeDefinition_sentinel_not_english :
  CodeDefinitions !! 99999 = None /\
  GetCodeDefinition CodeDefinitions 99999
  <> {| Message := "unknown error"; IsAffectStability := true |}.
Proof. split; [reflexivity | discriminate]. Qed.

(** ** Running computations *)

Ltac run_M :=
  repeat progress
    (unfold bind, ret, gets, modify, or_panic, panic, new_map, new_statusError,
       new_withStatus, load_statusError, load_withStatus, store_statusError, read_map,
       map_assign, map_assign_all; simpl).

Lemma bind_run {A B} (m : M A) (k : A -> M B) σ a σ' :
  m σ = Some (a, σ') -> bind m k σ = k a σ'.
Proof. intros H. unfold bind. rewrite H. reflexivity. Qed.

Lemma As_fuel_pos σ e : exists n, As_fuel σ e = S n.
Proof. unfold As_fuel. destruct e; simpl; eauto. Qed.

Lemma As_withStatus_self σ w :
  As (Ptr_withStatus w) to_withStatus σ = Some (Some w, σ).
Proof. unfold As. destruct (As_fuel_pos σ (Ptr_withStatus w)) as [n ->]. reflexivity. Qed.

(** The fuel of [As] is enough: the calls in [WithStack] and
    [WrapWithStatus] find exactly the first matching error of the chain. *)
Lemma As_fuel_enough σ e : (error_size e <= As_fuel σ e)%nat.
Proof. unfold As_fuel. lia. Qed.

Lemma errors_As_withStatus_enough fuel σ e :
  (error_size e <= fuel)%nat -> errors_As fuel σ e to_withStatus = first_withStatus e.
Proof.
  revert e. induction fuel as [|n IH]; intros e He.
  - destruct e; simpl in He; lia.
  - destruct e as [|p|p|t m u]; simpl; try reflexivity.
    apply IH. simpl in He. lia.
Qed.

Lemma errors_As_statusError_enough fuel σ e :
  (error_size e <= fuel)%nat -> first_withStatus e = None ->
  errors_As fuel σ e to_statusError = first_statusError e.
Proof.
  revert e. induction fuel as [|n IH]; intros e He Hw.
  - destruct e; simpl in He; lia.
  - destruct e as [|p|p|t m u]; simpl in *; try reflexivity; try discriminate.
    apply IH; [lia | exact Hw].
Qed.

Lemma As_withStatus_run σ e : As e to_withStatus σ = Some (first_withStatus e, σ).
Proof. unfold As. rewrite errors_As_withStatus_enough by apply As_fuel_enough. reflexivity. Qed.

Lemma As_statusError_run σ e :
  first_withStatus e = None -> As e to_statusError σ = Some (first_statusError e, σ).
Proof.
  intros H. unfold As.
  rewrite errors_As_statusError_enough by (apply As_fuel_enough || exact H). reflexivity.
Qed.

Lemma WithStack_wrapper stk w σ :
  WithStack stk (Ptr_withStatus w) σ = Some (Ptr_withStatus w, σ).
Proof. unfold WithStack. rewrite (bind_run _ _ _ _ _ (As_withStatus_self σ w)). reflexivity. Qed.

Lemma WithStack_returns_wrapper stk e σ :
  is_StatusError e -> exists w σ1, WithStack stk e σ = Some (Ptr_withStatus w, σ1).
Proof.
  intros He. destruct e as [|p|p|t [m|] u]; try contradiction.
  - unfold WithStack, As, bind.
    destruct (As_fuel_pos σ (Ptr_statusError p)) as [n ->]. simpl. eauto.
  - rewrite WithStack_wrapper. eauto.
  - unfold WithStack, As, bind.
    destruct (errors_As _ _ _ to_withStatus); [eauto|].
    destruct (errors_As _ _ _ to_statusError); simpl; eauto.
Qed.

Lemma errors_As_plain fuel σ e t : plain_chain e = true -> errors_As fuel σ e t = None.
Proof.
  revert e. induction fuel as [|n IH]; intros e He; [reflexivity|].
  destruct e as [|p|p|tx m u]; simpl in *; try discriminate.
  - reflexivity.
  - destruct t; apply IH; exact He.
Qed.

Lemma snoc_lookup {A} (l : list A) (x : A) : ((l ++ [x])%list !! length l) = Some x.
Proof. apply list_lookup_middle. reflexivity. Qed.

Lemma NewStatusError_run fmt c msg d σ :
  exists x σ1,
    NewStatusError fmt c msg d σ = Some (Ptr_statusError (length (statusErrors σ)), σ1) /\
    statusErrors σ1 = (statusErrors σ ++
      [{| statusCode := c;
          message := resolved (defs σ) c msg;
          ext := {| ext_IsAffectStability := IsAffectStability (GetCodeDefinition (defs σ) c);
                    ext_Extra := x |} |}])%list /\
    defs σ1 = defs σ /\
    withStatuses σ1 = withStatuses σ /\
    (valid_data σ d -> valid_map σ1 x) /\
    match d with
    | data_string_map r => x = r /\ maps σ1 = (maps σ ++ [∅])%list
    | data_any_map m => x = Some (length (maps σ))
    | _ => x = Some (length (maps σ)) /\ maps σ1 = (maps σ ++ [∅])%list
    end.
Proof.
  destruct σ as [df ms ss ws]. unfold NewStatusError, resolved.
  destruct d as [|m|r|]; run_M.
  - eexists (Some (length ms)), _; split; [reflexivity|]; simpl.
    rewrite snoc_lookup. auto 10.
  - rewrite snoc_lookup. simpl.
    eexists (Some (length ms)), _; split; [reflexivity|]; simpl.
    rewrite list_lookup_insert_eq by (rewrite length_app; simpl; lia). auto 10.
  - eexists r, _; split; [reflexivity|]; simpl.
    repeat split; auto.
    destruct r as [l|]; simpl; [|auto]. intros [v Hv].
    exists v. apply lookup_app_l_Some. exact Hv.
  - eexists (Some (length ms)), _; split; [reflexivity|]; simpl.
    rewrite snoc_lookup. auto 10.
Qed.

Lemma Code_statusError σ p s :
  statusErrors σ !! p = Some s -> Code (Ptr_statusError p) σ = Some (statusCode s, σ).
Proof. intros H. simpl. unfold statusError_Code. run_M. rewrite H. reflexivity. Qed.

Lemma Msg_statusError σ p s :
  statusErrors σ !! p = Some s -> Msg (Ptr_statusError p) σ = Some (message s, σ).
Proof. intros H. simpl. unfold statusError_Msg. run_M. rewrite H. reflexivity. Qed.

Lemma Extra_statusError_nil σ p s :
  statusErrors σ !! p = Some s -> ext_Extra (ext s) = None ->
  Extra_of (Ptr_statusError p) σ
  = Some (Some (length (maps σ)), set_maps (fun t => (t ++ [∅])%list) σ).
Proof. intros H Hx. simpl. unfold statusError_Extra. run_M. rewrite H. simpl. rewrite Hx. reflexivity. Qed.

Lemma Extra_statusError_some σ p s l :
  statusErrors σ !! p = Some s -> ext_Extra (ext s) = Some l ->
  Extra_of (Ptr_statusError p) σ = Some (Some l, σ).
Proof. intros H Hx. simpl. unfold statusError_Extra. run_M. rewrite H. simpl. rewrite Hx. reflexivity. Qed.

(** ** Wrapping *)

(** C7: wrapping nothing gives nothing. [WithStack(nil)] and
    [WrapWithStatus(nil, code, message, data)] return nil for every code,
    message and data, without a panic and without touching the store. *)
Theorem nil_in_nil_out (Sprintf_v : any -> string) (stk : list Frame) (code : Z)
    (message : string) (data : Data) (σ : State) :
  WithStack stk nil_error σ = Some (nil_error, σ) /\
  WrapWithStatus Sprintf_v stk nil_error code message data σ = Some (nil_error, σ).
Proof. split; reflexivity. Qed.

(** C6: [WithStack] is idempotent. For every non-nil [StatusError] the first
    call returns a wrapper, and wrapping that wrapper again returns the same
    pointer and allocates nothing. *)
Theorem WithStack_idempotent (stk1 stk2 : list Frame) (e : error) (σ : State) :
  is_StatusError e ->
  exists w σ1,
    WithStack stk1 e σ = Some (Ptr_withStatus w, σ1) /\
    WithStack stk2 (Ptr_withStatus w) σ1 = Some (Ptr_withStatus w, σ1).
Proof.
  intros He. destruct (WithStack_returns_wrapper stk1 e σ He) as (w & σ1 & H).
  exists w, σ1. split; [exact H | apply WithStack_wrapper].
Qed.

Lemma WithStack_idempotent_witness :
  is_StatusError (Ptr_statusError 0) /\
  exists w σ1,
    WithStack sample_stack (Ptr_statusError 0) initial = Some (Ptr_withStatus w, σ1) /\
    WithStack [] (Ptr_withStatus w) σ1 = Some (Ptr_withStatus w, σ1).
Proof.
  split; [exact I|].
  apply (WithStack_idempotent sample_stack [] (Ptr_statusError 0) initial). exact I.
Defined.

(** C10: given a [StatusError] of a foreign type whose unwrap chain holds
    none of the package's own errors, [WithStack] allocates a status error
    with the code, message, stability flag and metadata map the foreign
    methods return, and a wrapper around it whose cause is the foreign error
    itself, so that [Cause()] and [Unwrap()] return it. *)
Theorem WithStack_foreign (stk : list Frame) (text : string) (m : StatusMethods)
    (u : error) (σ : State) :
  plain_chain u = true ->
  let e := Foreign text (Some m) u in
  exists w p σ1,
    WithStack stk e σ = Some (Ptr_withStatus w, σ1) /\
    withStatuses σ1 !! w
      = Some {| status := Some p; stack := captureStack stk 2; cause := e |} /\
    statusErrors σ1 !! p
      = Some {| statusCode := m_Code m; message := m_Msg m;
                ext := {| ext_IsAffectStability := m_IsAffectStability m;
                          ext_Extra := m_Extra m |} |} /\
    Code (Ptr_withStatus w) σ1 = Some (m_Code m, σ1) /\
    Msg (Ptr_withStatus w) σ1 = Some (m_Msg m, σ1) /\
    IsAffectStability_of (Ptr_withStatus w) σ1 = Some (m_IsAffectStability m, σ1) /\
    withStatus_Cause w σ1 = Some (e, σ1) /\
    withStatus_Unwrap w σ1 = Some (e, σ1).
Proof.
  intros Hu e.
  assert (He : plain_chain e = true) by exact Hu.
  subst e. unfold WithStack, As, bind.
  rewrite !errors_As_plain by exact He.
  destruct σ as [d ms ss ws]. simpl.
  eexists _, _, _. split; [reflexivity|].
  unfold withStatus_Cause, withStatus_Unwrap, withStatus_Code, withStatus_Msg,
    withStatus_IsAffectStability, load_withStatus, load_statusError, bind, gets, or_panic, ret.
  simpl. rewrite !snoc_lookup. simpl. rewrite !snoc_lookup. auto 10.
Qed.


Lemma WithStack_foreign_witness :
  plain_chain (Foreign "io timeout" None nil_error) = true /\
  exists w p σ1,
    WithStack sample_stack sample_foreign initial = Some (Ptr_withStatus w, σ1) /\
    withStatuses σ1 !! w
      = Some {| status := Some p; stack := captureStack sample_stack 2;
                cause := sample_foreign |} /\
    statusErrors σ1 !! p
      = Some {| statusCode := 4290; message := "quota";
                ext := {| ext_IsAffectStability := false; ext_Extra := None |} |} /\
    Code (Ptr_withStatus w) σ1 = Some (4290, σ1) /\
    Msg (Ptr_withStatus w) σ1 = Some ("quota", σ1) /\
    IsAffectStability_of (Ptr_withStatus w) σ1 = Some (false, σ1) /\
    withStatus_Cause w σ1 = Some (sample_foreign, σ1) /\
    withStatus_Unwrap w σ1 = Some (sample_foreign, σ1).
Proof.
  split; [reflexivity|].
  apply (WithStack_foreign sample_stack "quota exceeded"
           {| m_Code := 4290; m_IsAffectStability := false; m_Msg := "quota"; m_Extra := None |}
           (Foreign "io timeout" None nil_error) initial).
  reflexivity.
Defined.

(** ** Status errors *)

(** What [resolved] stands for, in terms of the registry map itself: a
    non-empty message is kept, an empty one is replaced by the message
    registered for the code, or by the sentinel's when none is. *)
Lemma resolved_lookup (d : gmap Z CodeDefinition) (c : Z) (msg : string) :
  resolved d c msg
  = if decide (msg = "") then
      match d !! c with
      | Some def => Message def
      | None => "未知错误"
      end
    else msg.
Proof.
  unfold resolved, GetMessage, GetCodeDefinition.
  destruct (decide (msg = "")); [|reflexivity]. simpl.
  destruct (d !! c); reflexivity.
Qed.

(** C9: [NewStatusError(NotFound, "", nil).Msg()] is the message the registry
    map holds for not-found (the sentinel's only if the entry has been
    removed), which is "资源未找到" with the registry of [codes.go], and its
    [Extra()] is a non-nil empty map. For every code, message and data: an
    empty message is replaced by the registered default of the code and a
    non-empty one is kept; [Extra()] of the status error is non-nil; it is
    empty when no data was passed; and when the stored map is nil (a nil
    [map[string]string] was passed), [Extra()] still returns a non-nil,
    empty map. *)
Theorem NewStatusError_message_and_Extra (Sprintf_v : any -> string) (c : Z) (msg : string)
    (d : Data) (σ : State) :
  (exists e σ1 l σ2,
     NewStatusError Sprintf_v CodeNotFound "" data_nil σ = Some (e, σ1) /\
     Msg e σ1 = Some (match defs σ !! CodeNotFound with
                      | Some def => Message def
                      | None => "未知错误"
                      end, σ1) /\
     Extra_of e σ1 = Some (Some l, σ2) /\
     maps σ2 !! l = Some ∅) /\
  (exists e σ1,
     NewStatusError Sprintf_v CodeNotFound "" data_nil
       {| defs := CodeDefinitions; maps := maps σ;
          statusErrors := statusErrors σ; withStatuses := withStatuses σ |} = Some (e, σ1) /\
     Msg e σ1 = Some ("资源未找到", σ1)) /\
  (exists e σ1,
     NewStatusError Sprintf_v c msg d σ = Some (e, σ1) /\
     Msg e σ1 = Some (if decide (msg = "") then
                        match defs σ !! c with
                        | Some def => Message def
                        | None => "未知错误"
                        end
                      else msg, σ1)) /\
  (exists e σ1 l σ2,
     NewStatusError Sprintf_v c msg d σ = Some (e, σ1) /\
     Extra_of e σ1 = Some (Some l, σ2)) /\
  (exists e σ1 l σ2,
     NewStatusError Sprintf_v c msg data_nil σ = Some (e, σ1) /\
     Extra_of e σ1 = Some (Some l, σ2) /\
     maps σ2 !! l = Some ∅) /\
  (exists p s σ1 l σ2,
     NewStatusError Sprintf_v c msg (data_string_map None) σ = Some (Ptr_statusError p, σ1) /\
     statusErrors σ1 !! p = Some s /\
     ext_Extra (ext s) = None /\
     Extra_of (Ptr_statusError p) σ1 = Some (Some l, σ2) /\
     maps σ2 !! l = Some ∅).
Proof.
  assert (Hmsg : forall c0 m0 d0 σ0, exists e σ1,
    NewStatusError Sprintf_v c0 m0 d0 σ0 = Some (e, σ1) /\
    Msg e σ1 = Some (if decide (m0 = "") then
                       match defs σ0 !! c0 with
                       | Some def => Message def
                       | None => "未知错误"
                       end
                     else m0, σ1)).
  { intros c0 m0 d0 σ0.
    destruct (NewStatusError_run Sprintf_v c0 m0 d0 σ0) as (x & σ1 & Hrun & Hs & _).
    pose proof (snoc_lookup (statusErrors σ0) {| statusCode := c0;
       message := resolved (defs σ0) c0 m0;
       ext := {| ext_IsAffectStability := IsAffectStability (GetCodeDefinition (defs σ0) c0);
                 ext_Extra := x |} |}) as Hp.
    rewrite <- Hs in Hp.
    eexists _, σ1. split; [exact Hrun|].
    rewrite (Msg_statusError _ _ _ Hp). simpl. rewrite resolved_lookup. reflexivity. }
  assert (Hnil : forall c0 m0 σ0, exists e σ1 l σ2,
    NewStatusError Sprintf_v c0 m0 data_nil σ0 = Some (e, σ1) /\
    Msg e σ1 = Some (resolved (defs σ0) c0 m0, σ1) /\
    Extra_of e σ1 = Some (Some l, σ2) /\
    maps σ2 !! l = Some ∅).
  { intros c0 m0 σ0.
    destruct (NewStatusError_run Sprintf_v c0 m0 data_nil σ0)
      as (x & σ1 & Hrun & Hs & Hd & Hw & Hv & -> & Hm).
    pose proof (snoc_lookup (statusErrors σ0) {| statusCode := c0;
       message := resolved (defs σ0) c0 m0;
       ext := {| ext_IsAffectStability := IsAffectStability (GetCodeDefinition (defs σ0) c0);
                 ext_Extra := Some (length (maps σ0)) |} |}) as Hp.
    rewrite <- Hs in Hp.
    eexists _, σ1, _, σ1. split; [exact Hrun|]. split; [|split].
    - rewrite (Msg_statusError _ _ _ Hp). reflexivity.
    - apply (Extra_statusError_some _ _ _ _ Hp). reflexivity.
    - rewrite Hm. apply snoc_lookup. }
  split; [|split; [|split; [|split; [|split]]]].
  - destruct (Hnil CodeNotFound "" σ) as (e & σ1 & l & σ2 & Hrun & Hm & Hx & Hl).
    exists e, σ1, l, σ2. rewrite resolved_lookup in Hm. auto.
  - destruct (Hmsg CodeNotFound "" data_nil
                {| defs := CodeDefinitions; maps := maps σ;
                   statusErrors := statusErrors σ; withStatuses := withStatuses σ |})
      as (e & σ1 & Hrun & Hm).
    exists e, σ1. split; [exact Hrun|]. exact Hm.
  - apply Hmsg.
  - destruct (NewStatusError_run Sprintf_v c msg d σ)
      as (x & σ1 & Hrun & Hs & Hd & Hw & Hv & Hx).
    pose proof (snoc_lookup (statusErrors σ) {| statusCode := c;
       message := resolved (defs σ) c msg;
       ext := {| ext_IsAffectStability := IsAffectStability (GetCodeDefinition (defs σ) c);
                 ext_Extra := x |} |}) as Hp.
    rewrite <- Hs in Hp.
    destruct x as [l|].
    + eexists _, σ1, l, σ1. split; [exact Hrun|].
      apply (Extra_statusError_some _ _ _ _ Hp). reflexivity.
    + eexists _, σ1, _, _. split; [exact Hrun|].
      apply (Extra_statusError_nil _ _ _ Hp). reflexivity.
  - destruct (Hnil c msg σ) as (e & σ1 & l & σ2 & Hrun & _ & Hx & Hl).
    exists e, σ1, l, σ2. auto.
  - destruct (NewStatusError_run Sprintf_v c msg (data_string_map None) σ)
      as (x & σ1 & Hrun & Hs & Hd & Hw & Hv & -> & Hm).
    pose proof (snoc_lookup (statusErrors σ) {| statusCode := c;
       message := resolved (defs σ) c msg;
       ext := {| ext_IsAffectStability := IsAffectStability (GetCodeDefinition (defs σ) c);
                 ext_Extra := None |} |}) as Hp.
    rewrite <- Hs in Hp.
    eexists _, _, σ1, _, _. split; [exact Hrun|]. split; [exact Hp|]. split; [reflexivity|].
    split; [apply (Extra_statusError_nil _ _ _ Hp); reflexivity|].
    simpl. apply snoc_lookup.
Qed.

(** ** Options *)

Lemma NewWithStatus_run stk code msg opts σ :
  NewWithStatus stk code msg opts σ
  = bind (apply_opts opts (Some (length (withStatuses σ))))
      (fun _ => ret (Ptr_withStatus (length (withStatuses σ)))) (built stk code msg σ).
Proof. destruct σ as [df ms ss ws]. reflexivity. Qed.

Lemma Param_run k v w wv sp s σ :
  withStatuses σ !! w = Some wv -> status wv = Some sp -> statusErrors σ !! sp = Some s ->
  Param k v (Some w) σ
  = Some (tt, set_statusErrors
                (fun t => <[sp := set_message
                   (strings_ReplaceAll (message s) ("{" +:+ k +:+ "}") v) s]> t) σ).
Proof.
  intros Hw Hs Hp. unfold Param. run_M. rewrite Hw. simpl. rewrite Hs, Hp. reflexivity.
Qed.

Lemma Extra_run k v w wv sp s l m σ :
  withStatuses σ !! w = Some wv -> status wv = Some sp -> statusErrors σ !! sp = Some s ->
  ext_Extra (ext s) = Some l -> maps σ !! l = Some m ->
  Extra k v (Some w) σ = Some (tt, set_maps (fun t => <[l := <[k := v]> m]> t) σ).
Proof.
  intros Hw Hs Hp Hl Hm. unfold Extra. run_M. rewrite Hw. simpl. rewrite Hs, Hp. simpl.
  rewrite Hl. simpl. rewrite Hm. reflexivity.
Qed.

Lemma Extra_run_nil k v w wv sp s σ :
  withStatuses σ !! w = Some wv -> status wv = Some sp -> statusErrors σ !! sp = Some s ->
  ext_Extra (ext s) = None ->
  Extra k v (Some w) σ
  = Some (tt, set_maps (fun t => <[length (maps σ) := {[ k := v ]}]> (t ++ [∅])%list)
                (set_statusErrors (fun t => <[sp := set_Extra (Some (length (maps σ))) s]> t) σ)).
Proof.
  intros Hw Hs Hp Hl. unfold Extra. run_M. rewrite Hw. simpl. rewrite Hs, Hp. simpl.
  rewrite Hl. simpl. rewrite snoc_lookup. simpl. destruct σ; reflexivity.
Qed.

Lemma builtin_preserves b w sp code σ :
  wrapper_ok w sp code σ ->
  exists σ', to_Option b (Some w) σ = Some (tt, σ') /\ wrapper_ok w sp code σ'.
Proof.
  intros (wv & s & Hw & Hs & Hp & Hc & Hv).
  assert (Hlt : (sp < length (statusErrors σ))%nat) by (eapply lookup_lt_Some; eauto).
  destruct b as [k v|k v]; cbn [to_Option].
  - rewrite (Param_run _ _ _ _ _ _ _ Hw Hs Hp). eexists; split; [reflexivity|].
    exists wv, (set_message (strings_ReplaceAll (message s) ("{" +:+ k +:+ "}") v) s).
    simpl. rewrite list_lookup_insert_eq by exact Hlt. auto.
  - destruct (ext_Extra (ext s)) as [l|] eqn:Hl.
    + destruct Hv as [m Hm].
      rewrite (Extra_run _ _ _ _ _ _ _ _ _ Hw Hs Hp Hl Hm). eexists; split; [reflexivity|].
      exists wv, s. simpl. rewrite Hl. simpl.
      rewrite list_lookup_insert_eq by (eapply lookup_lt_Some; eauto). eauto 10.
    + rewrite (Extra_run_nil _ _ _ _ _ _ _ Hw Hs Hp Hl). eexists; split; [reflexivity|].
      exists wv, (set_Extra (Some (length (maps σ))) s). simpl.
      rewrite list_lookup_insert_eq by exact Hlt.
      rewrite list_lookup_insert_eq by (rewrite length_app; simpl; lia). eauto 10.
Qed.

Lemma apply_opts_preserves bs w sp code σ :
  wrapper_ok w sp code σ ->
  exists σ', apply_opts (to_Option <$> bs) (Some w) σ = Some (tt, σ') /\ wrapper_ok w sp code σ'.
Proof.
  revert σ. induction bs as [|b bs IH]; intros σ Hok; simpl.
  - eexists; split; [reflexivity | exact Hok].
  - destruct (builtin_preserves b w sp code σ Hok) as (σ1 & Hrun & Hok1).
    destruct (IH σ1 Hok1) as (σ2 & Hrun2 & Hok2).
    exists σ2. split; [|exact Hok2].
    unfold bind. rewrite Hrun. exact Hrun2.
Qed.

Lemma built_ok stk code msg σ :
  wrapper_ok (length (withStatuses σ)) (length (statusErrors σ)) code (built stk code msg σ).
Proof.
  unfold wrapper_ok, built. simpl.
  eexists _, _. split; [apply snoc_lookup|]. simpl. split; [reflexivity|].
  split; [apply snoc_lookup|]. simpl. split; [reflexivity|].
  rewrite snoc_lookup. eauto.
Qed.

Lemma Code_withStatus w sp code σ :
  wrapper_ok w sp code σ -> Code (Ptr_withStatus w) σ = Some (code, σ).
Proof.
  intros (wv & s & Hw & Hs & Hp & Hc & _). simpl. unfold withStatus_Code. run_M.
  rewrite Hw. simpl. rewrite Hs, Hp. simpl. rewrite Hc. reflexivity.
Qed.

Lemma snoc_insert {A} (l : list A) (x y : A) :
  <[length l := y]> (l ++ [x])%list = (l ++ [y])%list.
Proof.
  rewrite insert_app_r_alt by lia. rewrite Nat.sub_diag. reflexivity.
Qed.

Lemma withStatus_Extra_copy w wv sp s src kvs σ :
  withStatuses σ !! w = Some wv -> status wv = Some sp -> statusErrors σ !! sp = Some s ->
  ext_Extra (ext s) = Some src -> maps σ !! src = Some kvs ->
  withStatus_Extra w σ
  = Some (Some (length (maps σ)),
          set_maps (fun t => (t ++ [if decide (stack wv = "") then kvs
                                    else <["stack" := stack wv]> kvs])%list) σ).
Proof.
  intros Hw Hs Hp Hx Hm. unfold withStatus_Extra. run_M. rewrite Hw. simpl.
  rewrite Hs, Hp. simpl. rewrite Hx. simpl.
  rewrite (lookup_app_l_Some _ _ _ _ Hm). simpl. rewrite snoc_lookup. simpl.
  destruct σ as [df ms ss ws]. simpl in *.
  rewrite (right_id_L ∅ (∪)).
  destruct (decide (stack wv = "")); simpl.
  - unfold set_maps. simpl. rewrite snoc_insert. reflexivity.
  - rewrite snoc_insert, snoc_lookup. simpl.
    unfold set_maps. simpl. rewrite ?snoc_insert. reflexivity.
Qed.

Lemma withStatus_Extra_nil w wv sp s σ :
  withStatuses σ !! w = Some wv -> status wv = Some sp -> statusErrors σ !! sp = Some s ->
  ext_Extra (ext s) = None ->
  withStatus_Extra w σ
  = Some (Some (length (maps σ)), set_maps (fun t => (t ++ [∅])%list) σ).
Proof.
  intros Hw Hs Hp Hx. unfold withStatus_Extra. run_M. rewrite Hw. simpl.
  rewrite Hs, Hp. simpl. rewrite Hx. reflexivity.
Qed.

Lemma NewWithStatus_code stk code msg bs σ :
  exists σ',
    NewWithStatus stk code msg (to_Option <$> bs) σ
    = Some (Ptr_withStatus (length (withStatuses σ)), σ') /\
    Code (Ptr_withStatus (length (withStatuses σ))) σ' = Some (code, σ').
Proof.
  rewrite NewWithStatus_run.
  destruct (apply_opts_preserves bs _ _ code _ (built_ok stk code msg σ)) as (σ' & Hrun & Hok).
  exists σ'. split.
  - unfold bind. rewrite Hrun. reflexivity.
  - apply (Code_withStatus _ _ _ _ Hok).
Qed.

Lemma NewWithStatus_Param stk code msg k v σ :
  exists σ',
    NewWithStatus stk code msg [Param k v] σ
    = Some (Ptr_withStatus (length (withStatuses σ)), σ') /\
    Msg (Ptr_withStatus (length (withStatuses σ))) σ'
    = Some (strings_ReplaceAll (resolved (defs σ) code msg) ("{" +:+ k +:+ "}") v, σ').
Proof.
  rewrite NewWithStatus_run. cbn [apply_opts].
  eexists. split.
  - unfold bind.
    erewrite Param_run; [reflexivity | apply snoc_lookup | reflexivity | apply snoc_lookup].
  - simpl. unfold withStatus_Msg. run_M. rewrite snoc_lookup. simpl.
    rewrite list_lookup_insert_eq by (rewrite length_app; simpl; lia). reflexivity.
Qed.

Lemma NewWithStatus_two_Extra stk code msg k1 v1 k2 v2 σ :
  k1 <> k2 ->
  exists σ' m l σ'',
    NewWithStatus stk code msg [Extra k1 v1; Extra k2 v2] σ
    = Some (Ptr_withStatus (length (withStatuses σ)), σ') /\
    stored_Extra (length (withStatuses σ)) σ' = Some (m, σ') /\
    m !! k1 = Some v1 /\ m !! k2 = Some v2 /\
    Extra_of (Ptr_withStatus (length (withStatuses σ))) σ' = Some (Some l, σ'') /\
    maps σ'' !! l
    = Some (if decide (captureStack stk 2 = "") then m
            else <["stack" := captureStack stk 2]> m).
Proof.
  intros Hk. rewrite NewWithStatus_run. cbn [apply_opts].
  destruct σ as [df ms ss ws].
  eexists _, (<[k2 := v2]> (<[k1 := v1]> ∅)), _, _. split; [|split; [|split; [|split; [|split]]]].
  - unfold bind.
    erewrite Extra_run;
      [| apply snoc_lookup | reflexivity | apply snoc_lookup | reflexivity | apply snoc_lookup ].
    erewrite Extra_run;
      [| apply snoc_lookup | reflexivity | apply snoc_lookup | reflexivity
       | simpl; apply list_lookup_insert_eq; rewrite length_app; simpl; lia ].
    reflexivity.
  - unfold stored_Extra. run_M. rewrite !snoc_lookup. simpl. rewrite !snoc_lookup. simpl.
    rewrite list_lookup_insert_eq by (rewrite length_insert, length_app; simpl; lia).
    reflexivity.
  - rewrite lookup_insert_ne by congruence. apply lookup_insert_eq.
  - apply lookup_insert_eq.
  - cbn [Extra_of]. erewrite withStatus_Extra_copy;
      [reflexivity | apply snoc_lookup | reflexivity | apply snoc_lookup | reflexivity | ].
    simpl. apply list_lookup_insert_eq. rewrite length_insert, length_app; simpl; lia.
  - simpl. rewrite snoc_lookup. reflexivity.
Qed.

(** C8: [Param("name","zampo")] turns the message ["user {name} not found"]
    into ["user zampo not found"], and in general [Param(k, v)] leaves the
    message with every match of the placeholder replaced, as
    [strings.ReplaceAll] does; two [Extra] options with distinct keys
    leave both keys in the wrapper's metadata with the values given (and
    [Extra()] returns that metadata with the captured stack under ["stack"]);
    and whatever list of [Param] and [Extra] options is applied, the code is
    the one the constructor was given. *)
Theorem options_behaviour (stk : list Frame) (code : Z) (msg k1 v1 k2 v2 : string)
    (bs : list builtin) (σ : State) :
  k1 <> k2 ->
  (exists w σ',
     NewWithStatus stk code "user {name} not found" [Param "name" "zampo"] σ
     = Some (Ptr_withStatus w, σ') /\
     Msg (Ptr_withStatus w) σ' = Some ("user zampo not found", σ')) /\
  (exists w σ',
     NewWithStatus stk code msg [Param k1 v1] σ = Some (Ptr_withStatus w, σ') /\
     Msg (Ptr_withStatus w) σ'
     = Some (strings_ReplaceAll (resolved (defs σ) code msg) ("{" +:+ k1 +:+ "}") v1, σ')) /\
  (exists w σ' m l σ'',
     NewWithStatus stk code msg [Extra k1 v1; Extra k2 v2] σ = Some (Ptr_withStatus w, σ') /\
     stored_Extra w σ' = Some (m, σ') /\
     m !! k1 = Some v1 /\ m !! k2 = Some v2 /\
     Extra_of (Ptr_withStatus w) σ' = Some (Some l, σ'') /\
     maps σ'' !! l
     = Some (if decide (captureStack stk 2 = "") then m
             else <["stack" := captureStack stk 2]> m)) /\
  (exists w σ',
     NewWithStatus stk code msg (to_Option <$> bs) σ = Some (Ptr_withStatus w, σ') /\
     Code (Ptr_withStatus w) σ' = Some (code, σ')).
Proof.
  intros Hk. split; [|split; [|split]].
  - destruct (NewWithStatus_Param stk code "user {name} not found" "name" "zampo" σ)
      as (σ' & H1 & H2).
    exists (length (withStatuses σ)), σ'. split; [exact H1 | exact H2].
  - destruct (NewWithStatus_Param stk code msg k1 v1 σ) as (σ' & H1 & H2). eauto.
  - destruct (NewWithStatus_two_Extra stk code msg k1 v1 k2 v2 σ Hk)
      as (σ' & m & l & σ'' & H). exists (length (withStatuses σ)), σ', m, l, σ''. exact H.
  - destruct (NewWithStatus_code stk code msg bs σ) as (σ' & H1 & H2). eauto.
Qed.

Lemma options_behaviour_witness :
  "key1" <> "key2" /\
  (exists w σ',
     NewWithStatus sample_stack CodeNotFound "user {name} not found" [Param "name" "zampo"]
       initial = Some (Ptr_withStatus w, σ') /\
     Msg (Ptr_withStatus w) σ' = Some ("user zampo not found", σ')) /\
  (exists w σ',
     NewWithStatus sample_stack CodeNotFound "未找到" [Param "key1" "value1"] initial
     = Some (Ptr_withStatus w, σ') /\
     Msg (Ptr_withStatus w) σ'
     = Some (strings_ReplaceAll (resolved (defs initial) CodeNotFound "未找到")
               ("{" +:+ "key1" +:+ "}") "value1", σ')) /\
  (exists w σ' m l σ'',
     NewWithStatus sample_stack CodeNotFound "未找到" [Extra "key1" "value1"; Extra "key2" "value2"]
       initial = Some (Ptr_withStatus w, σ') /\
     stored_Extra w σ' = Some (m, σ') /\
     m !! "key1" = Some "value1" /\ m !! "key2" = Some "value2" /\
     Extra_of (Ptr_withStatus w) σ' = Some (Some l, σ'') /\
     maps σ'' !! l
     = Some (if decide (captureStack sample_stack 2 = "") then m
             else <["stack" := captureStack sample_stack 2]> m)) /\
  (exists w σ',
     NewWithStatus sample_stack CodeNotFound "未找到"
       (to_Option <$> [opt_Param "id" "7"; opt_Extra "key" "value"]) initial
     = Some (Ptr_withStatus w, σ') /\
     Code (Ptr_withStatus w) σ' = Some (CodeNotFound, σ')).
Proof.
  split; [discriminate|].
  apply (options_behaviour sample_stack CodeNotFound "未找到" "key1" "value1" "key2" "value2"
           [opt_Param "id" "7"; opt_Extra "key" "value"] initial).
  discriminate.
Defined.

(** ** Metadata of a wrapper *)

(** C5, at a failing input: an error decoded from an envelope without
    metadata stores a nil map; once wrapped by [WithStack], its stack is not
    empty, yet [Extra()] returns an empty map, without a ["stack"] entry. *)
Theorem withStatus_Extra_drops_stack (Sprintf_v : any -> string) (ovf : float64 -> Z) :
  fst <$> wrapped_decoded Sprintf_v ovf initial
  = Some (captureStack sample_stack 2, ∅) /\ captureStack sample_stack 2 <> "".
Proof. split; [vm_compute; reflexivity | discriminate]. Qed.

Lemma stored_Extra_run w wv sp s r m σ :
  withStatuses σ !! w = Some wv -> status wv = Some sp -> statusErrors σ !! sp = Some s ->
  ext_Extra (ext s) = r -> read_map r σ = Some (m, σ) ->
  stored_Extra w σ = Some (m, σ).
Proof.
  intros Hw Hs Hp <- Hr. unfold stored_Extra.
  unfold load_withStatus, load_statusError, bind, gets, or_panic, ret.
  rewrite Hw. simpl. rewrite Hs, Hp. exact Hr.
Qed.

(** X25: The copy is defensive: [Extra()] returns a freshly allocated map;
    assigning into it changes neither the metadata the wrapper stores nor
    what the next [Extra()] returns. *)
Lemma withStatus_Extra_defensive_copy w wv sp s σ k v :
  withStatuses σ !! w = Some wv -> status wv = Some sp -> statusErrors σ !! sp = Some s ->
  valid_map σ (ext_Extra (ext s)) ->
  exists l σ1 m σ2 l' σ3,
    withStatus_Extra w σ = Some (Some l, σ1) /\
    maps σ1 !! l = Some m /\
    map_assign (Some l) k v σ1 = Some (tt, σ2) /\
    fst <$> stored_Extra w σ2 = fst <$> stored_Extra w σ /\
    withStatus_Extra w σ2 = Some (Some l', σ3) /\
    maps σ3 !! l' = Some m.
Proof.
  intros Hw Hs Hp Hv.
  destruct (ext_Extra (ext s)) as [src|] eqn:Hx.
  - destruct Hv as [kvs Hkvs].
    assert (Hlt : (src < length (maps σ))%nat) by (eapply lookup_lt_Some; eauto).
    set (m := if decide (stack wv = "") then kvs else <["stack" := stack wv]> kvs).
    set (σ1 := set_maps (fun t => (t ++ [m])%list) σ).
    set (σ2 := set_maps (fun t => <[length (maps σ) := <[k := v]> m]> t) σ1).
    assert (H1 : maps σ1 !! length (maps σ) = Some m) by (simpl; apply snoc_lookup).
    assert (H2 : maps σ2 !! src = Some kvs).
    { simpl. rewrite list_lookup_insert_ne by lia. apply lookup_app_l_Some. exact Hkvs. }
    exists (length (maps σ)), σ1, m, σ2, (length (maps σ2)),
      (set_maps (fun t => (t ++ [m])%list) σ2).
    split; [apply (withStatus_Extra_copy _ _ _ _ _ _ _ Hw Hs Hp Hx Hkvs)|].
    split; [exact H1|].
    split; [unfold map_assign; run_M; rewrite snoc_lookup; reflexivity|].
    split.
    + rewrite (stored_Extra_run w wv sp s (Some src) kvs σ2) by
        (try assumption; unfold read_map; run_M; simpl in H2; rewrite H2; reflexivity).
      rewrite (stored_Extra_run w wv sp s (Some src) kvs σ) by
        (try assumption; unfold read_map; run_M; rewrite Hkvs; reflexivity).
      reflexivity.
    + split; [apply (withStatus_Extra_copy w wv sp s src kvs σ2); assumption|].
      simpl. rewrite length_insert, length_app. simpl.
      replace (length (maps σ) + 1)%nat with (length (<[length (maps σ):=<[k:=v]> m]> (maps σ ++ [m])%list))
        by (rewrite length_insert, length_app; reflexivity).
      apply snoc_lookup.
  - set (σ1 := set_maps (fun t => (t ++ [∅])%list) σ).
    set (σ2 := set_maps (fun t => <[length (maps σ) := <[k := v]> ∅]> t) σ1).
    exists (length (maps σ)), σ1, ∅, σ2, (length (maps σ2)),
      (set_maps (fun t => (t ++ [∅])%list) σ2).
    split; [apply (withStatus_Extra_nil _ _ _ _ _ Hw Hs Hp Hx)|].
    split; [simpl; apply snoc_lookup|].
    split; [unfold map_assign; run_M; rewrite snoc_lookup; reflexivity|].
    split.
    + rewrite (stored_Extra_run w wv sp s None ∅ σ2) by (try assumption; reflexivity).
      rewrite (stored_Extra_run w wv sp s None ∅ σ) by (try assumption; reflexivity).
      reflexivity.
    + split; [apply (withStatus_Extra_nil w wv sp s σ2); assumption|].
      simpl. apply snoc_lookup.
Qed.

(** ** Decoding *)

(** C3, at a failing input: the attachment of [crafted_status] supplies the
    business code internal-error, and the decoded code is nevertheless
    not-found, taken from the transport code. *)
Theorem FromGRPCStatus_internal_code_overridden (Sprintf_v : any -> string) (ovf : float64 -> Z) :
  fst <$> (let! e := FromGRPCStatus Sprintf_v ovf crafted_status in
           let! c := Code e in let! m := Msg e in ret (c, m)) initial
  = Some (CodeNotFound, "disk failure").
Proof. vm_compute. reflexivity. Qed.

(** ** The codec *)

Lemma grpc_of_code_not_OK c : grpc_of_code c <> codes.OK.
Proof. unfold grpc_of_code. repeat case_decide; discriminate. Qed.

Lemma attach_run s m :
  st_Code s <> codes.OK ->
  attach (Some s) m
  = Some {| st_Code := st_Code s; st_Message := st_Message s;
            st_Details := (st_Details s ++ attached m)%list |}.
Proof.
  intros Hc. unfold attach, attached. destruct (structpb_NewStruct m) as [sv|].
  - unfold status_WithDetails. destruct (st_Code s); try reflexivity. contradiction.
  - rewrite app_nil_r. destruct s; reflexivity.
Qed.

Lemma valid_map_grow σ r m : valid_map σ r -> valid_map (set_maps (fun t => (t ++ [m])%list) σ) r.
Proof.
  destruct r as [l|]; simpl; [|auto]. intros [v Hv]. exists v.
  apply lookup_app_l_Some. exact Hv.
Qed.

Lemma map_assign_all_run l src m σ :
  maps σ !! l = Some m ->
  map_assign_all (Some l) src σ = Some (tt, set_maps (fun t => <[l := src ∪ m]> t) σ).
Proof. intros H. run_M. rewrite H. reflexivity. Qed.

Lemma scan_details_run fmt ovf details : forall code msg x σ,
  valid_map σ x ->
  exists x' σ',
    scan_details fmt ovf details code msg x σ
    = Some ((scan_code_msg ovf details code msg, x'), σ') /\
    valid_map σ' x' /\ defs σ' = defs σ /\
    statusErrors σ' = statusErrors σ /\ withStatuses σ' = withStatuses σ.
Proof.
  induction details as [|d rest IH]; intros code msg x σ Hx.
  - exists x, σ. simpl. auto.
  - assert (Hskip : exists x' σ',
      scan_details fmt ovf rest code msg x σ
      = Some ((scan_code_msg ovf rest code msg, x'), σ') /\
      valid_map σ' x' /\ defs σ' = defs σ /\
      statusErrors σ' = statusErrors σ /\ withStatuses σ' = withStatuses σ)
      by (apply IH; exact Hx).
    assert (Hextra : forall sm : Struct, exists x' σ',
      bind (match x with
            | None => bind (new_map ∅) (fun l => ret (Some l))
            | Some l => ret (Some l)
            end)
        (fun x0 => bind (map_assign_all x0 (fmt <$> sm))
           (fun _ => scan_details fmt ovf rest code msg x0)) σ
      = Some ((scan_code_msg ovf rest code msg, x'), σ') /\
      valid_map σ' x' /\ defs σ' = defs σ /\
      statusErrors σ' = statusErrors σ /\ withStatuses σ' = withStatuses σ).
    { intros sm. destruct x as [l|].
      - destruct Hx as [m Hm]. unfold bind at 1. unfold ret at 1.
        unfold bind at 1. rewrite (map_assign_all_run _ _ _ _ Hm).
        edestruct (IH code msg (Some l)) as (x' & σ' & -> & Hv & Hd & Hs & Hw);
          [|exists x', σ'; repeat split; eauto].
        simpl. rewrite list_lookup_insert_eq by (eapply lookup_lt_Some; eauto). eauto.
      - unfold bind at 1. unfold bind at 1. unfold new_map at 1. unfold ret at 1.
        unfold bind at 1.
        rewrite (map_assign_all_run _ _ ∅) by (simpl; apply snoc_lookup).
        edestruct (IH code msg (Some (length (maps σ)))) as (x' & σ' & -> & Hv & Hd & Hs & Hw);
          [|exists x', σ'; repeat split; eauto].
        simpl. rewrite list_lookup_insert_eq by (rewrite length_app; simpl; lia). eauto. }
    simpl.
    destruct d as [[sm|a|n]|]; try exact Hskip.
    destruct (anypb_UnmarshalTo_Struct a) as [sm|]; [|exact Hskip].
    destruct (structpb_AsMap sm !! "business_code") as [[]|]; try apply Hextra.
    apply IH. exact Hx.
Qed.

Lemma FromGRPCStatus_run fmt ovf st σ :
  exists p s σ',
    FromGRPCStatus fmt ovf st σ = Some (Ptr_statusError p, σ') /\
    statusErrors σ' !! p = Some s /\
    statusCode s = (decoded ovf st).1 /\
    message s = resolved (defs σ) (decoded ovf st).1 (decoded ovf st).2 /\
    defs σ' = defs σ.
Proof.
  unfold FromGRPCStatus.
  destruct (scan_details_run fmt ovf (status_Details st) CodeInternalError
              (status_Message st) None σ I) as (x' & σ1 & Hrun & Hv & Hd & Hs & Hw).
  unfold bind at 1. rewrite Hrun.
  destruct (scan_code_msg ovf (status_Details st) CodeInternalError (status_Message st))
    as [c m] eqn:E.
  destruct (NewStatusError_run fmt
              (if decide (c = CodeInternalError) then code_of_grpc (status_Code st) else c)
              m (data_string_map x') σ1) as (x & σ2 & Hnew & Hs2 & Hd2 & _).
  eexists _, _, σ2. split; [exact Hnew|].
  split; [rewrite Hs2; apply snoc_lookup|].
  unfold decoded. rewrite E. simpl. rewrite Hd, Hd2. auto.
Qed.

Lemma ToGRPCStatus_run p s σ :
  statusErrors σ !! p = Some s ->
  valid_map σ (ext_Extra (ext s)) ->
  exists kvs σ',
    ToGRPCStatus (Ptr_statusError p) σ = Some (encoded (statusCode s) (message s) kvs, σ') /\
    defs σ' = defs σ.
Proof.
  intros Hp Hv. unfold ToGRPCStatus.
  rewrite (bind_run _ _ _ _ _ (Code_statusError _ _ _ Hp)).
  rewrite (bind_run _ _ _ _ _ (Msg_statusError _ _ _ Hp)).
  assert (Hencode : forall kvs σ',
    statusErrors σ' !! p = Some s ->
    bind (Code (Ptr_statusError p)) (fun c =>
      bind (Msg (Ptr_statusError p)) (fun msg =>
        ret (attach
               (if (0 <? size kvs)%nat
                then attach (status_New (grpc_of_code (statusCode s)) (message s))
                       (any_string <$> kvs)
                else status_New (grpc_of_code (statusCode s)) (message s))
               ({[ "business_code" := any_int32 c; "business_msg" := any_string msg ]}
                  : gmap string any)))) σ'
    = Some (encoded (statusCode s) (message s) kvs, σ')).
  { intros kvs σ' Hp'.
    rewrite (bind_run _ _ _ _ _ (Code_statusError _ _ _ Hp')).
    rewrite (bind_run _ _ _ _ _ (Msg_statusError _ _ _ Hp')).
    unfold ret, encoded, status_New. f_equal. f_equal.
    destruct (0 <? size kvs)%nat.
    - rewrite attach_run by apply grpc_of_code_not_OK. simpl.
      rewrite attach_run by apply grpc_of_code_not_OK. reflexivity.
    - rewrite attach_run by apply grpc_of_code_not_OK. reflexivity. }
  destruct (ext_Extra (ext s)) as [l|] eqn:Hx.
  - destruct Hv as [kvs Hkvs].
    rewrite (bind_run _ _ _ _ _ (Extra_statusError_some _ _ _ _ Hp Hx)).
    assert (Hread : read_map (Some l) σ = Some (kvs, σ)) by (run_M; rewrite Hkvs; reflexivity).
    rewrite (bind_run _ _ _ _ _ Hread).
    exists kvs, σ. split; [apply Hencode; exact Hp | reflexivity].
  - rewrite (bind_run _ _ _ _ _ (Extra_statusError_nil _ _ _ Hp Hx)).
    assert (Hread : read_map (Some (length (maps σ)))
                      (set_maps (fun t => (t ++ [∅])%list) σ)
                    = Some (∅, set_maps (fun t => (t ++ [∅])%list) σ))
      by (run_M; rewrite snoc_lookup; reflexivity).
    rewrite (bind_run _ _ _ _ _ Hread).
    exists ∅, (set_maps (fun t => (t ++ [∅])%list) σ).
    split; [apply Hencode; exact Hp | reflexivity].
Qed.

(** What [AsMap] does to the fields the codec looks at: a float64 comes out
    only where a finite number is stored, and finite numbers and strings
    come out as they are. *)
Lemma AsInterface_float64 v f :
  structpb_AsInterface v = any_float64 f ->
  v = any_float64 f /\ exists m e, f = F64 m e.
Proof.
  destruct v as [| | |[m e|[]|]| | |]; simpl; intros H; try discriminate.
  injection H as <-. eauto.
Qed.

Lemma AsMap_float64 (sv : Struct) k f :
  structpb_AsMap sv !! k = Some (any_float64 f) ->
  sv !! k = Some (any_float64 f) /\ exists m e, f = F64 m e.
Proof.
  unfold structpb_AsMap. rewrite lookup_fmap.
  destruct (sv !! k) as [v|]; simpl; [|discriminate].
  intros [= H]. apply AsInterface_float64 in H as [-> Hf]. auto.
Qed.

Lemma AsMap_finite (sv : Struct) k m e :
  sv !! k = Some (any_float64 (F64 m e)) ->
  structpb_AsMap sv !! k = Some (any_float64 (F64 m e)).
Proof. intros H. unfold structpb_AsMap. rewrite lookup_fmap, H. reflexivity. Qed.

Lemma AsMap_string (sv : Struct) k s :
  sv !! k = Some (any_string s) -> structpb_AsMap sv !! k = Some (any_string s).
Proof. intros H. unfold structpb_AsMap. rewrite lookup_fmap, H. reflexivity. Qed.

Lemma AsMap_strings (kvs : gmap string string) :
  structpb_AsMap (any_string <$> kvs) = any_string <$> kvs.
Proof.
  unfold structpb_AsMap. rewrite <- map_fmap_compose. reflexivity.
Qed.

Lemma strings_struct_no_code (kvs : gmap string string) (sv : Struct) f :
  structpb_NewStruct (any_string <$> kvs) = Some sv ->
  sv !! "business_code" <> Some (any_float64 f).
Proof.
  unfold structpb_NewStruct. case_decide; [|discriminate]. intros [= <-].
  rewrite lookup_omap, lookup_fmap.
  destruct (kvs !! "business_code") as [v|]; simpl; [|discriminate].
  destruct (utf8_ValidString v); discriminate.
Qed.

Lemma scan_extras ovf (kvs : gmap string string) rest code msg :
  scan_code_msg ovf (anypb_UnmarshalNew <$> (attached (any_string <$> kvs) ++ rest)%list) code msg
  = scan_code_msg ovf (anypb_UnmarshalNew <$> rest) code msg.
Proof.
  unfold attached. destruct (structpb_NewStruct (any_string <$> kvs)) as [sv|] eqn:E;
    [|reflexivity].
  simpl. pose proof (strings_struct_no_code kvs sv) as Hno.
  destruct (structpb_AsMap sv !! "business_code") as [[]|] eqn:Hc; try reflexivity.
  exfalso. apply AsMap_float64 in Hc as [Hc _]. eapply Hno; eauto.
Qed.

Lemma NewStruct_business c msg :
  structpb_NewStruct (business_info c msg)
  = if utf8_ValidString msg
    then Some (omap structpb_NewValue (business_info c msg))
    else None.
Proof.
  unfold structpb_NewStruct, business_info.
  destruct (utf8_ValidString msg) eqn:Hmsg; case_decide as H; try reflexivity.
  - exfalso. apply H. apply map_Forall_insert_2; [|apply map_Forall_singleton].
    + split; [reflexivity|]. simpl. eauto.
    + split; [reflexivity|]. simpl. rewrite Hmsg. eauto.
  - exfalso. specialize (H "business_msg" (any_string msg)).
    rewrite lookup_insert_ne in H by discriminate. rewrite lookup_singleton_eq in H.
    destruct (H eq_refl) as [_ [v Hv]]. simpl in Hv. rewrite Hmsg in Hv. discriminate.
Qed.

Lemma scan_business ovf c msg code0 msg0 :
  scan_code_msg ovf (anypb_UnmarshalNew <$> attached (business_info c msg)) code0 msg0
  = if utf8_ValidString msg
    then (int32_of_float64 ovf (float64_of_int32 c), msg)
    else (code0, msg0).
Proof.
  unfold attached. rewrite NewStruct_business.
  destruct (utf8_ValidString msg) eqn:Hmsg; [|reflexivity].
  simpl. unfold structpb_AsMap. rewrite !lookup_fmap, !lookup_omap. unfold business_info.
  rewrite lookup_insert_eq. simpl.
  rewrite lookup_insert_ne by discriminate. rewrite lookup_singleton_eq. simpl.
  rewrite Hmsg. reflexivity.
Qed.

Lemma decoded_encoded ovf c msg kvs :
  decoded ovf (encoded c msg kvs)
  = (if utf8_ValidString msg
     then (if decide (int32_of_float64 ovf (float64_of_int32 c) = CodeInternalError)
           then code_of_grpc (grpc_of_code c)
           else int32_of_float64 ovf (float64_of_int32 c))
     else code_of_grpc (grpc_of_code c),
     msg).
Proof.
  unfold decoded, encoded. simpl.
  assert (H : scan_code_msg ovf
                (anypb_UnmarshalNew <$>
                   ((if (0 <? size kvs)%nat then attached (any_string <$> kvs) else [])
                    ++ attached (business_info c msg))%list) CodeInternalError msg
              = if utf8_ValidString msg
                then (int32_of_float64 ovf (float64_of_int32 c), msg)
                else (CodeInternalError, msg)).
  { destruct (0 <? size kvs)%nat; [rewrite scan_extras|]; apply scan_business. }
  rewrite H. destruct (utf8_ValidString msg); simpl; reflexivity.
Qed.

Lemma int32_round c : in_int32 c = true -> forall ovf, int32_of_float64 ovf (float64_of_int32 c) = c.
Proof.
  intros H ovf. unfold int32_of_float64, float64_of_int32, float64_trunc. simpl.
  rewrite Z.mul_1_r, H. reflexivity.
Qed.

Lemma mapped_inverse c : In c mapped_codes -> code_of_grpc (grpc_of_code c) = c.
Proof. simpl. intros [<-|[<-|[<-|[<-|[<-|[]]]]]]; reflexivity. Qed.

Lemma mapped_in_int32 c : In c mapped_codes -> in_int32 c = true.
Proof. simpl. intros [<-|[<-|[<-|[<-|[<-|[]]]]]]; reflexivity. Qed.

Lemma mapped_not_internal c : In c mapped_codes -> c <> CodeInternalError.
Proof. simpl. intros [<-|[<-|[<-|[<-|[<-|[]]]]]]; discriminate. Qed.

Lemma unmapped_internal c : ~ In c mapped_codes -> grpc_of_code c = codes.Internal.
Proof.
  intros H. unfold grpc_of_code. repeat case_decide; try reflexivity; subst; exfalso; apply H;
    simpl; auto 10.
Qed.

Lemma resolved_idem d c msg : resolved d c (resolved d c msg) = resolved d c msg.
Proof.
  unfold resolved. destruct (decide (msg = "")) as [->|Hne].
  - destruct (decide (GetMessage d c "" = "")) as [->|]; reflexivity.
  - destruct (decide (msg = "")); [contradiction | reflexivity].
Qed.

Lemma encode_decode fmt ovf c msg d σ :
  valid_data σ d ->
  exists e σ1 st σ2 e' σ3,
    NewStatusError fmt c msg d σ = Some (e, σ1) /\
    Code e σ1 = Some (c, σ1) /\
    Msg e σ1 = Some (resolved (defs σ) c msg, σ1) /\
    ToGRPCStatus e σ1 = Some (st, σ2) /\
    status_Code st = grpc_of_code c /\
    FromGRPCStatus fmt ovf st σ2 = Some (e', σ3) /\
    Code e' σ3 = Some (decoded_code ovf c (resolved (defs σ) c msg), σ3) /\
    Msg e' σ3
    = Some (resolved (defs σ) (decoded_code ovf c (resolved (defs σ) c msg))
              (resolved (defs σ) c msg), σ3).
Proof.
  intros Hd.
  destruct (NewStatusError_run fmt c msg d σ) as (x & σ1 & Hnew & Hs & Hdefs & _ & Hv & _).
  pose proof (snoc_lookup (statusErrors σ)
    {| statusCode := c; message := resolved (defs σ) c msg;
       ext := {| ext_IsAffectStability := IsAffectStability (GetCodeDefinition (defs σ) c);
                 ext_Extra := x |} |}) as Hp.
  rewrite <- Hs in Hp.
  destruct (ToGRPCStatus_run _ _ _ Hp (Hv Hd)) as (kvs & σ2 & Hto & Hdefs2).
  simpl in Hto.
  destruct (FromGRPCStatus_run fmt ovf (encoded c (resolved (defs σ) c msg) kvs) σ2)
    as (p' & s' & σ3 & Hfrom & Hp' & Hcode & Hmsg & Hdefs3).
  rewrite decoded_encoded in Hcode, Hmsg. simpl in Hcode, Hmsg.
  fold (decoded_code ovf c (resolved (defs σ) c msg)) in Hcode, Hmsg.
  eexists _, σ1, _, σ2, _, σ3.
  split; [exact Hnew|]. split; [apply (Code_statusError _ _ _ Hp)|].
  split; [apply (Msg_statusError _ _ _ Hp)|]. split; [exact Hto|].
  split; [reflexivity|]. split; [exact Hfrom|]. split.
  - rewrite (Code_statusError _ _ _ Hp'), Hcode. reflexivity.
  - rewrite (Msg_statusError _ _ _ Hp'), Hmsg, Hdefs2, Hdefs. reflexivity.
Qed.

Lemma decoded_code_mapped ovf c m : In c mapped_codes -> decoded_code ovf c m = c.
Proof.
  intros Hc. unfold decoded_code.
  rewrite (int32_round c (mapped_in_int32 c Hc)), (mapped_inverse c Hc).
  destruct (utf8_ValidString m); [|reflexivity].
  destruct (decide (c = CodeInternalError)); reflexivity.
Qed.

Lemma decoded_code_unmapped ovf c m :
  ~ In c mapped_codes -> in_int32 c = true -> utf8_ValidString m = true ->
  decoded_code ovf c m = c.
Proof.
  intros Hc Hr Hm. unfold decoded_code.
  rewrite Hm, (int32_round c Hr), (unmapped_internal c Hc).
  destruct (decide (c = CodeInternalError)) as [->|]; reflexivity.
Qed.

(** C1: a status error built by [NewStatusError] with one of the five mapped
    codes is encoded and decoded without a panic, and the decoded error has
    the same code and the same message. *)
Theorem round_trip_mapped (Sprintf_v : any -> string) (int32_overflow : float64 -> Z)
    (c : Z) (msg : string) (d : Data) (σ : State) :
  valid_data σ d ->
  In c mapped_codes ->
  exists e σ1 m st σ2 e' σ3,
    NewStatusError Sprintf_v c msg d σ = Some (e, σ1) /\
    Code e σ1 = Some (c, σ1) /\
    Msg e σ1 = Some (m, σ1) /\
    ToGRPCStatus e σ1 = Some (st, σ2) /\
    FromGRPCStatus Sprintf_v int32_overflow st σ2 = Some (e', σ3) /\
    Code e' σ3 = Some (c, σ3) /\
    Msg e' σ3 = Some (m, σ3).
Proof.
  intros Hd Hc.
  destruct (encode_decode Sprintf_v int32_overflow c msg d σ Hd)
    as (e & σ1 & st & σ2 & e' & σ3 & Hnew & Hcode & Hmsg & Hto & _ & Hfrom & Hcode' & Hmsg').
  rewrite (decoded_code_mapped _ _ _ Hc) in Hcode', Hmsg'. rewrite resolved_idem in Hmsg'.
  exists e, σ1, (resolved (defs σ) c msg), st, σ2, e', σ3. auto 10.
Qed.

Lemma round_trip_mapped_witness :
  valid_data initial (data_any_map {[ "resource" := any_string "order" ]}) /\
  In CodeNotFound mapped_codes /\
  exists e σ1 m st σ2 e' σ3,
    NewStatusError Sprintf_strings CodeNotFound ""
      (data_any_map {[ "resource" := any_string "order" ]}) initial = Some (e, σ1) /\
    Code e σ1 = Some (CodeNotFound, σ1) /\
    Msg e σ1 = Some (m, σ1) /\
    ToGRPCStatus e σ1 = Some (st, σ2) /\
    FromGRPCStatus Sprintf_strings overflow_min st σ2 = Some (e', σ3) /\
    Code e' σ3 = Some (CodeNotFound, σ3) /\
    Msg e' σ3 = Some (m, σ3).
Proof.
  split; [exact I|]. split; [simpl; auto|].
  apply (round_trip_mapped Sprintf_strings overflow_min CodeNotFound ""
           (data_any_map {[ "resource" := any_string "order" ]}) initial);
    [exact I | simpl; auto].
Defined.

(** C2, as the code has it: for a status error whose code is not one of the
    five mapped codes, the envelope has the transport code internal; and when
    the error's message is valid UTF-8, so that the attachment with
    [business_code] and [business_msg] is not dropped, the decoded error has
    the original code. *)
Theorem round_trip_unmapped (Sprintf_v : any -> string) (int32_overflow : float64 -> Z)
    (c : Z) (msg : string) (d : Data) (σ : State) :
  valid_data σ d ->
  in_int32 c = true ->
  ~ In c mapped_codes ->
  exists e σ1 m st σ2,
    NewStatusError Sprintf_v c msg d σ = Some (e, σ1) /\
    Code e σ1 = Some (c, σ1) /\
    Msg e σ1 = Some (m, σ1) /\
    ToGRPCStatus e σ1 = Some (st, σ2) /\
    status_Code st = codes.Internal /\
    (utf8_ValidString m = true ->
     exists e' σ3,
       FromGRPCStatus Sprintf_v int32_overflow st σ2 = Some (e', σ3) /\
       Code e' σ3 = Some (c, σ3)).
Proof.
  intros Hd Hr Hc.
  destruct (encode_decode Sprintf_v int32_overflow c msg d σ Hd)
    as (e & σ1 & st & σ2 & e' & σ3 & Hnew & Hcode & Hmsg & Hto & Hg & Hfrom & Hcode' & _).
  exists e, σ1, (resolved (defs σ) c msg), st, σ2.
  repeat (split; [assumption|]).
  split; [rewrite Hg; apply (unmapped_internal c Hc)|].
  intros Hm. exists e', σ3. split; [exact Hfrom|].
  rewrite Hcode', (decoded_code_unmapped _ _ _ Hc Hr Hm). reflexivity.
Qed.

Lemma round_trip_unmapped_witness :
  valid_data initial data_nil /\
  in_int32 CodeUserNotFound = true /\
  ~ In CodeUserNotFound mapped_codes /\
  utf8_ValidString "no such user" = true /\
  exists e σ1 st σ2 e' σ3,
    NewStatusError Sprintf_strings CodeUserNotFound "no such user" data_nil initial
    = Some (e, σ1) /\
    Msg e σ1 = Some ("no such user", σ1) /\
    ToGRPCStatus e σ1 = Some (st, σ2) /\
    status_Code st = codes.Internal /\
    FromGRPCStatus Sprintf_strings overflow_min st σ2 = Some (e', σ3) /\
    Code e' σ3 = Some (CodeUserNotFound, σ3).
Proof.
  assert (Hc : ~ In CodeUserNotFound mapped_codes)
    by (simpl; unfold CodeUserNotFound, CodeInvalidParam, CodeUnauthorized, CodeForbidden,
          CodeNotFound, CodeAlreadyExists; lia).
  split; [exact I|]. split; [reflexivity|]. split; [exact Hc|]. split; [reflexivity|].
  destruct (round_trip_unmapped Sprintf_strings overflow_min CodeUserNotFound "no such user"
              data_nil initial I eq_refl Hc)
    as (e & σ1 & m & st & σ2 & Hnew & Hcode & Hmsg & Hto & Hin & Hdec).
  assert (Hm : m = "no such user").
  { pose proof Hnew as H1. pose proof Hmsg as H2.
    vm_compute in H1. injection H1 as <- <-.
    vm_compute in H2. injection H2 as <-. reflexivity. }
  subst m.
  destruct (Hdec eq_refl) as (e' & σ3 & Hfrom & Hcode').
  exists e, σ1, st, σ2, e', σ3. auto 10.
Defined.

(** C2, as the spec words it, fails: the status error with code user-not-found
    and a message that is not valid UTF-8 is encoded with the transport code
    internal and without the business attachment, and decodes to the code
    internal-error. *)
Lemma round_trip_loses_code_on_invalid_utf8 :
  fst <$> (let! e := NewStatusError Sprintf_strings CodeUserNotFound invalid_utf8 data_nil in
           let! c := Code e in
           let! r := round_trip Sprintf_strings overflow_min e in
           ret (c, r)) initial
  = Some (CodeUserNotFound, (codes.Internal, CodeInternalError, invalid_utf8)) /\
  CodeInternalError <> CodeUserNotFound.
Proof. split; [vm_compute; reflexivity | discriminate]. Qed.

(** * Further properties *)

(** ** Messages and stability flags *)

Lemma GetMessage_nonempty defs c msg :
  messages_nonempty defs -> resolved defs c msg <> "".
Proof.
  intros Hreg. unfold resolved. destruct (decide (msg = "")) as [->|Hne]; [|exact Hne].
  unfold GetMessage. simpl. unfold GetCodeDefinition.
  destruct (defs !! c) as [d|] eqn:E; [exact (Hreg c d E) | discriminate].
Qed.

Lemma CodeDefinitions_messages_nonempty : messages_nonempty CodeDefinitions.
Proof.
  apply (bool_decide_unpack _). vm_compute. exact I.
Qed.

(** X1: When every message of the registry is non-empty, the message of an error
    made by [NewStatusError] or by [FromGRPCStatus] is never empty: an empty
    message (also the empty message of a nil or blank envelope) is replaced
    by the registry default of the code, or by the sentinel's message. *)
Theorem Msg_never_empty (Sprintf_v : any -> string) (int32_overflow : float64 -> Z)
    (c : Z) (msg : string) (d : Data) (st : option Status) (σ : State) :
  messages_nonempty (defs σ) ->
  (exists e σ1 m,
     NewStatusError Sprintf_v c msg d σ = Some (e, σ1) /\
     Msg e σ1 = Some (m, σ1) /\ m <> "") /\
  (exists e σ1 m,
     FromGRPCStatus Sprintf_v int32_overflow st σ = Some (e, σ1) /\
     Msg e σ1 = Some (m, σ1) /\ m <> "").
Proof.
  intros Hreg. split.
  - destruct (NewStatusError_run Sprintf_v c msg d σ) as (x & σ1 & Hnew & Hs & _).
    eexists _, σ1, _. split; [exact Hnew|]. split.
    + apply Msg_statusError. rewrite Hs. apply snoc_lookup.
    + simpl. apply GetMessage_nonempty, Hreg.
  - destruct (FromGRPCStatus_run Sprintf_v int32_overflow st σ)
      as (p & s & σ1 & Hfrom & Hp & _ & Hmsg & _).
    exists (Ptr_statusError p), σ1, (message s). split; [exact Hfrom|].
    split; [apply (Msg_statusError _ _ _ Hp)|].
    rewrite Hmsg. apply GetMessage_nonempty, Hreg.
Qed.

Lemma Msg_never_empty_witness :
  messages_nonempty (defs initial) /\
  (exists e σ1 m,
     NewStatusError Sprintf_strings 31337 "" data_nil initial = Some (e, σ1) /\
     Msg e σ1 = Some (m, σ1) /\ m <> "") /\
  (exists e σ1 m,
     FromGRPCStatus Sprintf_strings overflow_min None initial = Some (e, σ1) /\
     Msg e σ1 = Some (m, σ1) /\ m <> "").
Proof.
  split; [apply (bool_decide_unpack _); vm_compute; exact I|].
  apply (Msg_never_empty Sprintf_strings overflow_min 31337 "" data_nil None initial).
  apply (bool_decide_unpack _); vm_compute; exact I.
Defined.

Lemma IsAffectStability_statusError σ p s :
  statusErrors σ !! p = Some s ->
  IsAffectStability_of (Ptr_statusError p) σ = Some (ext_IsAffectStability (ext s), σ).
Proof. intros H. simpl. unfold statusError_IsAffectStability. run_M. rewrite H. reflexivity. Qed.

Lemma CodeDefinitions_stability c :
  IsAffectStability (GetCodeDefinition CodeDefinitions c) = true <->
  c = CodeInternalError \/ CodeDefinitions !! c = None.
Proof.
  unfold GetCodeDefinition.
  destruct (CodeDefinitions !! c) as [d|] eqn:E.
  - apply elem_of_list_to_map_2 in E.
    repeat (apply elem_of_cons in E; destruct E as [E|E];
            [injection E as -> ->; simpl; split;
             [try discriminate; auto | intros [H|H]; try discriminate; reflexivity]|]).
    apply elem_of_nil in E. contradiction.
  - simpl. split; auto.
Qed.

(** X2: With the registry as [codes.go] fills it, the stability flag of a
    status error depends on the code alone, whatever message and data the
    caller passes: it is set exactly for internal-error and for codes that
    are not registered. *)
Theorem stability_from_registry (Sprintf_v : any -> string) (c : Z) (msg : string)
    (d : Data) (σ : State) :
  defs σ = CodeDefinitions ->
  exists e σ1 a,
    NewStatusError Sprintf_v c msg d σ = Some (e, σ1) /\
    IsAffectStability_of e σ1 = Some (a, σ1) /\
    (a = true <-> c = CodeInternalError \/ CodeDefinitions !! c = None).
Proof.
  intros Hd.
  destruct (NewStatusError_run Sprintf_v c msg d σ) as (x & σ1 & Hnew & Hs & _).
  eexists _, σ1, _. split; [exact Hnew|]. split.
  - apply IsAffectStability_statusError. rewrite Hs. apply snoc_lookup.
  - simpl. rewrite Hd. apply CodeDefinitions_stability.
Qed.

Lemma stability_from_registry_witness :
  defs initial = CodeDefinitions /\
  exists e σ1 a,
    NewStatusError Sprintf_strings CodeTokenExpired "expired"
      (data_any_map {[ "user" := any_string "u1" ]}) initial = Some (e, σ1) /\
    IsAffectStability_of e σ1 = Some (a, σ1) /\
    (a = true <-> CodeTokenExpired = CodeInternalError \/ CodeDefinitions !! CodeTokenExpired = None).
Proof.
  split; [reflexivity|].
  apply (stability_from_registry Sprintf_strings CodeTokenExpired "expired"
           (data_any_map {[ "user" := any_string "u1" ]}) initial).
  reflexivity.
Defined.

(** ** The metadata of a bare status error *)

Lemma read_map_run σ l m : maps σ !! l = Some m -> read_map (Some l) σ = Some (m, σ).
Proof. intros H. run_M. rewrite H. reflexivity. Qed.

Lemma map_assign_run l k v m σ :
  maps σ !! l = Some m ->
  map_assign (Some l) k v σ = Some (tt, set_maps (fun t => <[l := <[k := v]> m]> t) σ).
Proof. intros H. run_M. rewrite H. reflexivity. Qed.

Lemma NewStatusError_any_map fmt c msg (m : gmap string any) σ :
  exists σ1,
    NewStatusError fmt c msg (data_any_map m) σ
    = Some (Ptr_statusError (length (statusErrors σ)), σ1) /\
    Extra_of (Ptr_statusError (length (statusErrors σ))) σ1
    = Some (Some (length (maps σ)), σ1) /\
    maps σ1 !! length (maps σ) = Some (fmt <$> m) /\
    length (maps σ1) = S (length (maps σ)).
Proof.
  destruct σ as [df ms ss ws]. unfold NewStatusError. run_M.
  rewrite snoc_lookup. simpl.
  eexists. split; [reflexivity|]. simpl.
  split; [|split].
  - unfold statusError_Extra. run_M. rewrite snoc_lookup. reflexivity.
  - rewrite snoc_insert, (right_id_L ∅ (∪)). apply snoc_lookup.
  - rewrite length_insert, length_app. simpl. lia.
Qed.

(** X3: Given a [map[string]interface{}], [NewStatusError] stores a map of
    its own (an address that was not allocated before) with the same keys
    and every value formatted by [fmt.Sprintf("%v", v)]. *)
Theorem NewStatusError_stringifies (Sprintf_v : any -> string) (c : Z) (msg : string)
    (dataMap : gmap string any) (σ : State) :
  exists e σ1 l kvs,
    NewStatusError Sprintf_v c msg (data_any_map dataMap) σ = Some (e, σ1) /\
    Extra_of e σ1 = Some (Some l, σ1) /\
    read_map (Some l) σ1 = Some (kvs, σ1) /\
    maps σ !! l = None /\
    (forall k, kvs !! k = Sprintf_v <$> dataMap !! k).
Proof.
  destruct (NewStatusError_any_map Sprintf_v c msg dataMap σ) as (σ1 & Hnew & Hx & Hm & _).
  eexists _, σ1, _, _. split; [exact Hnew|]. split; [exact Hx|].
  split; [apply (read_map_run _ _ _ Hm)|].
  split; [apply lookup_ge_None; lia|].
  intros k. apply lookup_fmap.
Qed.

(** X4: Given a [map[string]string], [NewStatusError] keeps the caller's map
    itself, not a copy: [Extra()] returns that very map, and an entry the
    caller assigns afterwards shows in the error's metadata. *)
Theorem NewStatusError_keeps_reference (Sprintf_v : any -> string) (c : Z) (msg : string)
    (l : loc) (kvs : gmap string string) (k v : string) (σ : State) :
  maps σ !! l = Some kvs ->
  exists e σ1 σ2,
    NewStatusError Sprintf_v c msg (data_string_map (Some l)) σ = Some (e, σ1) /\
    Extra_of e σ1 = Some (Some l, σ1) /\
    read_map (Some l) σ1 = Some (kvs, σ1) /\
    map_assign (Some l) k v σ1 = Some (tt, σ2) /\
    Extra_of e σ2 = Some (Some l, σ2) /\
    read_map (Some l) σ2 = Some (<[k := v]> kvs, σ2).
Proof.
  intros Hl.
  destruct (NewStatusError_run Sprintf_v c msg (data_string_map (Some l)) σ)
    as (x & σ1 & Hnew & Hs & _ & _ & _ & -> & Hm).
  assert (Hl1 : maps σ1 !! l = Some kvs) by (rewrite Hm; apply lookup_app_l_Some, Hl).
  pose proof (snoc_lookup (statusErrors σ)
    {| statusCode := c; message := resolved (defs σ) c msg;
       ext := {| ext_IsAffectStability := IsAffectStability (GetCodeDefinition (defs σ) c);
                 ext_Extra := Some l |} |}) as Hp.
  rewrite <- Hs in Hp.
  eexists _, σ1, _. split; [exact Hnew|].
  split; [apply (Extra_statusError_some _ _ _ _ Hp); reflexivity|].
  split; [apply (read_map_run _ _ _ Hl1)|].
  split; [apply (map_assign_run _ _ _ _ _ Hl1)|].
  split.
  - apply (Extra_statusError_some _ _ {| statusCode := c; message := resolved (defs σ) c msg;
       ext := {| ext_IsAffectStability := IsAffectStability (GetCodeDefinition (defs σ) c);
                 ext_Extra := Some l |} |}); [exact Hp | reflexivity].
  - apply read_map_run. simpl. apply list_lookup_insert_eq.
    eapply lookup_lt_Some; eauto.
Qed.

Lemma NewStatusError_keeps_reference_witness :
  maps (set_maps (fun t => (t ++ [{[ "tenant" := "acme" ]}])%list) initial) !! 0%nat
  = Some {[ "tenant" := "acme" ]} /\
  exists e σ1 σ2,
    NewStatusError Sprintf_strings CodeForbidden "" (data_string_map (Some 0%nat))
      (set_maps (fun t => (t ++ [{[ "tenant" := "acme" ]}])%list) initial) = Some (e, σ1) /\
    Extra_of e σ1 = Some (Some 0%nat, σ1) /\
    read_map (Some 0%nat) σ1 = Some ({[ "tenant" := "acme" ]}, σ1) /\
    map_assign (Some 0%nat) "late" "entry" σ1 = Some (tt, σ2) /\
    Extra_of e σ2 = Some (Some 0%nat, σ2) /\
    read_map (Some 0%nat) σ2 = Some (<["late" := "entry"]> {[ "tenant" := "acme" ]}, σ2).
Proof.
  split; [reflexivity|].
  apply (NewStatusError_keeps_reference Sprintf_strings CodeForbidden "" 0%nat
           {[ "tenant" := "acme" ]} "late" "entry"
           (set_maps (fun t => (t ++ [{[ "tenant" := "acme" ]}])%list) initial)).
  reflexivity.
Defined.

(** X5: When a bare status error stores a nil map, every [Extra()] returns
    another fresh empty map: what a caller assigns into one is not there at
    the next call. *)
Theorem statusError_Extra_nil_not_retained (p : loc) (s : statusError) (k v : string)
    (σ : State) :
  statusErrors σ !! p = Some s ->
  ext_Extra (ext s) = None ->
  exists l1 σ1 σ2 l2 σ3,
    Extra_of (Ptr_statusError p) σ = Some (Some l1, σ1) /\
    map_assign (Some l1) k v σ1 = Some (tt, σ2) /\
    Extra_of (Ptr_statusError p) σ2 = Some (Some l2, σ3) /\
    l1 <> l2 /\
    read_map (Some l2) σ3 = Some (∅, σ3).
Proof.
  intros Hp Hx.
  set (σ1 := set_maps (fun t => (t ++ [∅])%list) σ).
  set (σ2 := set_maps (fun t => <[length (maps σ) := <[k := v]> ∅]> t) σ1).
  exists (length (maps σ)), σ1, σ2, (length (maps σ2)), (set_maps (fun t => (t ++ [∅])%list) σ2).
  split; [apply (Extra_statusError_nil _ _ _ Hp Hx)|].
  split; [apply map_assign_run; simpl; apply snoc_lookup|].
  split; [apply (Extra_statusError_nil σ2 p s); assumption|].
  split.
  - simpl. rewrite length_insert, length_app. simpl. lia.
  - apply read_map_run. simpl. apply snoc_lookup.
Qed.

Lemma statusError_Extra_nil_not_retained_witness :
  statusErrors (after (FromGRPCStatus Sprintf_strings overflow_min
                         (status_New codes.NotFound "gone")) initial) !! 0%nat
  = Some {| statusCode := CodeNotFound; message := "gone";
            ext := {| ext_IsAffectStability := false; ext_Extra := None |} |} /\
  exists l1 σ1 σ2 l2 σ3,
    Extra_of (Ptr_statusError 0)
      (after (FromGRPCStatus Sprintf_strings overflow_min
                (status_New codes.NotFound "gone")) initial)
    = Some (Some l1, σ1) /\
    map_assign (Some l1) "k" "v" σ1 = Some (tt, σ2) /\
    Extra_of (Ptr_statusError 0) σ2 = Some (Some l2, σ3) /\
    l1 <> l2 /\
    read_map (Some l2) σ3 = Some (∅, σ3).
Proof.
  split; [reflexivity|].
  apply (statusError_Extra_nil_not_retained 0%nat
           {| statusCode := CodeNotFound; message := "gone";
              ext := {| ext_IsAffectStability := false; ext_Extra := None |} |} "k" "v");
    reflexivity.
Defined.

(** ** Option lists *)

Lemma builtin_step b w sp l wv code a msg kvs σ :
  wrapper_is w sp l wv code a msg kvs σ ->
  exists σ',
    to_Option b (Some w) σ = Some (tt, σ') /\
    wrapper_is w sp l wv code a (option_message msg b) (option_metadata kvs b) σ' /\
    defs σ' = defs σ.
Proof.
  intros (Hw & Hs & Hp & Hm).
  destruct b as [k v|k v]; cbn [to_Option option_message option_metadata].
  - rewrite (Param_run _ _ _ _ _ _ _ Hw Hs Hp). eexists; split; [reflexivity|].
    split; [|reflexivity]. unfold wrapper_is. simpl.
    rewrite list_lookup_insert_eq by (eapply lookup_lt_Some; eauto). auto.
  - rewrite (Extra_run _ _ _ _ _ _ _ _ _ Hw Hs Hp eq_refl Hm). eexists; split; [reflexivity|].
    split; [|reflexivity]. unfold wrapper_is. simpl.
    rewrite list_lookup_insert_eq by (eapply lookup_lt_Some; eauto). auto.
Qed.

Lemma builtin_steps bs : forall w sp l wv code a msg kvs σ,
  wrapper_is w sp l wv code a msg kvs σ ->
  exists σ',
    apply_opts (to_Option <$> bs) (Some w) σ = Some (tt, σ') /\
    wrapper_is w sp l wv code a (foldl option_message msg bs) (foldl option_metadata kvs bs) σ' /\
    defs σ' = defs σ.
Proof.
  induction bs as [|b bs IH]; intros w sp l wv code a msg kvs σ Hok; simpl.
  - exists σ. auto.
  - destruct (builtin_step b _ _ _ _ _ _ _ _ _ Hok) as (σ1 & Hrun & Hok1 & Hd1).
    destruct (IH _ _ _ _ _ _ _ _ _ Hok1) as (σ2 & Hrun2 & Hok2 & Hd2).
    exists σ2. split; [|split; [exact Hok2 | congruence]].
    unfold bind. rewrite Hrun. exact Hrun2.
Qed.

Lemma built_around_is err stk code msg σ :
  wrapper_is (length (withStatuses σ)) (length (statusErrors σ)) (length (maps σ))
    {| status := Some (length (statusErrors σ)); stack := captureStack stk 2; cause := err |}
    code (IsAffectStability (GetCodeDefinition (defs σ) code)) (resolved (defs σ) code msg) ∅
    (built_around err stk code msg σ).
Proof.
  unfold wrapper_is, built_around. simpl. rewrite !snoc_lookup. auto.
Qed.

Lemma NewWithStatus_built stk code msg opts σ :
  NewWithStatus stk code msg opts σ
  = bind (apply_opts opts (Some (length (withStatuses σ))))
      (fun _ => ret (Ptr_withStatus (length (withStatuses σ))))
      (built_around nil_error stk code msg σ).
Proof. destruct σ as [df ms ss ws]. reflexivity. Qed.

Lemma WrapWithStatusOptions_built stk err code msg opts σ :
  err <> nil_error ->
  WrapWithStatusOptions stk err code msg opts σ
  = bind (apply_opts opts (Some (length (withStatuses σ))))
      (fun _ => ret (Ptr_withStatus (length (withStatuses σ))))
      (built_around err stk code msg σ).
Proof. intros He. destruct σ as [df ms ss ws]. destruct err; [contradiction|..]; reflexivity. Qed.

Lemma wrapper_is_reads w sp l wv code a msg kvs σ :
  wrapper_is w sp l wv code a msg kvs σ ->
  Code (Ptr_withStatus w) σ = Some (code, σ) /\
  Msg (Ptr_withStatus w) σ = Some (msg, σ) /\
  IsAffectStability_of (Ptr_withStatus w) σ = Some (a, σ) /\
  stored_Extra w σ = Some (kvs, σ) /\
  withStatus_Stack w σ = Some (stack wv, σ) /\
  withStatus_Cause w σ = Some (cause wv, σ) /\
  withStatus_Unwrap w σ = Some (cause wv, σ).
Proof.
  intros (Hw & Hs & Hp & Hm). simpl.
  unfold withStatus_Code, withStatus_Msg, withStatus_IsAffectStability, stored_Extra,
    withStatus_Stack, withStatus_Cause, withStatus_Unwrap.
  run_M. rewrite Hw. simpl. rewrite Hs, Hp. simpl. rewrite Hm. auto 10.
Qed.

(** The wrapper either constructor builds, after a list of built-in options. *)
Lemma options_run err stk code msg bs σ :
  exists σ',
    bind (apply_opts (to_Option <$> bs) (Some (length (withStatuses σ))))
      (fun _ => ret (Ptr_withStatus (length (withStatuses σ))))
      (built_around err stk code msg σ)
    = Some (Ptr_withStatus (length (withStatuses σ)), σ') /\
    wrapper_is (length (withStatuses σ)) (length (statusErrors σ)) (length (maps σ))
      {| status := Some (length (statusErrors σ)); stack := captureStack stk 2; cause := err |}
      code (IsAffectStability (GetCodeDefinition (defs σ) code))
      (foldl option_message (resolved (defs σ) code msg) bs)
      (foldl option_metadata ∅ bs) σ'.
Proof.
  destruct (builtin_steps bs _ _ _ _ _ _ _ _ _ (built_around_is err stk code msg σ))
    as (σ' & Hrun & Hok & _).
  exists σ'. split; [|exact Hok]. unfold bind. rewrite Hrun. reflexivity.
Qed.

(** X6: [NewWithStatus] applies its options from left to right: the message
    is the resolved message taken through each [Param] in turn, the stored
    metadata is the empty map taken through each [Extra] in turn, the
    stack is the one captured, and there is no cause. *)
Theorem NewWithStatus_options_in_order (stk : list Frame) (code : Z) (msg : string)
    (bs : list builtin) (σ : State) :
  exists w σ',
    NewWithStatus stk code msg (to_Option <$> bs) σ = Some (Ptr_withStatus w, σ') /\
    Msg (Ptr_withStatus w) σ'
    = Some (foldl option_message (resolved (defs σ) code msg) bs, σ') /\
    stored_Extra w σ' = Some (foldl option_metadata ∅ bs, σ') /\
    withStatus_Stack w σ' = Some (captureStack stk 2, σ') /\
    withStatus_Cause w σ' = Some (nil_error, σ').
Proof.
  rewrite NewWithStatus_built.
  destruct (options_run nil_error stk code msg bs σ) as (σ' & Hrun & Hok).
  apply wrapper_is_reads in Hok. simpl in Hok.
  exists (length (withStatuses σ)), σ'. intuition.
Qed.

(** X7: Two [Extra] options with the same key leave one entry, with the value
    of the later option. *)
Theorem Extra_last_write_wins (stk : list Frame) (code : Z) (msg k v1 v2 : string)
    (σ : State) :
  exists w σ' kvs,
    NewWithStatus stk code msg [Extra k v1; Extra k v2] σ = Some (Ptr_withStatus w, σ') /\
    stored_Extra w σ' = Some (kvs, σ') /\
    kvs !! k = Some v2 /\
    size kvs = 1%nat.
Proof.
  rewrite NewWithStatus_built.
  destruct (options_run nil_error stk code msg [opt_Extra k v1; opt_Extra k v2] σ)
    as (σ' & Hrun & Hok).
  apply wrapper_is_reads in Hok. simpl in Hok, Hrun.
  exists (length (withStatuses σ)), σ', (<[k := v2]> (<[k := v1]> ∅)).
  split; [exact Hrun|]. split; [intuition|]. split; [apply lookup_insert_eq|].
  rewrite insert_insert_eq, insert_empty. apply map_size_singleton.
Qed.

(** X8: [WrapWithStatusOptions] returns nil for a nil cause, running no
    option; for any other cause it builds the wrapper [NewWithStatus] would
    build from the code, message and options, with the stability flag of
    the registry, and [Cause()] and [Unwrap()] return the cause. *)
Theorem WrapWithStatusOptions_spec (stk : list Frame) (err : error) (code : Z) (msg : string)
    (bs : list builtin) (σ : State) :
  err <> nil_error ->
  WrapWithStatusOptions stk nil_error code msg (to_Option <$> bs) σ = Some (nil_error, σ) /\
  exists w σ',
    WrapWithStatusOptions stk err code msg (to_Option <$> bs) σ = Some (Ptr_withStatus w, σ') /\
    Code (Ptr_withStatus w) σ' = Some (code, σ') /\
    Msg (Ptr_withStatus w) σ'
    = Some (foldl option_message (resolved (defs σ) code msg) bs, σ') /\
    IsAffectStability_of (Ptr_withStatus w) σ'
    = Some (IsAffectStability (GetCodeDefinition (defs σ) code), σ') /\
    stored_Extra w σ' = Some (foldl option_metadata ∅ bs, σ') /\
    withStatus_Cause w σ' = Some (err, σ') /\
    withStatus_Unwrap w σ' = Some (err, σ').
Proof.
  intros He. split; [reflexivity|].
  rewrite (WrapWithStatusOptions_built _ _ _ _ _ _ He).
  destruct (options_run err stk code msg bs σ) as (σ' & Hrun & Hok).
  apply wrapper_is_reads in Hok. simpl in Hok.
  exists (length (withStatuses σ)), σ'. intuition.
Qed.

Lemma WrapWithStatusOptions_spec_witness :
  Foreign "connection reset" None nil_error <> nil_error /\
  WrapWithStatusOptions sample_stack nil_error CodeRequestTimeout "{op} timed out"
    (to_Option <$> [opt_Param "op" "read"; opt_Extra "peer" "10.0.0.7"]) initial
  = Some (nil_error, initial) /\
  exists w σ',
    WrapWithStatusOptions sample_stack (Foreign "connection reset" None nil_error)
      CodeRequestTimeout "{op} timed out"
      (to_Option <$> [opt_Param "op" "read"; opt_Extra "peer" "10.0.0.7"]) initial
    = Some (Ptr_withStatus w, σ') /\
    Code (Ptr_withStatus w) σ' = Some (CodeRequestTimeout, σ') /\
    Msg (Ptr_withStatus w) σ'
    = Some (foldl option_message (resolved (defs initial) CodeRequestTimeout "{op} timed out")
              [opt_Param "op" "read"; opt_Extra "peer" "10.0.0.7"], σ') /\
    IsAffectStability_of (Ptr_withStatus w) σ'
    = Some (IsAffectStability (GetCodeDefinition (defs initial) CodeRequestTimeout), σ') /\
    stored_Extra w σ'
    = Some (foldl option_metadata ∅ [opt_Param "op" "read"; opt_Extra "peer" "10.0.0.7"], σ') /\
    withStatus_Cause w σ' = Some (Foreign "connection reset" None nil_error, σ') /\
    withStatus_Unwrap w σ' = Some (Foreign "connection reset" None nil_error, σ').
Proof.
  split; [discriminate|].
  apply (WrapWithStatusOptions_spec sample_stack (Foreign "connection reset" None nil_error)
           CodeRequestTimeout "{op} timed out"
           [opt_Param "op" "read"; opt_Extra "peer" "10.0.0.7"] initial).
  discriminate.
Defined.

Example options_fold_example :
  foldl option_message "{op} timed out" [opt_Param "op" "read"; opt_Extra "peer" "10.0.0.7"]
  = "read timed out".
Proof. reflexivity. Qed.

(** ** Placeholders *)

Lemma replace_scan_absent old new s :
  occurs old s = false -> replace_scan old new 0 s = s.
Proof.
  induction s as [|c s IH]; intros H; [reflexivity|].
  cbn [occurs] in H. apply orb_false_iff in H as [Hp Ho].
  cbn [replace_scan]. rewrite Hp, (IH Ho). reflexivity.
Qed.

Lemma ReplaceAll_absent s old new :
  occurs old s = false -> strings_ReplaceAll s old new = s.
Proof.
  intros H. unfold strings_ReplaceAll. destruct (decide (old = "")); [reflexivity|].
  apply replace_scan_absent, H.
Qed.

(** X9: A [Param] whose placeholder does not occur in the message leaves the
    message as it is. *)
Theorem Param_without_placeholder (stk : list Frame) (code : Z) (msg k v : string)
    (σ : State) :
  occurs ("{" +:+ k +:+ "}") (resolved (defs σ) code msg) = false ->
  exists w σ',
    NewWithStatus stk code msg [Param k v] σ = Some (Ptr_withStatus w, σ') /\
    Msg (Ptr_withStatus w) σ' = Some (resolved (defs σ) code msg, σ').
Proof.
  intros H. destruct (NewWithStatus_Param stk code msg k v σ) as (σ' & Hrun & Hmsg).
  exists (length (withStatuses σ)), σ'. split; [exact Hrun|].
  rewrite Hmsg, (ReplaceAll_absent _ _ _ H). reflexivity.
Qed.

Lemma Param_without_placeholder_witness :
  occurs ("{" +:+ "id" +:+ "}") (resolved (defs initial) CodeNotFound "user {name} not found")
  = false /\
  exists w σ',
    NewWithStatus sample_stack CodeNotFound "user {name} not found" [Param "id" "7"] initial
    = Some (Ptr_withStatus w, σ') /\
    Msg (Ptr_withStatus w) σ'
    = Some (resolved (defs initial) CodeNotFound "user {name} not found", σ').
Proof.
  split; [reflexivity|].
  apply (Param_without_placeholder sample_stack CodeNotFound "user {name} not found" "id" "7"
           initial).
  reflexivity.
Defined.

(** ** Stack capture *)

Lemma append_nonempty_l a b : a <> "" -> a +:+ b <> "".
Proof. destruct a; [contradiction | discriminate]. Qed.

Lemma frame_line_nonempty f : frame_line f <> "".
Proof.
  unfold frame_line. destruct (fr_Function f); simpl; discriminate.
Qed.

Lemma concat_nonempty sep x l : x <> "" -> String.concat sep (x :: l) <> "".
Proof.
  intros Hx. destruct l as [|y l]; simpl; [exact Hx|].
  apply append_nonempty_l, Hx.
Qed.

(** X10: [captureStack(skip)] returns the empty string exactly when the call
    stack has no frame beyond the [skip + 1] it passes over; with any
    further frame the result is not empty. *)
Theorem captureStack_empty_iff (stk : list Frame) (skip : nat) :
  captureStack stk skip = "" <-> (length stk <= skip + 1)%nat.
Proof.
  unfold captureStack, runtime_Callers.
  destruct (decide (length (take 32 (drop (skip + 1) stk)) = 0%nat)) as [H0|Hn].
  - split; [intros _|reflexivity].
    rewrite length_take, length_drop in H0. lia.
  - split.
    + intros H. exfalso.
      destruct (take 32 (drop (skip + 1) stk)) as [|f fs]; [contradiction|].
      simpl in H. revert H. apply concat_nonempty, frame_line_nonempty.
    + intros H. exfalso. apply Hn. rewrite length_take, length_drop. lia.
Qed.

(** X11: [captureStack] records at most 32 frames: frames beyond the first
    [skip + 1 + 32] of the call stack do not change its result. *)
Theorem captureStack_at_most_32 (stk : list Frame) (skip : nat) :
  captureStack stk skip = captureStack (take (skip + 1 + 32) stk) skip.
Proof.
  unfold captureStack, runtime_Callers.
  rewrite <- take_drop_commute, take_take, Nat.min_id. reflexivity.
Qed.

(** ** Wrapping a cause *)

Lemma error_text_grows fuel : forall fuel' σ σ' err t,
  (fuel <= fuel')%nat ->
  (forall p s, statusErrors σ !! p = Some s -> statusErrors σ' !! p = Some s) ->
  (forall p w, withStatuses σ !! p = Some w -> withStatuses σ' !! p = Some w) ->
  error_text fuel σ err = Some t -> error_text fuel' σ' err = Some t.
Proof.
  induction fuel as [|n IH]; intros fuel' σ σ' err t Hf Hs Hw H; [discriminate|].
  destruct fuel' as [|n']; [lia|].
  destruct err as [|p|p|tx m u]; simpl in *; try discriminate.
  - destruct (statusErrors σ !! p) as [s|] eqn:E; [|discriminate].
    rewrite (Hs _ _ E). exact H.
  - destruct (withStatuses σ !! p) as [w|] eqn:Ew; [|discriminate].
    rewrite (Hw _ _ Ew).
    destruct (status w) as [sp|]; [|discriminate].
    destruct (statusErrors σ !! sp) as [s|] eqn:Es; [|discriminate].
    rewrite (Hs _ _ Es).
    destruct (cause w) as [|q|q|tx m u]; try exact H.
    + destruct (error_text n σ (Ptr_statusError q)) as [t'|] eqn:Et; [|discriminate].
      rewrite (IH n' σ σ' _ t' ltac:(lia) Hs Hw Et). exact H.
    + destruct (error_text n σ (Ptr_withStatus q)) as [t'|] eqn:Et; [|discriminate].
      rewrite (IH n' σ σ' _ t' ltac:(lia) Hs Hw Et). exact H.
    + destruct (error_text n σ (Foreign tx m u)) as [t'|] eqn:Et; [|discriminate].
      rewrite (IH n' σ σ' _ t' ltac:(lia) Hs Hw Et). exact H.
  - exact H.
Qed.

Lemma error_text_wrapper n σ p w sp s t :
  withStatuses σ !! p = Some w -> status w = Some sp -> statusErrors σ !! sp = Some s ->
  cause w <> nil_error -> error_text n σ (cause w) = Some t ->
  error_text (S n) σ (Ptr_withStatus p) = Some (message s +:+ ": " +:+ t).
Proof.
  intros Hw Hs Hp Hc Ht. cbn [error_text]. rewrite Hw, Hs, Hp.
  destruct (cause w); [contradiction|..]; rewrite Ht; reflexivity.
Qed.

Lemma error_text_no_cause n σ p w sp s :
  withStatuses σ !! p = Some w -> status w = Some sp -> statusErrors σ !! sp = Some s ->
  cause w = nil_error ->
  error_text (S n) σ (Ptr_withStatus p) = Some (message s).
Proof.
  intros Hw Hs Hp Hc. cbn [error_text]. rewrite Hw, Hs, Hp, Hc. reflexivity.
Qed.

Lemma foldr_fuel_snoc (ws : list withStatus) w :
  foldr (fun w n => (S (error_size (cause w)) + n)%nat) 0%nat (ws ++ [w])%list
  = (S (error_size (cause w))
     + foldr (fun w n => (S (error_size (cause w)) + n)%nat) 0%nat ws)%nat.
Proof. induction ws as [|x ws IH]; simpl in *; lia. Qed.

Lemma WrapWithStatus_run fmt stk err code msg d σ :
  err <> nil_error ->
  exists x σ1,
    WrapWithStatus fmt stk err code msg d σ
    = Some (Ptr_withStatus (length (withStatuses σ)), σ1) /\
    withStatuses σ1
    = (withStatuses σ ++ [{| status := Some (length (statusErrors σ));
                             stack := captureStack stk 2; cause := err |}])%list /\
    statusErrors σ1
    = (statusErrors σ ++
       [{| statusCode := code; message := resolved (defs σ) code msg;
           ext := {| ext_IsAffectStability := IsAffectStability (GetCodeDefinition (defs σ) code);
                     ext_Extra := x |} |}])%list /\
    defs σ1 = defs σ.
Proof.
  intros He.
  destruct (NewStatusError_run fmt code msg d σ) as (x & σ0 & Hnew & Hs & Hd & Hw & _).
  assert (H : WrapWithStatus fmt stk err code msg d σ
              = bind (NewStatusError fmt code msg d) (fun statusErr =>
                  bind (As statusErr to_withStatus) (fun ws =>
                    bind (match ws with
                          | Some w => bind (load_withStatus (Some w)) (fun wv => ret (status wv))
                          | None =>
                            bind (As statusErr to_statusError) (fun se =>
                              match se with
                              | Some p => ret (Some p)
                              | None =>
                                bind (gets defs) (fun d0 =>
                                  bind (new_map ∅) (fun extra =>
                                    bind (match d with
                                          | data_nil => ret (Some extra)
                                          | data_any_map dataMap =>
                                            bind (map_assign_all (Some extra) (fmt <$> dataMap))
                                              (fun _ => ret (Some extra))
                                          | data_string_map dataMap => ret dataMap
                                          | data_other => ret (Some extra)
                                          end) (fun extra0 =>
                                      bind (Msg statusErr) (fun msg0 =>
                                        bind (new_statusError
                                                {| statusCode := code; message := msg0;
                                                   ext := {| ext_IsAffectStability :=
                                                               IsAffectStability
                                                                 (GetCodeDefinition d0 code);
                                                             ext_Extra := extra0 |} |})
                                          (fun p => ret (Some p))))))
                              end)
                          end) (fun se =>
                      bind (new_withStatus {| status := se; stack := captureStack stk 2;
                                              cause := err |})
                        (fun w => ret (Ptr_withStatus w))))) σ)
    by (destruct err; [contradiction|..]; reflexivity).
  rewrite H. clear H.
  rewrite (bind_run _ _ _ _ _ Hnew).
  rewrite (bind_run _ _ _ _ _ (As_withStatus_run σ0 _)). cbn [first_withStatus].
  rewrite (bind_run _ _ σ0 (Some (length (statusErrors σ))) σ0).
  2:{ rewrite (bind_run _ _ _ _ _ (As_statusError_run σ0 (Ptr_statusError (length (statusErrors σ))) eq_refl)). reflexivity. }
  unfold bind, new_withStatus, ret. rewrite Hw.
  eexists x, _. split; [reflexivity|]. simpl. rewrite Hw, Hs. auto.
Qed.

(** X12: For a non-nil cause whose [Error()] is [t], [WrapWithStatus] returns a
    wrapper with the given code, the resolved message, the registry's
    stability flag and the captured stack; [Cause()] and [Unwrap()] return
    the cause itself, and [Error()] is the message, a colon and a space, and
    [t]. *)
Theorem WrapWithStatus_spec (Sprintf_v : any -> string) (stk : list Frame) (err : error)
    (code : Z) (msg : string) (d : Data) (t : string) (σ : State) :
  err <> nil_error ->
  Error_of err σ = Some (t, σ) ->
  exists w σ1,
    WrapWithStatus Sprintf_v stk err code msg d σ = Some (Ptr_withStatus w, σ1) /\
    Code (Ptr_withStatus w) σ1 = Some (code, σ1) /\
    Msg (Ptr_withStatus w) σ1 = Some (resolved (defs σ) code msg, σ1) /\
    IsAffectStability_of (Ptr_withStatus w) σ1
    = Some (IsAffectStability (GetCodeDefinition (defs σ) code), σ1) /\
    withStatus_Stack w σ1 = Some (captureStack stk 2, σ1) /\
    withStatus_Cause w σ1 = Some (err, σ1) /\
    withStatus_Unwrap w σ1 = Some (err, σ1) /\
    Error_of (Ptr_withStatus w) σ1 = Some (resolved (defs σ) code msg +:+ ": " +:+ t, σ1).
Proof.
  intros He Ht.
  destruct (WrapWithStatus_run Sprintf_v stk err code msg d σ He)
    as (x & σ1 & Hrun & Hw & Hs & Hd).
  assert (Hlw : withStatuses σ1 !! length (withStatuses σ)
                = Some {| status := Some (length (statusErrors σ));
                          stack := captureStack stk 2; cause := err |})
    by (rewrite Hw; apply snoc_lookup).
  assert (Hls : statusErrors σ1 !! length (statusErrors σ)
                = Some {| statusCode := code; message := resolved (defs σ) code msg;
                          ext := {| ext_IsAffectStability :=
                                      IsAffectStability (GetCodeDefinition (defs σ) code);
                                    ext_Extra := x |} |})
    by (rewrite Hs; apply snoc_lookup).
  exists (length (withStatuses σ)), σ1. split; [exact Hrun|].
  simpl. unfold withStatus_Code, withStatus_Msg, withStatus_IsAffectStability,
    withStatus_Stack, withStatus_Cause, withStatus_Unwrap.
  run_M. rewrite Hlw. simpl. rewrite Hls. simpl.
  repeat (split; [reflexivity|]).
  unfold Error_of in *.
  destruct (error_text (As_fuel σ err) σ err) as [t'|] eqn:Et; [|discriminate].
  injection Ht as ->.
  assert (Hfuel : As_fuel σ1 (Ptr_withStatus (length (withStatuses σ)))
                  = S (S (As_fuel σ err))).
  { unfold As_fuel. rewrite Hw, foldr_fuel_snoc. simpl. lia. }
  assert (Het : error_text (S (As_fuel σ err)) σ1 err = Some t).
  { eapply error_text_grows; [| | |exact Et]; [lia | |].
    - intros p s Hp. rewrite Hs. apply lookup_app_l_Some, Hp.
    - intros p w Hp. rewrite Hw. apply lookup_app_l_Some, Hp. }
  rewrite Hfuel.
  rewrite (error_text_wrapper _ _ _ _ _ _ _ Hlw eq_refl Hls He Het). reflexivity.
Qed.

Lemma WrapWithStatus_spec_witness :
  Foreign "原始错误" None nil_error <> nil_error /\
  Error_of (Foreign "原始错误" None nil_error) initial = Some ("原始错误", initial) /\
  exists w σ1,
    WrapWithStatus Sprintf_strings sample_stack (Foreign "原始错误" None nil_error)
      CodeInternalError "包装错误" data_nil initial = Some (Ptr_withStatus w, σ1) /\
    Code (Ptr_withStatus w) σ1 = Some (CodeInternalError, σ1) /\
    Msg (Ptr_withStatus w) σ1
    = Some (resolved (defs initial) CodeInternalError "包装错误", σ1) /\
    IsAffectStability_of (Ptr_withStatus w) σ1
    = Some (IsAffectStability (GetCodeDefinition (defs initial) CodeInternalError), σ1) /\
    withStatus_Stack w σ1 = Some (captureStack sample_stack 2, σ1) /\
    withStatus_Cause w σ1 = Some (Foreign "原始错误" None nil_error, σ1) /\
    withStatus_Unwrap w σ1 = Some (Foreign "原始错误" None nil_error, σ1) /\
    Error_of (Ptr_withStatus w) σ1
    = Some (resolved (defs initial) CodeInternalError "包装错误" +:+ ": " +:+ "原始错误", σ1).
Proof.
  split; [discriminate|]. split; [reflexivity|].
  apply (WrapWithStatus_spec Sprintf_strings sample_stack (Foreign "原始错误" None nil_error)
           CodeInternalError "包装错误" data_nil "原始错误" initial);
    [discriminate | reflexivity].
Defined.

(** [TestWithStatusCauseErrorMessage], and a second wrap around the first. *)
Example test_WithStatusCauseErrorMessage :
  fst <$> (let! w1 := WrapWithStatus Sprintf_strings sample_stack
                        (Foreign "原始错误" None nil_error) CodeInternalError "包装错误"
                        data_nil in
           let! t1 := Error_of w1 in
           let! w2 := WrapWithStatus Sprintf_strings sample_stack w1 CodeNotFound "outer"
                        data_nil in
           let! t2 := Error_of w2 in
           ret (t1, t2)) initial
  = Some ("包装错误: 原始错误", "outer: 包装错误: 原始错误").
Proof. vm_compute. reflexivity. Qed.

(** ** [WithStack] and the unwrap chain *)

(** X13: When the unwrap chain of its argument holds a wrapper, [WithStack]
    returns the first such wrapper and allocates nothing: for a foreign error
    around a wrapper, the result is the inner wrapper, not a wrapper of the
    foreign error. *)
Theorem WithStack_returns_inner_wrapper (stk : list Frame) (e : error) (w : loc)
    (σ : State) :
  first_withStatus e = Some w ->
  WithStack stk e σ = Some (Ptr_withStatus w, σ).
Proof.
  intros H. destruct e as [|p|p|t m u]; try discriminate.
  - injection H as ->. apply WithStack_wrapper.
  - unfold WithStack. rewrite (bind_run _ _ _ _ _ (As_withStatus_run σ _)). rewrite H. reflexivity.
Qed.

Lemma WithStack_returns_inner_wrapper_witness :
  first_withStatus
    (Foreign "quota exceeded"
       (Some {| m_Code := 4290; m_IsAffectStability := false; m_Msg := "quota";
                m_Extra := None |})
       (Ptr_withStatus 0)) = Some 0%nat /\
  WithStack sample_stack
    (Foreign "quota exceeded"
       (Some {| m_Code := 4290; m_IsAffectStability := false; m_Msg := "quota";
                m_Extra := None |})
       (Ptr_withStatus 0))
    (after (NewWithStatus sample_stack CodeNotFound "gone" []) initial)
  = Some (Ptr_withStatus 0,
          after (NewWithStatus sample_stack CodeNotFound "gone" []) initial).
Proof.
  split; [reflexivity|].
  apply (WithStack_returns_inner_wrapper sample_stack _ 0%nat). reflexivity.
Defined.

(** X14: When the unwrap chain holds no wrapper but a bare status error,
    [WithStack] allocates a wrapper that points at that very status error
    (no copy is made) and has no cause: code and message are the inner
    error's, and [Unwrap()] returns nil even if the argument was a foreign
    error around it. *)
Theorem WithStack_wraps_inner_statusError (stk : list Frame) (e : error) (p : loc)
    (s : statusError) (σ : State) :
  first_withStatus e = None ->
  first_statusError e = Some p ->
  statusErrors σ !! p = Some s ->
  exists w σ1,
    WithStack stk e σ = Some (Ptr_withStatus w, σ1) /\
    withStatuses σ !! w = None /\
    withStatuses σ1 !! w
    = Some {| status := Some p; stack := captureStack stk 2; cause := nil_error |} /\
    statusErrors σ1 = statusErrors σ /\
    Code (Ptr_withStatus w) σ1 = Some (statusCode s, σ1) /\
    Msg (Ptr_withStatus w) σ1 = Some (message s, σ1) /\
    withStatus_Unwrap w σ1 = Some (nil_error, σ1).
Proof.
  intros Hw Hs Hp.
  assert (Hrun : WithStack stk e σ
                 = Some (Ptr_withStatus (length (withStatuses σ)),
                         set_withStatuses (fun t => (t ++ [{| status := Some p;
                           stack := captureStack stk 2; cause := nil_error |}])%list) σ)).
  { unfold WithStack. destruct e as [|q|q|t m u]; try discriminate.
    - rewrite (bind_run _ _ _ _ _ (As_withStatus_run σ _)). cbn [first_withStatus].
      rewrite (bind_run _ _ _ _ _ (As_statusError_run σ (Ptr_statusError q) eq_refl)).
      rewrite Hs. reflexivity.
    - rewrite (bind_run _ _ _ _ _ (As_withStatus_run σ _)). rewrite Hw.
      rewrite (bind_run _ _ _ _ _ (As_statusError_run σ _ Hw)). rewrite Hs. reflexivity. }
  eexists _, _. split; [exact Hrun|].
  split; [apply lookup_ge_None; lia|].
  split; [simpl; apply snoc_lookup|].
  split; [reflexivity|].
  simpl. unfold withStatus_Code, withStatus_Msg, withStatus_Unwrap. run_M.
  rewrite snoc_lookup. simpl. rewrite Hp. auto.
Qed.

Lemma WithStack_wraps_inner_statusError_witness :
  first_withStatus
    (Foreign "quota exceeded"
       (Some {| m_Code := 4290; m_IsAffectStability := false; m_Msg := "quota";
                m_Extra := None |})
       (Ptr_statusError 0)) = None /\
  first_statusError
    (Foreign "quota exceeded"
       (Some {| m_Code := 4290; m_IsAffectStability := false; m_Msg := "quota";
                m_Extra := None |})
       (Ptr_statusError 0)) = Some 0%nat /\
  statusErrors (after (NewStatusError Sprintf_strings CodeNotFound "gone" data_nil) initial)
    !! 0%nat
  = Some {| statusCode := CodeNotFound; message := "gone";
            ext := {| ext_IsAffectStability := false; ext_Extra := Some 0%nat |} |} /\
  exists w σ1,
    WithStack sample_stack
      (Foreign "quota exceeded"
         (Some {| m_Code := 4290; m_IsAffectStability := false; m_Msg := "quota";
                  m_Extra := None |})
         (Ptr_statusError 0))
      (after (NewStatusError Sprintf_strings CodeNotFound "gone" data_nil) initial)
    = Some (Ptr_withStatus w, σ1) /\
    withStatuses (after (NewStatusError Sprintf_strings CodeNotFound "gone" data_nil) initial)
      !! w = None /\
    withStatuses σ1 !! w
    = Some {| status := Some 0%nat; stack := captureStack sample_stack 2;
              cause := nil_error |} /\
    statusErrors σ1
    = statusErrors (after (NewStatusError Sprintf_strings CodeNotFound "gone" data_nil)
                      initial) /\
    Code (Ptr_withStatus w) σ1 = Some (CodeNotFound, σ1) /\
    Msg (Ptr_withStatus w) σ1 = Some ("gone", σ1) /\
    withStatus_Unwrap w σ1 = Some (nil_error, σ1).
Proof.
  split; [reflexivity|]. split; [reflexivity|]. split; [reflexivity|].
  apply (WithStack_wraps_inner_statusError sample_stack _ 0%nat
           {| statusCode := CodeNotFound; message := "gone";
              ext := {| ext_IsAffectStability := false; ext_Extra := Some 0%nat |} |});
    reflexivity.
Defined.

(** ** Decoding, in general *)

Lemma scan_details_meta fmt ovf details : forall code msg x acc σ,
  meta_at σ x acc ->
  exists x' σ',
    scan_details fmt ovf details code msg x σ
    = Some ((scan_code_msg ovf details code msg, x'), σ') /\
    meta_at σ' x' (scan_meta fmt details acc) /\
    defs σ' = defs σ /\
    statusErrors σ' = statusErrors σ /\ withStatuses σ' = withStatuses σ.
Proof.
  induction details as [|d rest IH]; intros code msg x acc σ Hx.
  - exists x, σ. simpl. auto.
  - assert (Hskip : exists x' σ',
      scan_details fmt ovf rest code msg x σ
      = Some ((scan_code_msg ovf rest code msg, x'), σ') /\
      meta_at σ' x' (scan_meta fmt rest acc) /\ defs σ' = defs σ /\
      statusErrors σ' = statusErrors σ /\ withStatuses σ' = withStatuses σ)
      by (apply IH; exact Hx).
    assert (Hextra : forall sm : Struct, exists x' σ',
      bind (match x with
            | None => bind (new_map ∅) (fun l => ret (Some l))
            | Some l => ret (Some l)
            end)
        (fun x0 => bind (map_assign_all x0 (fmt <$> sm))
           (fun _ => scan_details fmt ovf rest code msg x0)) σ
      = Some ((scan_code_msg ovf rest code msg, x'), σ') /\
      meta_at σ' x' (scan_meta fmt rest (Some ((fmt <$> sm) ∪ default ∅ acc))) /\
      defs σ' = defs σ /\
      statusErrors σ' = statusErrors σ /\ withStatuses σ' = withStatuses σ).
    { intros sm. destruct x as [l|], acc as [m|]; try contradiction; simpl in Hx.
      - unfold bind at 1. unfold ret at 1.
        unfold bind at 1. rewrite (map_assign_all_run _ _ _ _ Hx).
        edestruct (IH code msg (Some l) (Some ((fmt <$> sm) ∪ m)))
          as (x' & σ' & -> & Hv & Hd & Hs & Hw);
          [|exists x', σ'; repeat split; eauto].
        simpl. apply list_lookup_insert_eq. eapply lookup_lt_Some; eauto.
      - unfold bind at 1. unfold bind at 1. unfold new_map at 1. unfold ret at 1.
        unfold bind at 1.
        rewrite (map_assign_all_run _ _ ∅) by (simpl; apply snoc_lookup).
        edestruct (IH code msg (Some (length (maps σ))) (Some ((fmt <$> sm) ∪ ∅)))
          as (x' & σ' & -> & Hv & Hd & Hs & Hw);
          [|exists x', σ'; repeat split; eauto].
        simpl. apply list_lookup_insert_eq. rewrite length_app; simpl; lia. }
    simpl.
    destruct d as [[sm|a|n]|]; try exact Hskip.
    destruct (anypb_UnmarshalTo_Struct a) as [sm|]; [|exact Hskip].
    destruct (structpb_AsMap sm !! "business_code") as [[]|]; try apply Hextra.
    apply IH. exact Hx.
Qed.

Lemma Extra_read σ p s acc :
  statusErrors σ !! p = Some s ->
  meta_at σ (ext_Extra (ext s)) acc ->
  exists l σ1,
    Extra_of (Ptr_statusError p) σ = Some (Some l, σ1) /\
    read_map (Some l) σ1 = Some (default ∅ acc, σ1).
Proof.
  intros Hp Hm. destruct (ext_Extra (ext s)) as [l|] eqn:Hx, acc as [m|];
    try contradiction; simpl in Hm.
  - exists l, σ. split; [apply (Extra_statusError_some _ _ _ _ Hp Hx)|].
    apply read_map_run, Hm.
  - eexists _, _. split; [apply (Extra_statusError_nil _ _ _ Hp Hx)|].
    apply read_map_run. simpl. apply snoc_lookup.
Qed.

(** The whole of [FromGRPCStatus]: it returns, for every envelope, a bare
    status error with the decoded code, the resolved decoded message, the
    registry's stability flag and the decoded metadata. *)
Lemma FromGRPCStatus_full fmt ovf st σ :
  exists p s σ',
    FromGRPCStatus fmt ovf st σ = Some (Ptr_statusError p, σ') /\
    statusErrors σ' !! p = Some s /\
    statusCode s = (decoded ovf st).1 /\
    message s = resolved (defs σ) (decoded ovf st).1 (decoded ovf st).2 /\
    ext_IsAffectStability (ext s)
    = IsAffectStability (GetCodeDefinition (defs σ) (decoded ovf st).1) /\
    meta_at σ' (ext_Extra (ext s)) (scan_meta fmt (status_Details st) None) /\
    withStatuses σ' = withStatuses σ.
Proof.
  unfold FromGRPCStatus.
  destruct (scan_details_meta fmt ovf (status_Details st) CodeInternalError
              (status_Message st) None None σ I) as (x' & σ1 & Hrun & Hv & Hd & Hs & Hw).
  unfold bind at 1. rewrite Hrun.
  destruct (scan_code_msg ovf (status_Details st) CodeInternalError (status_Message st))
    as [c m] eqn:E.
  destruct (NewStatusError_run fmt
              (if decide (c = CodeInternalError) then code_of_grpc (status_Code st) else c)
              m (data_string_map x') σ1) as (x & σ2 & Hnew & Hs2 & Hd2 & Hw2 & _ & -> & Hm2).
  eexists _, _, σ2. split; [exact Hnew|].
  split; [rewrite Hs2; apply snoc_lookup|].
  unfold decoded. rewrite E. simpl. rewrite Hd. repeat (split; [reflexivity|]).
  split; [|congruence].
  destruct x' as [l|], (scan_meta fmt (status_Details st) None) as [mm|];
    try contradiction; simpl in *; [|exact I].
  rewrite Hm2. apply lookup_app_l_Some, Hv.
Qed.

Lemma scan_code_msg_app ovf l1 l2 code msg :
  scan_code_msg ovf (l1 ++ l2)%list code msg
  = scan_code_msg ovf l2 (scan_code_msg ovf l1 code msg).1 (scan_code_msg ovf l1 code msg).2.
Proof.
  revert code msg. induction l1 as [|d l1 IH]; intros code msg; [reflexivity|].
  simpl. destruct d as [[sm|a|n]|]; try apply IH.
  destruct (anypb_UnmarshalTo_Struct a) as [sm|]; [|apply IH].
  destruct (structpb_AsMap sm !! "business_code") as [[]|]; apply IH.
Qed.

Lemma scan_code_msg_none ovf l code msg :
  forallb (fun d => negb (carries_code d)) l = true ->
  scan_code_msg ovf l code msg = (code, msg).
Proof.
  revert code msg. induction l as [|d l IH]; intros code msg H; [reflexivity|].
  simpl in H. apply andb_true_iff in H as [Hd Hl]. apply negb_true_iff in Hd.
  simpl. unfold carries_code in Hd.
  destruct d as [[sm|a|n]|]; try (apply IH; exact Hl).
  destruct (anypb_UnmarshalTo_Struct a) as [sm|]; [|apply IH; exact Hl].
  destruct (structpb_AsMap sm !! "business_code") as [[]|]; try discriminate; apply IH; exact Hl.
Qed.

(** X15: When no detail of the envelope yields a numeric [business_code],
    the decoded code is the inverse-table image of the transport code
    (internal-error for every code outside the five) and the decoded message
    is the envelope's, resolved against the registry. *)
Theorem FromGRPCStatus_without_business_code (Sprintf_v : any -> string)
    (int32_overflow : float64 -> Z) (st : option Status) (σ : State) :
  forallb (fun d => negb (carries_code d)) (status_Details st) = true ->
  exists e σ1,
    FromGRPCStatus Sprintf_v int32_overflow st σ = Some (e, σ1) /\
    Code e σ1 = Some (code_of_grpc (status_Code st), σ1) /\
    Msg e σ1
    = Some (resolved (defs σ) (code_of_grpc (status_Code st)) (status_Message st), σ1).
Proof.
  intros Hno.
  destruct (FromGRPCStatus_full Sprintf_v int32_overflow st σ)
    as (p & s & σ1 & Hrun & Hp & Hc & Hm & _).
  unfold decoded in Hc, Hm. rewrite (scan_code_msg_none _ _ _ _ Hno) in Hc, Hm.
  simpl in Hc, Hm.
  exists (Ptr_statusError p), σ1. split; [exact Hrun|].
  rewrite (Code_statusError _ _ _ Hp), (Msg_statusError _ _ _ Hp), Hc, Hm. auto.
Qed.

Lemma FromGRPCStatus_without_business_code_witness :
  forallb (fun d => negb (carries_code d))
    (status_Details
       (Some {| st_Code := codes.Unavailable; st_Message := "backend down";
                st_Details := [Any_invalid; Any_of (msg_other "google.rpc.RetryInfo");
                               wrap {[ "zone" := any_string "eu-1" ]}] |})) = true /\
  exists e σ1,
    FromGRPCStatus Sprintf_strings overflow_min
      (Some {| st_Code := codes.Unavailable; st_Message := "backend down";
               st_Details := [Any_invalid; Any_of (msg_other "google.rpc.RetryInfo");
                              wrap {[ "zone" := any_string "eu-1" ]}] |}) initial
    = Some (e, σ1) /\
    Code e σ1 = Some (code_of_grpc codes.Unavailable, σ1) /\
    Msg e σ1
    = Some (resolved (defs initial) (code_of_grpc codes.Unavailable) "backend down", σ1).
Proof.
  split; [reflexivity|].
  apply (FromGRPCStatus_without_business_code Sprintf_strings overflow_min
           (Some {| st_Code := codes.Unavailable; st_Message := "backend down";
                    st_Details := [Any_invalid; Any_of (msg_other "google.rpc.RetryInfo");
                                   wrap {[ "zone" := any_string "eu-1" ]}] |}) initial).
  reflexivity.
Defined.

(** X16: When the last detail that yields a numeric [business_code] holds
    a finite number there, which converts to a code other than
    internal-error, and has a string [business_msg], the decoded error has
    that code and that message, whatever the transport code, the envelope's
    message and the earlier details are. *)
Theorem FromGRPCStatus_business_code_wins (Sprintf_v : any -> string)
    (int32_overflow : float64 -> Z) (g : codes.Code) (m0 : string) (pre post : list Any)
    (sm : Struct) (mant exp : Z) (bizMsg : string) (σ : State) :
  sm !! "business_code" = Some (any_float64 (F64 mant exp)) ->
  sm !! "business_msg" = Some (any_string bizMsg) ->
  forallb (fun a => negb (carries_code (anypb_UnmarshalNew a))) post = true ->
  int32_of_float64 int32_overflow (F64 mant exp) <> CodeInternalError ->
  exists e σ1,
    FromGRPCStatus Sprintf_v int32_overflow
      (Some {| st_Code := g; st_Message := m0;
               st_Details := (pre ++ wrap sm :: post)%list |}) σ = Some (e, σ1) /\
    Code e σ1 = Some (int32_of_float64 int32_overflow (F64 mant exp), σ1) /\
    Msg e σ1
    = Some (resolved (defs σ) (int32_of_float64 int32_overflow (F64 mant exp)) bizMsg, σ1).
Proof.
  intros Hc Hm Hpost Hne.
  remember (int32_of_float64 int32_overflow (F64 mant exp)) as c eqn:Ec.
  destruct (FromGRPCStatus_full Sprintf_v int32_overflow
              (Some {| st_Code := g; st_Message := m0;
                       st_Details := (pre ++ wrap sm :: post)%list |}) σ)
    as (p & s & σ1 & Hrun & Hp & Hcode & Hmsg & _).
  assert (Hscan : scan_code_msg int32_overflow
                    (anypb_UnmarshalNew <$> (pre ++ wrap sm :: post)%list)
                    CodeInternalError m0
                  = (c, bizMsg)).
  { rewrite fmap_app, scan_code_msg_app. cbn [fmap list_fmap]. simpl.
    rewrite (AsMap_finite _ _ _ _ Hc), (AsMap_string _ _ _ Hm), <- Ec.
    apply scan_code_msg_none.
    rewrite forallb_forall in Hpost |- *. intros d Hd.
    apply in_map_iff in Hd as (a & <- & Ha). apply Hpost, Ha. }
  unfold decoded in Hcode, Hmsg. simpl in Hcode, Hmsg. rewrite Hscan in Hcode, Hmsg.
  simpl in Hcode, Hmsg.
  destruct (decide (c = CodeInternalError)); [contradiction|].
  exists (Ptr_statusError p), σ1. split; [exact Hrun|].
  rewrite (Code_statusError _ _ _ Hp), (Msg_statusError _ _ _ Hp), Hcode, Hmsg. auto.
Qed.

Lemma FromGRPCStatus_business_code_wins_witness :
  ({[ "business_code" := any_float64 (F64 2003 0);
      "business_msg" := any_string "slow down" ]} : Struct) !! "business_code"
  = Some (any_float64 (F64 2003 0)) /\
  ({[ "business_code" := any_float64 (F64 2003 0);
      "business_msg" := any_string "slow down" ]} : Struct) !! "business_msg"
  = Some (any_string "slow down") /\
  forallb (fun a => negb (carries_code (anypb_UnmarshalNew a))) [Any_invalid] = true /\
  int32_of_float64 overflow_min (F64 2003 0) <> CodeInternalError /\
  exists e σ1,
    FromGRPCStatus Sprintf_strings overflow_min
      (Some {| st_Code := codes.NotFound; st_Message := "transport text";
               st_Details :=
                 ([wrap {[ "business_code" := any_float64 (F64 1001 0) ]}]
                  ++ wrap {[ "business_code" := any_float64 (F64 2003 0);
                             "business_msg" := any_string "slow down" ]}
                  :: [Any_invalid])%list |}) initial = Some (e, σ1) /\
    Code e σ1 = Some (int32_of_float64 overflow_min (F64 2003 0), σ1) /\
    Msg e σ1
    = Some (resolved (defs initial) (int32_of_float64 overflow_min (F64 2003 0)) "slow down",
            σ1).
Proof.
  split; [reflexivity|]. split; [reflexivity|]. split; [reflexivity|].
  split; [discriminate|].
  apply (FromGRPCStatus_business_code_wins Sprintf_strings overflow_min codes.NotFound
           "transport text" [wrap {[ "business_code" := any_float64 (F64 1001 0) ]}]
           [Any_invalid]
           {[ "business_code" := any_float64 (F64 2003 0);
              "business_msg" := any_string "slow down" ]}
           2003 0 "slow down" initial);
    [reflexivity | reflexivity | reflexivity | discriminate].
Defined.

(** A [business_code] that is NaN or infinite is not read as a code: [AsMap]
    hands it back as a string, the assertion [.(float64)] fails, and the
    Struct is taken as metadata. *)
Lemma nonfinite_business_code_not_read (sm : Struct) (f : float64) :
  sm !! "business_code" = Some (any_float64 f) ->
  (forall m e, f <> F64 m e) ->
  carries_code (anypb_UnmarshalNew (wrap sm)) = false.
Proof.
  intros H Hf. cbn.
  destruct (structpb_AsMap sm !! "business_code") as [[]|] eqn:E; try reflexivity.
  apply AsMap_float64 in E as [E (m & e & ->)]. rewrite H in E. injection E as ->.
  exfalso. apply (Hf m e). reflexivity.
Qed.

Example FromGRPCStatus_NaN_business_code :
  fst <$> (let! e := FromGRPCStatus Sprintf_strings overflow_min
                       (Some {| st_Code := codes.NotFound; st_Message := "t";
                                st_Details :=
                                  [wrap {[ "business_code" := any_float64 F64_nan;
                                           "business_msg" := any_string "m" ]}] |}) in
           let! c := Code e in
           let! msg := Msg e in
           let! x := Extra_of e in
           let! kvs := read_map x in
           ret (c, msg, kvs)) initial
  = Some (CodeNotFound, "t", {[ "business_code" := "NaN"; "business_msg" := "m" ]}).
Proof. vm_compute. reflexivity. Qed.

Lemma bind_ext {A B} (m : M A) (k k' : A -> M B) σ :
  (forall a σ', k a σ' = k' a σ') -> bind m k σ = bind m k' σ.
Proof. intros H. unfold bind. destruct (m σ) as [[a σ']|]; [apply H | reflexivity]. Qed.

Lemma scan_details_usable fmt ovf (ds : list Any) : forall code msg x σ,
  scan_details fmt ovf (anypb_UnmarshalNew <$> ds) code msg x σ
  = scan_details fmt ovf (anypb_UnmarshalNew <$> List.filter usable ds) code msg x σ.
Proof.
  induction ds as [|a ds IH]; intros code msg x σ; [reflexivity|].
  destruct a as [[sm|[[sm|b|n]|]|n]|]; cbn [List.filter usable];
    try (cbn [fmap list_fmap anypb_UnmarshalNew scan_details anypb_UnmarshalTo_Struct];
         apply IH).
  cbn [fmap list_fmap anypb_UnmarshalNew scan_details anypb_UnmarshalTo_Struct].
  destruct (structpb_AsMap sm !! "business_code") as [[]|];
    try apply IH;
    (apply bind_ext; intros x0 σ0; apply bind_ext; intros _ σ1; apply IH).
Qed.

(** X17: Details that do not unpack, that are not an Any, or whose Any does
    not pack a Struct are skipped: decoding an envelope gives the same result
    and the same store as decoding it with those details removed. *)
Theorem FromGRPCStatus_skips_unusable (Sprintf_v : any -> string)
    (int32_overflow : float64 -> Z) (g : codes.Code) (m0 : string) (ds : list Any)
    (σ : State) :
  FromGRPCStatus Sprintf_v int32_overflow
    (Some {| st_Code := g; st_Message := m0; st_Details := ds |}) σ
  = FromGRPCStatus Sprintf_v int32_overflow
      (Some {| st_Code := g; st_Message := m0; st_Details := List.filter usable ds |}) σ.
Proof.
  unfold FromGRPCStatus. cbn [status_Details status_Message status_Code st_Details st_Code
    st_Message].
  unfold bind. rewrite (scan_details_usable Sprintf_v int32_overflow ds).
  reflexivity.
Qed.

(** ** Metadata across the wire *)

Lemma NewStruct_strings (kvs : gmap string string) :
  structpb_NewStruct (any_string <$> kvs)
  = if decide (all_utf8 kvs) then Some (any_string <$> kvs) else None.
Proof.
  unfold structpb_NewStruct, all_utf8.
  destruct (decide (map_Forall (fun k v => utf8_ValidString k = true /\
                                           utf8_ValidString v = true) kvs)) as [H|H];
    case_decide as H'.
  - f_equal. apply map_eq. intros k. rewrite lookup_omap, lookup_fmap.
    destruct (kvs !! k) as [v|] eqn:E; [|reflexivity]. simpl.
    destruct (H k v E) as [_ ->]. reflexivity.
  - exfalso. apply H'. intros k x Hx. rewrite lookup_fmap in Hx.
    destruct (kvs !! k) as [v|] eqn:E; [|discriminate]. injection Hx as <-.
    destruct (H k v E) as [Hk Hv]. split; [exact Hk|]. simpl. rewrite Hv. eauto.
  - exfalso. apply H. intros k v E.
    destruct (H' k (any_string v)) as [Hk [y Hy]]; [rewrite lookup_fmap, E; reflexivity|].
    split; [exact Hk|]. simpl in Hy. destruct (utf8_ValidString v); [reflexivity|discriminate].
  - reflexivity.
Qed.

Lemma scan_meta_business fmt c msg acc :
  scan_meta fmt (anypb_UnmarshalNew <$> attached (business_info c msg)) acc = acc.
Proof.
  unfold attached. rewrite NewStruct_business.
  destruct (utf8_ValidString msg); [|reflexivity].
  simpl. unfold structpb_AsMap. rewrite lookup_fmap, lookup_omap. unfold business_info.
  rewrite lookup_insert_eq. reflexivity.
Qed.

Lemma scan_meta_app fmt l1 l2 acc :
  scan_meta fmt (l1 ++ l2)%list acc = scan_meta fmt l2 (scan_meta fmt l1 acc).
Proof.
  revert acc. induction l1 as [|d l1 IH]; intros acc; [reflexivity|].
  simpl. destruct d as [[sm|a|n]|]; try apply IH.
  destruct (anypb_UnmarshalTo_Struct a) as [sm|]; [|apply IH].
  destruct (structpb_AsMap sm !! "business_code") as [[]|]; apply IH.
Qed.

Lemma fmap_strings_back (fmt : any -> string) (kvs : gmap string string) :
  (forall s, fmt (any_string s) = s) -> fmt <$> (any_string <$> kvs) = kvs.
Proof.
  intros H. apply map_eq. intros k. rewrite !lookup_fmap.
  destruct (kvs !! k); simpl; [rewrite H|]; reflexivity.
Qed.

Lemma scan_meta_encoded fmt c msg kvs :
  (forall s, fmt (any_string s) = s) ->
  default ∅ (scan_meta fmt (status_Details (encoded c msg kvs)) None)
  = if decide (all_utf8 kvs) then kvs else ∅.
Proof.
  intros Hfmt. unfold encoded. cbn [status_Details st_Details].
  rewrite fmap_app, scan_meta_app, scan_meta_business.
  destruct (0 <? size kvs)%nat eqn:Hsz.
  - unfold attached. rewrite NewStruct_strings.
    destruct (decide (all_utf8 kvs)); [|reflexivity].
    simpl. rewrite AsMap_strings, lookup_fmap.
    destruct (kvs !! "business_code"); simpl;
      rewrite (fmap_strings_back fmt kvs Hfmt), (right_id_L ∅ (∪)); reflexivity.
  - apply Nat.ltb_ge in Hsz. assert (kvs = ∅) as -> by (apply map_size_empty_inv; lia).
    simpl. destruct (decide (all_utf8 ∅)); reflexivity.
Qed.

(** What [ToGRPCStatus] returns for any non-nil [StatusError] whose methods
    return. *)
Lemma ToGRPCStatus_gen e c msg x kvs σ σ1 :
  e <> nil_error ->
  Code e σ = Some (c, σ) -> Msg e σ = Some (msg, σ) ->
  Extra_of e σ = Some (x, σ1) -> read_map x σ1 = Some (kvs, σ1) ->
  Code e σ1 = Some (c, σ1) -> Msg e σ1 = Some (msg, σ1) ->
  ToGRPCStatus e σ = Some (encoded c msg kvs, σ1).
Proof.
  intros He Hc Hm Hx Hr Hc1 Hm1.
  assert (H : ToGRPCStatus e σ
    = bind (Code e) (fun c =>
        bind (Msg e) (fun msg =>
          bind (Extra_of e) (fun extra =>
            bind (read_map extra) (fun kvs =>
              bind (Code e) (fun c' =>
                bind (Msg e) (fun msg' =>
                  ret (attach
                         (if (0 <? size kvs)%nat
                          then attach (status_New (grpc_of_code c) msg) (any_string <$> kvs)
                          else status_New (grpc_of_code c) msg)
                         ({[ "business_code" := any_int32 c';
                             "business_msg" := any_string msg' ]} : gmap string any)))))))) σ)
    by (destruct e; [contradiction|..]; reflexivity).
  rewrite H.
  rewrite (bind_run _ _ _ _ _ Hc), (bind_run _ _ _ _ _ Hm), (bind_run _ _ _ _ _ Hx),
    (bind_run _ _ _ _ _ Hr), (bind_run _ _ _ _ _ Hc1), (bind_run _ _ _ _ _ Hm1).
  unfold ret, encoded, status_New. f_equal. f_equal.
  destruct (0 <? size kvs)%nat.
  - rewrite attach_run by apply grpc_of_code_not_OK. simpl.
    rewrite attach_run by apply grpc_of_code_not_OK. reflexivity.
  - rewrite attach_run by apply grpc_of_code_not_OK. reflexivity.
Qed.

Lemma wrapper_is_grow w sp l wv code a msg kvs m σ :
  wrapper_is w sp l wv code a msg kvs σ ->
  wrapper_is w sp l wv code a msg kvs (set_maps (fun t => (t ++ [m])%list) σ).
Proof.
  intros (Hw & Hs & Hp & Hm). unfold wrapper_is. simpl.
  repeat split; try assumption. apply lookup_app_l_Some, Hm.
Qed.

(** Encoding any error whose metadata reads as [kvs], then decoding. *)
Lemma decode_encoded_metadata fmt ovf c msg kvs σ2 :
  (forall s, fmt (any_string s) = s) ->
  exists e' σ3 l' σ4,
    FromGRPCStatus fmt ovf (encoded c msg kvs) σ2 = Some (e', σ3) /\
    Extra_of e' σ3 = Some (Some l', σ4) /\
    read_map (Some l') σ4 = Some (if decide (all_utf8 kvs) then kvs else ∅, σ4).
Proof.
  intros Hfmt.
  destruct (FromGRPCStatus_full fmt ovf (encoded c msg kvs) σ2)
    as (p & s & σ3 & Hrun & Hp & _ & _ & _ & Hmeta & _).
  destruct (Extra_read _ _ _ _ Hp Hmeta) as (l' & σ4 & Hx & Hr).
  rewrite (scan_meta_encoded fmt c msg kvs Hfmt) in Hr.
  exists (Ptr_statusError p), σ3, l', σ4. auto.
Qed.

Lemma encode_string_map fmt c msg l kvs σ :
  maps σ !! l = Some kvs ->
  exists e σ1 σ2,
    NewStatusError fmt c msg (data_string_map (Some l)) σ = Some (e, σ1) /\
    ToGRPCStatus e σ1 = Some (encoded c (resolved (defs σ) c msg) kvs, σ2).
Proof.
  intros Hl.
  destruct (NewStatusError_run fmt c msg (data_string_map (Some l)) σ)
    as (x & σ1 & Hnew & Hs & _ & _ & _ & -> & Hm).
  assert (Hl1 : maps σ1 !! l = Some kvs) by (rewrite Hm; apply lookup_app_l_Some, Hl).
  pose proof (snoc_lookup (statusErrors σ)
    {| statusCode := c; message := resolved (defs σ) c msg;
       ext := {| ext_IsAffectStability := IsAffectStability (GetCodeDefinition (defs σ) c);
                 ext_Extra := Some l |} |}) as Hp.
  rewrite <- Hs in Hp.
  eexists _, σ1, σ1. split; [exact Hnew|].
  apply (ToGRPCStatus_gen _ c (resolved (defs σ) c msg) (Some l) kvs σ1 σ1);
    [discriminate
    | apply (Code_statusError _ _ _ Hp) | apply (Msg_statusError _ _ _ Hp)
    | apply (Extra_statusError_some _ _ _ _ Hp); reflexivity
    | apply (read_map_run _ _ _ Hl1)
    | apply (Code_statusError _ _ _ Hp) | apply (Msg_statusError _ _ _ Hp)].
Qed.

(** X18: The metadata of a status error built on a [map[string]string] whose
    keys and values are all valid UTF-8 comes back unchanged from encoding
    and decoding, when [%v] prints a string as it is. *)
Theorem metadata_round_trip (Sprintf_v : any -> string) (int32_overflow : float64 -> Z)
    (c : Z) (msg : string) (l : loc) (kvs : gmap string string) (σ : State) :
  (forall s, Sprintf_v (any_string s) = s) ->
  maps σ !! l = Some kvs ->
  all_utf8 kvs ->
  exists e σ1 st σ2 e' σ3 l' σ4,
    NewStatusError Sprintf_v c msg (data_string_map (Some l)) σ = Some (e, σ1) /\
    ToGRPCStatus e σ1 = Some (st, σ2) /\
    FromGRPCStatus Sprintf_v int32_overflow st σ2 = Some (e', σ3) /\
    Extra_of e' σ3 = Some (Some l', σ4) /\
    read_map (Some l') σ4 = Some (kvs, σ4).
Proof.
  intros Hfmt Hl Hu.
  destruct (encode_string_map Sprintf_v c msg l kvs σ Hl) as (e & σ1 & σ2 & Hnew & Hto).
  destruct (decode_encoded_metadata Sprintf_v int32_overflow c (resolved (defs σ) c msg)
              kvs σ2 Hfmt) as (e' & σ3 & l' & σ4 & Hfrom & Hx & Hr).
  destruct (decide (all_utf8 kvs)); [|contradiction].
  eexists e, σ1, _, σ2, e', σ3, l', σ4. eauto 10.
Qed.

(** X19: If one key or value of the metadata is not valid UTF-8, the whole
    metadata attachment is left out: the decoded error has empty metadata. *)
Theorem metadata_dropped_as_a_whole (Sprintf_v : any -> string)
    (int32_overflow : float64 -> Z) (c : Z) (msg : string) (l : loc)
    (kvs : gmap string string) (σ : State) :
  (forall s, Sprintf_v (any_string s) = s) ->
  maps σ !! l = Some kvs ->
  ~ all_utf8 kvs ->
  exists e σ1 st σ2 e' σ3 l' σ4,
    NewStatusError Sprintf_v c msg (data_string_map (Some l)) σ = Some (e, σ1) /\
    ToGRPCStatus e σ1 = Some (st, σ2) /\
    FromGRPCStatus Sprintf_v int32_overflow st σ2 = Some (e', σ3) /\
    Extra_of e' σ3 = Some (Some l', σ4) /\
    read_map (Some l') σ4 = Some (∅, σ4).
Proof.
  intros Hfmt Hl Hu.
  destruct (encode_string_map Sprintf_v c msg l kvs σ Hl) as (e & σ1 & σ2 & Hnew & Hto).
  destruct (decode_encoded_metadata Sprintf_v int32_overflow c (resolved (defs σ) c msg)
              kvs σ2 Hfmt) as (e' & σ3 & l' & σ4 & Hfrom & Hx & Hr).
  destruct (decide (all_utf8 kvs)); [contradiction|].
  eexists e, σ1, _, σ2, e', σ3, l', σ4. eauto 10.
Qed.

(** X20: Encoding a wrapper sends what its [Extra()] returns, so a
    non-empty captured stack crosses the wire exactly when the wrapper
    stores a non-nil metadata map: the decoded error's metadata is then the
    stored metadata with the stack under the key ["stack"]. When the stored
    map is nil, [Extra()] is empty, and the decoded metadata is empty: the
    stack is not sent. *)
Theorem stack_crosses_the_wire (Sprintf_v : any -> string) (int32_overflow : float64 -> Z)
    (w sp : loc) (wv : withStatus) (code : Z) (a : bool) (msg : string)
    (x : option loc) (stored : option (gmap string string)) (σ : State) :
  (forall s, Sprintf_v (any_string s) = s) ->
  withStatuses σ !! w = Some wv ->
  status wv = Some sp ->
  statusErrors σ !! sp
  = Some {| statusCode := code; message := msg;
            ext := {| ext_IsAffectStability := a; ext_Extra := x |} |} ->
  meta_at σ x stored ->
  stack wv <> "" ->
  all_utf8 (match stored with
            | Some kvs => <["stack" := stack wv]> kvs
            | None => ∅
            end) ->
  exists st σ1 e' σ2 l' σ3,
    ToGRPCStatus (Ptr_withStatus w) σ = Some (st, σ1) /\
    FromGRPCStatus Sprintf_v int32_overflow st σ1 = Some (e', σ2) /\
    Extra_of e' σ2 = Some (Some l', σ3) /\
    read_map (Some l') σ3
    = Some (match stored with
            | Some kvs => <["stack" := stack wv]> kvs
            | None => ∅
            end, σ3).
Proof.
  intros Hfmt Hw Hs Hp Hmeta Hstk Hu.
  set (kvs' := match stored with
               | Some kvs => <["stack" := stack wv]> kvs
               | None => ∅
               end) in *.
  set (σ1 := set_maps (fun t => (t ++ [kvs'])%list) σ).
  assert (Hreads : forall σ0,
    withStatuses σ0 = withStatuses σ -> statusErrors σ0 = statusErrors σ ->
    Code (Ptr_withStatus w) σ0 = Some (code, σ0) /\
    Msg (Ptr_withStatus w) σ0 = Some (msg, σ0)).
  { intros σ0 E1 E2. simpl. unfold withStatus_Code, withStatus_Msg. run_M.
    rewrite E1, Hw. simpl. rewrite Hs, E2, Hp. auto. }
  destruct (Hreads σ eq_refl eq_refl) as [Hc Hmsg].
  destruct (Hreads σ1 eq_refl eq_refl) as [Hc1 Hmsg1].
  assert (Hx : Extra_of (Ptr_withStatus w) σ = Some (Some (length (maps σ)), σ1)).
  { subst σ1 kvs'. destruct x as [l|], stored as [kvs|]; try contradiction.
    - simpl in Hmeta. simpl.
      rewrite (withStatus_Extra_copy _ _ _ _ _ _ _ Hw Hs Hp eq_refl Hmeta).
      destruct (decide (stack wv = "")); [contradiction | reflexivity].
    - simpl. apply (withStatus_Extra_nil _ _ _ _ _ Hw Hs Hp eq_refl). }
  assert (Hto : ToGRPCStatus (Ptr_withStatus w) σ = Some (encoded code msg kvs', σ1)).
  { apply (ToGRPCStatus_gen _ code msg (Some (length (maps σ))) kvs' σ σ1);
      [discriminate | exact Hc | exact Hmsg | exact Hx
      | apply read_map_run; simpl; apply snoc_lookup
      | exact Hc1 | exact Hmsg1]. }
  destruct (decode_encoded_metadata Sprintf_v int32_overflow code msg kvs' σ1 Hfmt)
    as (e' & σ2 & l' & σ3 & Hfrom & Hx' & Hr).
  destruct (decide (all_utf8 kvs')); [|contradiction].
  eexists _, σ1, e', σ2, l', σ3. eauto 10.
Qed.

Lemma metadata_round_trip_witness :
  (forall s, Sprintf_strings (any_string s) = s) /\
  maps (set_maps (fun t => (t ++ [{[ "tenant" := "acme" ]}])%list) initial) !! 0%nat
  = Some {[ "tenant" := "acme" ]} /\
  all_utf8 {[ "tenant" := "acme" ]} /\
  exists e σ1 st σ2 e' σ3 l' σ4,
    NewStatusError Sprintf_strings CodeForbidden "" (data_string_map (Some 0%nat))
      (set_maps (fun t => (t ++ [{[ "tenant" := "acme" ]}])%list) initial) = Some (e, σ1) /\
    ToGRPCStatus e σ1 = Some (st, σ2) /\
    FromGRPCStatus Sprintf_strings overflow_min st σ2 = Some (e', σ3) /\
    Extra_of e' σ3 = Some (Some l', σ4) /\
    read_map (Some l') σ4 = Some ({[ "tenant" := "acme" ]}, σ4).
Proof.
  split; [intros s; reflexivity|]. split; [reflexivity|].
  split; [apply (bool_decide_unpack _); vm_compute; exact I|].
  apply (metadata_round_trip Sprintf_strings overflow_min CodeForbidden "" 0%nat
           {[ "tenant" := "acme" ]}
           (set_maps (fun t => (t ++ [{[ "tenant" := "acme" ]}])%list) initial));
    [intros s; reflexivity | reflexivity | apply (bool_decide_unpack _); vm_compute; exact I].
Defined.

Lemma metadata_dropped_as_a_whole_witness :
  (forall s, Sprintf_strings (any_string s) = s) /\
  maps (set_maps (fun t => (t ++ [{[ "tenant" := "acme"; "raw" := invalid_utf8 ]}])%list)
          initial) !! 0%nat
  = Some {[ "tenant" := "acme"; "raw" := invalid_utf8 ]} /\
  ~ all_utf8 {[ "tenant" := "acme"; "raw" := invalid_utf8 ]} /\
  exists e σ1 st σ2 e' σ3 l' σ4,
    NewStatusError Sprintf_strings CodeForbidden "" (data_string_map (Some 0%nat))
      (set_maps (fun t => (t ++ [{[ "tenant" := "acme"; "raw" := invalid_utf8 ]}])%list)
         initial) = Some (e, σ1) /\
    ToGRPCStatus e σ1 = Some (st, σ2) /\
    FromGRPCStatus Sprintf_strings overflow_min st σ2 = Some (e', σ3) /\
    Extra_of e' σ3 = Some (Some l', σ4) /\
    read_map (Some l') σ4 = Some (∅, σ4).
Proof.
  split; [intros s; reflexivity|]. split; [reflexivity|].
  split; [apply (bool_decide_unpack _); vm_compute; exact I|].
  apply (metadata_dropped_as_a_whole Sprintf_strings overflow_min CodeForbidden "" 0%nat
           {[ "tenant" := "acme"; "raw" := invalid_utf8 ]}
           (set_maps (fun t => (t ++ [{[ "tenant" := "acme"; "raw" := invalid_utf8 ]}])%list)
              initial));
    [intros s; reflexivity | reflexivity | apply (bool_decide_unpack _); vm_compute; exact I].
Defined.

Lemma stack_crosses_the_wire_witness :
  (forall s, Sprintf_strings (any_string s) = s) /\
  (withStatuses (after (NewWithStatus sample_stack CodeNotFound "gone" [Extra "k" "v"]) initial)
     !! 0%nat
   = Some {| status := Some 0%nat; stack := captureStack sample_stack 2;
             cause := nil_error |} /\
   statusErrors (after (NewWithStatus sample_stack CodeNotFound "gone" [Extra "k" "v"]) initial)
     !! 0%nat
   = Some {| statusCode := CodeNotFound; message := "gone";
             ext := {| ext_IsAffectStability := false; ext_Extra := Some 0%nat |} |} /\
   meta_at (after (NewWithStatus sample_stack CodeNotFound "gone" [Extra "k" "v"]) initial)
     (Some 0%nat) (Some {[ "k" := "v" ]}) /\
   captureStack sample_stack 2 <> "" /\
   all_utf8 (<["stack" := captureStack sample_stack 2]> {[ "k" := "v" ]}) /\
   exists st σ1 e' σ2 l' σ3,
     ToGRPCStatus (Ptr_withStatus 0)
       (after (NewWithStatus sample_stack CodeNotFound "gone" [Extra "k" "v"]) initial)
     = Some (st, σ1) /\
     FromGRPCStatus Sprintf_strings overflow_min st σ1 = Some (e', σ2) /\
     Extra_of e' σ2 = Some (Some l', σ3) /\
     read_map (Some l') σ3
     = Some (<["stack" := captureStack sample_stack 2]> {[ "k" := "v" ]}, σ3)) /\
  (withStatuses (after (wrapped_decoded Sprintf_strings overflow_min) initial) !! 0%nat
   = Some {| status := Some 0%nat; stack := captureStack sample_stack 2;
             cause := nil_error |} /\
   statusErrors (after (wrapped_decoded Sprintf_strings overflow_min) initial) !! 0%nat
   = Some {| statusCode := CodeNotFound; message := "gone";
             ext := {| ext_IsAffectStability := false; ext_Extra := None |} |} /\
   exists st σ1 e' σ2 l' σ3,
     ToGRPCStatus (Ptr_withStatus 0)
       (after (wrapped_decoded Sprintf_strings overflow_min) initial)
     = Some (st, σ1) /\
     FromGRPCStatus Sprintf_strings overflow_min st σ1 = Some (e', σ2) /\
     Extra_of e' σ2 = Some (Some l', σ3) /\
     read_map (Some l') σ3 = Some (∅, σ3)).
Proof.
  split; [intros s; reflexivity|]. split.
  - split; [reflexivity|]. split; [reflexivity|]. split; [reflexivity|].
    split; [discriminate|].
    split; [apply (bool_decide_unpack _); vm_compute; exact I|].
    apply (stack_crosses_the_wire Sprintf_strings overflow_min 0%nat 0%nat
             {| status := Some 0%nat; stack := captureStack sample_stack 2;
                cause := nil_error |}
             CodeNotFound false "gone" (Some 0%nat) (Some {[ "k" := "v" ]})
             (after (NewWithStatus sample_stack CodeNotFound "gone" [Extra "k" "v"]) initial));
      [intros s; reflexivity | reflexivity | reflexivity | reflexivity | reflexivity
      | discriminate | apply (bool_decide_unpack _); vm_compute; exact I].
  - split; [reflexivity|]. split; [reflexivity|].
    apply (stack_crosses_the_wire Sprintf_strings overflow_min 0%nat 0%nat
             {| status := Some 0%nat; stack := captureStack sample_stack 2;
                cause := nil_error |}
             CodeNotFound false "gone" None None
             (after (wrapped_decoded Sprintf_strings overflow_min) initial));
      [intros s; reflexivity | reflexivity | reflexivity | reflexivity | exact I
      | discriminate | apply (bool_decide_unpack _); vm_compute; exact I].
Defined.

(** ** helper.go *)

(** X21: [ToGRPCError], [LogAndReturnError] and [WrapAndLogError] return nil
    for a nil error, log nothing and leave the store alone, whereas
    [ToGRPCStatus(nil)] is a status with the code internal. *)
Theorem helpers_nil_in_nil_out (stk : list Frame) (code : Z) (message : string)
    (opts : list Option) (σ : State) :
  ToGRPCError nil_error σ = Some (None, σ) /\
  LogAndReturnError nil_error σ = Some (([], None), σ) /\
  WrapAndLogError stk nil_error code message opts σ = Some (([], None), σ) /\
  (exists st, ToGRPCStatus nil_error σ = Some (Some st, σ) /\ st_Code st = codes.Internal).
Proof. repeat split. eexists. split; reflexivity. Qed.

Lemma status_Err_encoded c msg kvs : status_Err (encoded c msg kvs) = encoded c msg kvs.
Proof.
  unfold status_Err, encoded. cbn [status_Code st_Code].
  pose proof (grpc_of_code_not_OK c) as H. destruct (grpc_of_code c); try reflexivity.
  contradiction.
Qed.

Lemma LogAndReturnError_wrapper w sp l wv code a msg kvs σ :
  wrapper_is w sp l wv code a msg kvs σ ->
  exists σ',
    LogAndReturnError (Ptr_withStatus w) σ
    = Some (([{| log_level := if a then ErrorLevel else WarnLevel;
                 log_msg := if a then "业务错误（影响稳定性）" else "业务错误";
                 log_fields :=
                   ([zap_Int32 "error_code" code; zap_String "error_msg" msg;
                     zap_Bool "affect_stability" a]
                    ++ (if (0 <? size (with_stack (stack wv) kvs))%nat
                        then [zap_Any "extra" (with_stack (stack wv) kvs)] else []))%list |}],
             encoded code msg (with_stack (stack wv) kvs)), σ') /\
    wrapper_is w sp l wv code a msg kvs σ'.
Proof.
  intros Hok. pose proof Hok as (Hw & Hs & Hp & Hm).
  set (kvs' := with_stack (stack wv) kvs).
  set (σ1 := set_maps (fun t => (t ++ [kvs'])%list) σ).
  set (σ2 := set_maps (fun t => (t ++ [kvs'])%list) σ1).
  assert (Hok1 : wrapper_is w sp l wv code a msg kvs σ1) by (apply wrapper_is_grow, Hok).
  assert (Hok2 : wrapper_is w sp l wv code a msg kvs σ2) by (apply wrapper_is_grow, Hok1).
  pose proof (wrapper_is_reads _ _ _ _ _ _ _ _ _ Hok) as (Hc & Hmsg & Ha & _).
  pose proof (wrapper_is_reads _ _ _ _ _ _ _ _ _ Hok1) as (Hc1 & Hmsg1 & Ha1 & _).
  pose proof (wrapper_is_reads _ _ _ _ _ _ _ _ _ Hok2) as (Hc2 & Hmsg2 & _).
  pose proof Hok1 as (Hw1 & _ & Hp1 & Hm1).
  assert (Hto : ToGRPCStatus (Ptr_withStatus w) σ1 = Some (encoded code msg kvs', σ2)).
  { apply (ToGRPCStatus_gen _ code msg (Some (length (maps σ1))) kvs' σ1 σ2);
      [discriminate | exact Hc1 | exact Hmsg1
      | apply (withStatus_Extra_copy _ _ _ _ _ _ _ Hw1 Hs Hp1 eq_refl Hm1)
      | apply read_map_run; simpl; apply snoc_lookup
      | exact Hc2 | exact Hmsg2]. }
  exists σ2. split; [|exact Hok2].
  unfold LogAndReturnError.
  rewrite (bind_run _ _ _ _ _ Hc), (bind_run _ _ _ _ _ Hmsg), (bind_run _ _ _ _ _ Ha).
  cbn [Extra_of].
  rewrite (bind_run _ _ _ _ _ (withStatus_Extra_copy _ _ _ _ _ _ _ Hw Hs Hp eq_refl Hm)).
  fold kvs' σ1.
  assert (Hr : read_map (Some (length (maps σ))) σ1 = Some (kvs', σ1))
    by (apply read_map_run; simpl; apply snoc_lookup).
  rewrite (bind_run _ _ _ _ _ Hr), (bind_run _ _ _ _ _ Ha1).
  unfold ToGRPCError. rewrite (bind_run _ _ _ _ _ (bind_run _ _ _ _ _ Hto)).
  unfold ret. rewrite status_Err_encoded.
  destruct a, (0 <? size kvs')%nat; reflexivity.
Qed.

(** X22: [NewAndLogError] makes exactly one call on the logger, at the error
    level if the registry marks the code as affecting stability (so also for
    an unregistered code) and at the warning level otherwise, with the
    fields [error_code], [error_msg], [affect_stability] and, when it is not
    empty, [extra] (the metadata with the stack); it returns a non-nil gRPC
    error with the transport code of the code and the final message. *)
Theorem NewAndLogError_spec (stk : list Frame) (code : Z) (msg : string)
    (bs : list builtin) (σ : State) :
  exists call st σ',
    NewAndLogError stk code msg (to_Option <$> bs) σ = Some (([call], Some st), σ') /\
    log_level call
    = (if IsAffectStability (GetCodeDefinition (defs σ) code) then ErrorLevel else WarnLevel) /\
    log_fields call
    = ([zap_Int32 "error_code" code;
        zap_String "error_msg" (foldl option_message (resolved (defs σ) code msg) bs);
        zap_Bool "affect_stability" (IsAffectStability (GetCodeDefinition (defs σ) code))]
       ++ (if (0 <? size (with_stack (captureStack stk 2) (foldl option_metadata ∅ bs)))%nat
           then [zap_Any "extra" (with_stack (captureStack stk 2) (foldl option_metadata ∅ bs))]
           else []))%list /\
    st_Code st = grpc_of_code code /\
    st_Message st = foldl option_message (resolved (defs σ) code msg) bs.
Proof.
  destruct (options_run nil_error stk code msg bs σ) as (σ1 & Hrun & Hok).
  rewrite <- NewWithStatus_built in Hrun.
  unfold NewAndLogError. rewrite (bind_run _ _ _ _ _ Hrun).
  destruct (LogAndReturnError_wrapper _ _ _ _ _ _ _ _ _ Hok) as (σ' & Hlog & _).
  rewrite Hlog. cbn [stack].
  eexists _, _, σ'. split; [reflexivity|].
  cbn [log_level log_fields st_Code st_Message].
  split; [destruct (IsAffectStability _); reflexivity|]. auto.
Qed.

(** X23: For a non-nil cause, [WrapAndLogError] logs and returns as
    [NewAndLogError] does: one call, the level taken from the registry, the
    final message in the field and in the returned status. The text of the
    cause is in neither. *)
Theorem WrapAndLogError_spec (stk : list Frame) (err : error) (code : Z) (msg : string)
    (bs : list builtin) (σ : State) :
  err <> nil_error ->
  exists call st σ',
    WrapAndLogError stk err code msg (to_Option <$> bs) σ = Some (([call], Some st), σ') /\
    log_level call
    = (if IsAffectStability (GetCodeDefinition (defs σ) code) then ErrorLevel else WarnLevel) /\
    log_fields call
    = ([zap_Int32 "error_code" code;
        zap_String "error_msg" (foldl option_message (resolved (defs σ) code msg) bs);
        zap_Bool "affect_stability" (IsAffectStability (GetCodeDefinition (defs σ) code))]
       ++ (if (0 <? size (with_stack (captureStack stk 2) (foldl option_metadata ∅ bs)))%nat
           then [zap_Any "extra" (with_stack (captureStack stk 2) (foldl option_metadata ∅ bs))]
           else []))%list /\
    st_Code st = grpc_of_code code /\
    st_Message st = foldl option_message (resolved (defs σ) code msg) bs.
Proof.
  intros He.
  destruct (options_run err stk code msg bs σ) as (σ1 & Hrun & Hok).
  rewrite <- (WrapWithStatusOptions_built _ _ _ _ _ _ He) in Hrun.
  assert (H : WrapAndLogError stk err code msg (to_Option <$> bs) σ
              = bind (WrapWithStatusOptions stk err code msg (to_Option <$> bs))
                  LogAndReturnError σ)
    by (destruct err; [contradiction|..]; reflexivity).
  rewrite H, (bind_run _ _ _ _ _ Hrun).
  destruct (LogAndReturnError_wrapper _ _ _ _ _ _ _ _ _ Hok) as (σ' & Hlog & _).
  rewrite Hlog. cbn [stack].
  eexists _, _, σ'. split; [reflexivity|].
  cbn [log_level log_fields st_Code st_Message].
  split; [destruct (IsAffectStability _); reflexivity|]. auto.
Qed.

Lemma WrapAndLogError_spec_witness :
  Foreign "connection reset" None nil_error <> nil_error /\
  exists call st σ',
    WrapAndLogError sample_stack (Foreign "connection reset" None nil_error) 31337
      "{op} failed" (to_Option <$> [opt_Param "op" "read"]) initial
    = Some (([call], Some st), σ') /\
    log_level call
    = (if IsAffectStability (GetCodeDefinition (defs initial) 31337)
       then ErrorLevel else WarnLevel) /\
    log_fields call
    = ([zap_Int32 "error_code" 31337;
        zap_String "error_msg"
          (foldl option_message (resolved (defs initial) 31337 "{op} failed")
             [opt_Param "op" "read"]);
        zap_Bool "affect_stability" (IsAffectStability (GetCodeDefinition (defs initial) 31337))]
       ++ (if (0 <? size (with_stack (captureStack sample_stack 2)
                            (foldl option_metadata ∅ [opt_Param "op" "read"])))%nat
           then [zap_Any "extra" (with_stack (captureStack sample_stack 2)
                                    (foldl option_metadata ∅ [opt_Param "op" "read"]))]
           else []))%list /\
    st_Code st = grpc_of_code 31337 /\
    st_Message st
    = foldl option_message (resolved (defs initial) 31337 "{op} failed")
        [opt_Param "op" "read"].
Proof.
  split; [discriminate|].
  apply (WrapAndLogError_spec sample_stack (Foreign "connection reset" None nil_error) 31337
           "{op} failed" [opt_Param "op" "read"] initial).
  discriminate.
Defined.

(** An unregistered code is logged at the error level; the cause's text is
    neither logged nor sent. *)
Example WrapAndLogError_unknown_code :
  fst <$> WrapAndLogError sample_stack (Foreign "connection reset" None nil_error) 31337
            "{op} failed" [Param "op" "read"] initial
  = Some ([{| log_level := ErrorLevel; log_msg := "业务错误（影响稳定性）";
              log_fields :=
                [zap_Int32 "error_code" 31337; zap_String "error_msg" "read failed";
                 zap_Bool "affect_stability" true;
                 zap_Any "extra" {[ "stack" := captureStack sample_stack 2 ]}] |}],
          encoded 31337 "read failed" {[ "stack" := captureStack sample_stack 2 ]}).
Proof. vm_compute. reflexivity. Qed.

(** ** [Extra()] of a wrapper *)

(** X24: For a wrapper that stores a non-nil map, [Extra()] returns a map that
    was not allocated before, equal to the stored metadata on every key but
    ["stack"], where it holds the captured stack when there is one (a user
    entry under ["stack"] is shadowed); the stored metadata is unchanged. *)
Theorem wrapper_Extra_contents (w sp l : loc) (wv : withStatus) (code : Z) (a : bool)
    (msg : string) (kvs : gmap string string) (σ : State) :
  wrapper_is w sp l wv code a msg kvs σ ->
  exists l' σ' m,
    Extra_of (Ptr_withStatus w) σ = Some (Some l', σ') /\
    maps σ !! l' = None /\
    read_map (Some l') σ' = Some (m, σ') /\
    m !! "stack" = (if decide (stack wv = "") then kvs !! "stack" else Some (stack wv)) /\
    (forall k, k <> "stack" -> m !! k = kvs !! k) /\
    stored_Extra w σ' = Some (kvs, σ').
Proof.
  intros Hok. pose proof Hok as (Hw & Hs & Hp & Hm).
  eexists _, _, _. split; [apply (withStatus_Extra_copy _ _ _ _ _ _ _ Hw Hs Hp eq_refl Hm)|].
  split; [apply lookup_ge_None; lia|].
  split; [apply read_map_run; simpl; apply snoc_lookup|].
  split; [|split].
  - destruct (decide (stack wv = "")); [reflexivity | apply lookup_insert_eq].
  - intros k Hk. destruct (decide (stack wv = "")); [reflexivity|].
    apply lookup_insert_ne. congruence.
  - apply (wrapper_is_reads _ _ _ _ _ _ _ _ _
             (wrapper_is_grow _ _ _ _ _ _ _ _ _ _ Hok)).
Qed.

Lemma wrapper_Extra_contents_witness :
  wrapper_is 0 0 0
    {| status := Some 0%nat; stack := captureStack sample_stack 2; cause := nil_error |}
    CodeNotFound false "gone" {[ "stack" := "mine" ]}
    (after (NewWithStatus sample_stack CodeNotFound "gone" [Extra "stack" "mine"]) initial) /\
  exists l' σ' m,
    Extra_of (Ptr_withStatus 0)
      (after (NewWithStatus sample_stack CodeNotFound "gone" [Extra "stack" "mine"]) initial)
    = Some (Some l', σ') /\
    maps (after (NewWithStatus sample_stack CodeNotFound "gone" [Extra "stack" "mine"])
            initial) !! l' = None /\
    read_map (Some l') σ' = Some (m, σ') /\
    m !! "stack"
    = (if decide (captureStack sample_stack 2 = "")
       then ({[ "stack" := "mine" ]} : gmap string string) !! "stack"
       else Some (captureStack sample_stack 2)) /\
    (forall k, k <> "stack" -> m !! k = ({[ "stack" := "mine" ]} : gmap string string) !! k) /\
    stored_Extra 0 σ' = Some ({[ "stack" := "mine" ]}, σ').
Proof.
  split; [repeat split; reflexivity|].
  apply (wrapper_Extra_contents 0%nat 0%nat 0%nat
           {| status := Some 0%nat; stack := captureStack sample_stack 2; cause := nil_error |}
           CodeNotFound false "gone" {[ "stack" := "mine" ]}).
  repeat split; reflexivity.
Defined.

Lemma withStatus_Extra_defensive_copy_witness :
  withStatuses (after (NewWithStatus sample_stack CodeNotFound "gone" [Extra "k" "v"]) initial)
    !! 0%nat
  = Some {| status := Some 0%nat; stack := captureStack sample_stack 2;
            cause := nil_error |} /\
  status {| status := Some 0%nat; stack := captureStack sample_stack 2; cause := nil_error |}
  = Some 0%nat /\
  statusErrors (after (NewWithStatus sample_stack CodeNotFound "gone" [Extra "k" "v"]) initial)
    !! 0%nat
  = Some {| statusCode := CodeNotFound; message := "gone";
            ext := {| ext_IsAffectStability := false; ext_Extra := Some 0%nat |} |} /\
  valid_map (after (NewWithStatus sample_stack CodeNotFound "gone" [Extra "k" "v"]) initial)
    (Some 0%nat) /\
  exists l σ1 m σ2 l' σ3,
    withStatus_Extra 0
      (after (NewWithStatus sample_stack CodeNotFound "gone" [Extra "k" "v"]) initial)
    = Some (Some l, σ1) /\
    maps σ1 !! l = Some m /\
    map_assign (Some l) "k" "overwritten" σ1 = Some (tt, σ2) /\
    fst <$> stored_Extra 0 σ2
    = fst <$> stored_Extra 0
                (after (NewWithStatus sample_stack CodeNotFound "gone" [Extra "k" "v"])
                   initial) /\
    withStatus_Extra 0 σ2 = Some (Some l', σ3) /\
    maps σ3 !! l' = Some m.
Proof.
  split; [reflexivity|]. split; [reflexivity|]. split; [reflexivity|].
  split; [eexists; reflexivity|].
  apply (withStatus_Extra_defensive_copy 0%nat
           {| status := Some 0%nat; stack := captureStack sample_stack 2; cause := nil_error |}
           0%nat
           {| statusCode := CodeNotFound; message := "gone";
              ext := {| ext_IsAffectStability := false; ext_Extra := Some 0%nat |} |}
           (after (NewWithStatus sample_stack CodeNotFound "gone" [Extra "k" "v"]) initial)
           "k" "overwritten");
    [reflexivity | reflexivity | reflexivity | eexists; reflexivity].
Defined.

(** ** More on the codec *)

(** X26: For an error built by [NewStatusError], [ToGRPCError] is never nil:
    its status has the table's transport code, which is never OK (the code
    success is sent as internal), the error's message, and at most two
    details. *)
Theorem ToGRPCError_never_nil (Sprintf_v : any -> string) (c : Z) (msg : string) (d : Data)
    (σ : State) :
  valid_data σ d ->
  exists e σ1 st σ2,
    NewStatusError Sprintf_v c msg d σ = Some (e, σ1) /\
    ToGRPCError e σ1 = Some (Some st, σ2) /\
    st_Code st = grpc_of_code c /\
    st_Code st <> codes.OK /\
    st_Message st = resolved (defs σ) c msg /\
    (length (st_Details st) <= 2)%nat.
Proof.
  intros Hd.
  destruct (NewStatusError_run Sprintf_v c msg d σ) as (x & σ1 & Hnew & Hs & _ & _ & Hv & _).
  pose proof (snoc_lookup (statusErrors σ)
    {| statusCode := c; message := resolved (defs σ) c msg;
       ext := {| ext_IsAffectStability := IsAffectStability (GetCodeDefinition (defs σ) c);
                 ext_Extra := x |} |}) as Hp.
  rewrite <- Hs in Hp.
  destruct (ToGRPCStatus_run _ _ _ Hp (Hv Hd)) as (kvs & σ2 & Hto & _). simpl in Hto.
  eexists _, σ1, _, σ2. split; [exact Hnew|]. split.
  - unfold ToGRPCError. rewrite (bind_run _ _ _ _ _ Hto). unfold ret.
    rewrite status_Err_encoded. reflexivity.
  - cbn [st_Code st_Message st_Details].
    split; [reflexivity|]. split; [apply grpc_of_code_not_OK|]. split; [reflexivity|].
    rewrite length_app. unfold attached.
    destruct (0 <? size kvs)%nat; repeat case_match; simpl; lia.
Qed.

Lemma ToGRPCError_never_nil_witness :
  valid_data initial data_nil /\
  exists e σ1 st σ2,
    NewStatusError Sprintf_strings CodeSuccess "" data_nil initial = Some (e, σ1) /\
    ToGRPCError e σ1 = Some (Some st, σ2) /\
    st_Code st = grpc_of_code CodeSuccess /\
    st_Code st <> codes.OK /\
    st_Message st = resolved (defs initial) CodeSuccess "" /\
    (length (st_Details st) <= 2)%nat.
Proof.
  split; [exact I|].
  apply (ToGRPCError_never_nil Sprintf_strings CodeSuccess "" data_nil initial). exact I.
Defined.

Example success_code_is_sent_as_internal :
  grpc_of_code CodeSuccess = codes.Internal.
Proof. reflexivity. Qed.

(** X27: The metadata of two details is merged: the decoded metadata holds
    the formatted fields of both, as [AsMap] hands them back, and on a key
    that both have, the value of the later detail. *)
Theorem FromGRPCStatus_merges_metadata (Sprintf_v : any -> string)
    (int32_overflow : float64 -> Z) (g : codes.Code) (m0 : string) (sm1 sm2 : Struct)
    (σ : State) :
  carries_code (anypb_UnmarshalNew (wrap sm1)) = false ->
  carries_code (anypb_UnmarshalNew (wrap sm2)) = false ->
  exists e σ1 l σ2 m,
    FromGRPCStatus Sprintf_v int32_overflow
      (Some {| st_Code := g; st_Message := m0; st_Details := [wrap sm1; wrap sm2] |}) σ
    = Some (e, σ1) /\
    Extra_of e σ1 = Some (Some l, σ2) /\
    read_map (Some l) σ2 = Some (m, σ2) /\
    (forall k, m !! k
               = match structpb_AsMap sm2 !! k with
                 | Some v => Some (Sprintf_v v)
                 | None => Sprintf_v <$> structpb_AsMap sm1 !! k
                 end).
Proof.
  intros H1 H2.
  destruct (FromGRPCStatus_full Sprintf_v int32_overflow
              (Some {| st_Code := g; st_Message := m0; st_Details := [wrap sm1; wrap sm2] |}) σ)
    as (p & s & σ1 & Hrun & Hp & _ & _ & _ & Hmeta & _).
  destruct (Extra_read _ _ _ _ Hp Hmeta) as (l & σ2 & Hx & Hr).
  eexists (Ptr_statusError p), σ1, l, σ2, _. split; [exact Hrun|]. split; [exact Hx|].
  split; [exact Hr|].
  intros k. cbn in H1, H2 |- *.
  destruct (structpb_AsMap sm1 !! "business_code") as [[]|]; try discriminate;
    destruct (structpb_AsMap sm2 !! "business_code") as [[]|]; try discriminate;
    cbn; rewrite lookup_union, lookup_union, !lookup_fmap, lookup_empty;
    destruct (structpb_AsMap sm2 !! k), (structpb_AsMap sm1 !! k); reflexivity.
Qed.

Lemma FromGRPCStatus_merges_metadata_witness :
  carries_code (anypb_UnmarshalNew
                  (wrap {[ "zone" := any_string "eu-1"; "try" := any_string "1" ]})) = false /\
  carries_code (anypb_UnmarshalNew (wrap {[ "try" := any_string "2" ]})) = false /\
  exists e σ1 l σ2 m,
    FromGRPCStatus Sprintf_strings overflow_min
      (Some {| st_Code := codes.Unavailable; st_Message := "down";
               st_Details := [wrap {[ "zone" := any_string "eu-1"; "try" := any_string "1" ]};
                              wrap {[ "try" := any_string "2" ]}] |}) initial
    = Some (e, σ1) /\
    Extra_of e σ1 = Some (Some l, σ2) /\
    read_map (Some l) σ2 = Some (m, σ2) /\
    (forall k, m !! k
               = match structpb_AsMap {[ "try" := any_string "2" ]} !! k with
                 | Some v => Some (Sprintf_strings v)
                 | None =>
                   Sprintf_strings <$>
                     structpb_AsMap {[ "zone" := any_string "eu-1"; "try" := any_string "1" ]}
                       !! k
                 end).
Proof.
  split; [reflexivity|]. split; [reflexivity|].
  apply (FromGRPCStatus_merges_metadata Sprintf_strings overflow_min codes.Unavailable "down"
           {[ "zone" := any_string "eu-1"; "try" := any_string "1" ]}
           {[ "try" := any_string "2" ]} initial); reflexivity.
Defined.

(** ** [Error()] without a cause *)

(** X28: [Error()] of a wrapper without a cause is its message alone, after
    all options: no code, no metadata, no stack. *)
Theorem Error_is_the_message (stk : list Frame) (code : Z) (msg : string)
    (bs : list builtin) (σ : State) :
  exists w σ' t,
    NewWithStatus stk code msg (to_Option <$> bs) σ = Some (Ptr_withStatus w, σ') /\
    Msg (Ptr_withStatus w) σ' = Some (t, σ') /\
    Error_of (Ptr_withStatus w) σ' = Some (t, σ').
Proof.
  rewrite NewWithStatus_built.
  destruct (options_run nil_error stk code msg bs σ) as (σ' & Hrun & Hok).
  pose proof Hok as (Hw & Hs & Hp & _).
  exists (length (withStatuses σ)), σ', (foldl option_message (resolved (defs σ) code msg) bs).
  split; [exact Hrun|].
  split; [apply (wrapper_is_reads _ _ _ _ _ _ _ _ _ Hok)|].
  unfold Error_of.
  destruct (As_fuel_pos σ' (Ptr_withStatus (length (withStatuses σ)))) as [n ->].
  rewrite (error_text_no_cause _ _ _ _ _ _ Hw Hs Hp eq_refl). reflexivity.
Qed.

(** ** The stability flag across the wire *)

(** X29: For a status error with one of the five mapped codes, the stability
    flag of the decoded error is the flag of the original. *)
Theorem stability_round_trip (Sprintf_v : any -> string) (int32_overflow : float64 -> Z)
    (c : Z) (msg : string) (d : Data) (σ : State) :
  valid_data σ d ->
  In c mapped_codes ->
  exists e σ1 a st σ2 e' σ3,
    NewStatusError Sprintf_v c msg d σ = Some (e, σ1) /\
    IsAffectStability_of e σ1 = Some (a, σ1) /\
    ToGRPCStatus e σ1 = Some (st, σ2) /\
    FromGRPCStatus Sprintf_v int32_overflow st σ2 = Some (e', σ3) /\
    IsAffectStability_of e' σ3 = Some (a, σ3).
Proof.
  intros Hd Hc.
  destruct (NewStatusError_run Sprintf_v c msg d σ)
    as (x & σ1 & Hnew & Hs & Hdefs & _ & Hv & _).
  pose proof (snoc_lookup (statusErrors σ)
    {| statusCode := c; message := resolved (defs σ) c msg;
       ext := {| ext_IsAffectStability := IsAffectStability (GetCodeDefinition (defs σ) c);
                 ext_Extra := x |} |}) as Hp.
  rewrite <- Hs in Hp.
  destruct (ToGRPCStatus_run _ _ _ Hp (Hv Hd)) as (kvs & σ2 & Hto & Hdefs2). simpl in Hto.
  destruct (FromGRPCStatus_full Sprintf_v int32_overflow
              (encoded c (resolved (defs σ) c msg) kvs) σ2)
    as (p' & s' & σ3 & Hfrom & Hp' & _ & _ & Hflag & _).
  rewrite decoded_encoded in Hflag. cbn [fst] in Hflag.
  fold (decoded_code int32_overflow c (resolved (defs σ) c msg)) in Hflag.
  rewrite (decoded_code_mapped _ _ _ Hc), Hdefs2, Hdefs in Hflag.
  eexists _, σ1, _, _, σ2, _, σ3. split; [exact Hnew|].
  split; [apply (IsAffectStability_statusError _ _ _ Hp)|].
  split; [exact Hto|]. split; [exact Hfrom|].
  rewrite (IsAffectStability_statusError _ _ _ Hp'), Hflag. reflexivity.
Qed.

Lemma stability_round_trip_witness :
  valid_data initial data_nil /\
  In CodeUnauthorized mapped_codes /\
  exists e σ1 a st σ2 e' σ3,
    NewStatusError Sprintf_strings CodeUnauthorized "" data_nil initial = Some (e, σ1) /\
    IsAffectStability_of e σ1 = Some (a, σ1) /\
    ToGRPCStatus e σ1 = Some (st, σ2) /\
    FromGRPCStatus Sprintf_strings overflow_min st σ2 = Some (e', σ3) /\
    IsAffectStability_of e' σ3 = Some (a, σ3).
Proof.
  split; [exact I|]. split; [simpl; auto|].
  apply (stability_round_trip Sprintf_strings overflow_min CodeUnauthorized "" data_nil
           initial); [exact I | simpl; auto].
Defined.
